(** * Monte Carlo titration driver (constph.py): a shallow embedding

    The Python class [MonteCarloTitration] is embedded as functions in a
    state-and-exception monad over a record [World] that holds the fields of
    the object together with the mutable objects it shares with its
    environment (the Force objects of the System, the Context, the state of
    the [random] module, standard output and the module namespace).

    Python floats and [simtk.unit] quantities are kept abstract: every
    arithmetic operation the source performs is an operation of the class
    [FloatOps], so the theorems hold for every interpretation of the float
    operations.  Units are not tracked.  Two interpretations are given: IEEE
    binary64 (what a Python float is), which computes, and the real numbers,
    the idealised reading in which the arithmetic laws hold. *)

From Stdlib Require Import ZArith String Reals Lra Sorted DecimalString.
From Stdlib Require Import Floats.PrimFloat.
From stdpp Require Import base list.

Local Open Scope Z_scope.

(** ** Exceptions

    The source raises plain [Exception] objects that differ in their message;
    the constructors below name them after the message.  The remaining
    constructors are the built-in exceptions the interpreter raises. *)

Inductive PyError : Type :=
| OverlapError              (* "Titration groups cannot share atoms. ..." *)
| InvalidGroupError         (* "Invalid titratable group requested. ..." *)
| InvalidStateError         (* "Invalid titration state requested. ..." *)
| ChargeCountMismatchError  (* "The number of charges must match ..." *)
| UnsupportedForceError (classname : string)  (* "Don't know how to update force type '%s'" *)
| NameError (name : string)
| UnboundLocalError          (* "local variable 'charge'/'radius' referenced before assignment" *)
| AttributeError
| KeyError (key : string)
| IndexError
| TypeError
| ValueError
| ZeroDivisionError
| OpenMMException
| InvalidReference.         (* a force reference outside the System; the constructor never builds one *)

Inductive Result (A : Type) : Type :=
| Ok (a : A)
| Raise (e : PyError).
Arguments Ok {A} a.
Arguments Raise {A} e.

(** ** The state-and-exception monad

    A computation maps a state to a result and the state it leaves behind.
    A raised exception keeps the state reached so far: mutations of Python
    objects are not undone when an exception propagates. *)

Definition M (S A : Type) : Type := S -> Result A * S.

Definition ret {S A} (a : A) : M S A := fun s => (Ok a, s).

Definition raise {S A} (e : PyError) : M S A := fun s => (Raise e, s).

Definition bind {S A B} (c : M S A) (k : A -> M S B) : M S B :=
  fun s => match c s with
           | (Ok a, s') => k a s'
           | (Raise e, s') => (Raise e, s')
           end.

Definition gets {S A} (f : S -> A) : M S A := fun s => (Ok (f s), s).

Definition modify {S} (f : S -> S) : M S unit := fun s => (Ok tt, f s).

Definition lift_result {S A} (r : Result A) : M S A := fun s => (r, s).

Notation "'let*' x := c 'in' k" := (bind c (fun x => k))
  (at level 10, x name, c at level 100, k at level 200).
Notation "'let*' ' pat := c 'in' k" := (bind c (fun x => match x with pat => k end))
  (at level 10, pat pattern, c at level 100, k at level 200).
Notation "c ;; k" := (bind c (fun _ => k))
  (at level 100, k at level 200, right associativity).

(** [for x in l: body x] *)
Fixpoint forM_ {S A} (l : list A) (body : A -> M S unit) : M S unit :=
  match l with
  | [] => ret tt
  | x :: l' => body x ;; forM_ l' body
  end.

(** [for x in l: acc = body acc x], the accumulator being a local variable. *)
Fixpoint foldM {S A B} (l : list A) (acc : B) (body : B -> A -> M S B) : M S B :=
  match l with
  | [] => ret acc
  | x :: l' => let* acc' := body acc x in foldM l' acc' body
  end.

(** [for _ in range(n): body] *)
Fixpoint repeatM {S} (n : nat) (body : M S unit) : M S unit :=
  match n with
  | O => ret tt
  | S n' => body ;; repeatM n' body
  end.

(** [for x in l: ... return v ...] followed by [return None]: the value of
    the first pass that returns. *)
Fixpoint first_returned {S A B} (l : list A) (body : A -> M S (option B)) : M S (option B) :=
  match l with
  | [] => ret None
  | x :: l' =>
      let* returned := body x in
      match returned with
      | Some b => ret (Some b)
      | None => first_returned l' body
      end
  end.

(** ** Python sequences *)

(** [i in range(n)] *)
Definition in_range (i n : Z) : bool := (0 <=? i) && (i <? n).

(** [range(n)] as a list (Python 2). *)
Definition py_range (n : Z) : list Z := map Z.of_nat (seq 0 (Z.to_nat n)).

(** [l[i]]: negative indices count from the end, anything else out of range
    raises [IndexError]. *)
Definition py_index {A} (l : list A) (i : Z) : option nat :=
  let n := Z.of_nat (length l) in
  if in_range i n then Some (Z.to_nat i)
  else if in_range (n + i) n then Some (Z.to_nat (n + i))
  else None.

Definition py_getitem {A} (l : list A) (i : Z) : Result A :=
  match py_index l i with
  | Some k => match l !! k with Some x => Ok x | None => Raise IndexError end
  | None => Raise IndexError
  end.

(** [l[i] = v] *)
Definition py_setitem {A} (l : list A) (i : Z) (v : A) : Result (list A) :=
  match py_index l i with
  | Some k => Ok (<[k := v]> l)
  | None => Raise IndexError
  end.

(** [enumerate(l)] *)
Definition enumerate {A} (l : list A) : list (Z * A) :=
  combine (map Z.of_nat (seq 0 (length l))) l.

(** [x in l] for integers. *)
Definition mem_Z (x : Z) (l : list Z) : bool := existsb (Z.eqb x) l.

(** ** Floats *)

Class FloatOps (num : Type) : Type := {
  fadd : num -> num -> num;
  fsub : num -> num -> num;
  fmul : num -> num -> num;
  fdiv : num -> num -> num;
  fneg : num -> num;
  fexp : num -> num;                 (* math.exp *)
  fltb : num -> num -> bool;         (* a < b *)
  feqb : num -> num -> bool;         (* a == b *)
  of_int : Z -> num;                 (* float(n), and the implicit int-to-float coercion *)
  ln10 : num;                        (* math.log(10) *)
  float_epsilon : num;               (* sys.float_info.epsilon *)
  kB : num                           (* BOLTZMANN_CONSTANT_kB * AVOGADRO_CONSTANT_NA *)
}.

(** [a / b] on floats raises [ZeroDivisionError] when [b == 0.0]. *)
Definition py_truediv {num} `{FloatOps num} (a b : num) : Result num :=
  if feqb b (of_int 0) then Raise ZeroDivisionError else Ok (fdiv a b).

(** [abs(x)] on floats. *)
Class FloatAbs (num : Type) : Type := fabs : num -> num.

(** ** Data model *)

Section Data.
Context {num : Type}.

(** One entry of [group['titration_states']] (a dict in the source). *)
Record TitrationState : Type := {
  pKref : num;
  relative_energy : num;
  charges : list num;
  proton_count : Z
}.

(** One entry of [self.titrationGroups] (a dict in the source). *)
Record TitrationGroup : Type := {
  atom_indices : list Z;
  titration_states : list TitrationState;
  index : Z;
  nstates : Z;
  exception_indices : list Z
}.

(** The Force objects of the System.  Only the parameters the driver reads
    and writes are kept: per particle (charge, sigma, epsilon) for
    NonbondedForce and (charge, radius, scaleFactor) for GBSAOBCForce, and
    per exception (particle1, particle2, chargeProd, sigma, epsilon).
    [OtherForce] stands for every other class; the flag says whether the
    object has an [updateParametersInContext] attribute. *)
Inductive Force : Type :=
| NonbondedForce (particles : list (num * num * num))
                 (exceptions : list (Z * Z * num * num * num))
| GBSAOBCForce (particles : list (num * num * num))
| OtherForce (classname : string) (has_update : bool).

(** What the [print] statements write, one constructor per statement, with
    the values that are formatted. *)
Inductive OutputLine : Type :=
| LogProbabilityLine (proton_count : Z) (pH pKref energy_term pH_term reference_term : num)
| DebugInitialLine (states : list (option Z)) (potential : num)
| DebugProposalLine (log_P_initial log_P_final work : num)
| DebugNonbondedLine (atom_index : Z) (old_parameters : num * num * num) (charge : num)
| BlankLine.
End Data.
Arguments TitrationState : clear implicits.
Arguments TitrationGroup : clear implicits.
Arguments Force : clear implicits.
Arguments OutputLine : clear implicits.
Arguments BlankLine {num}.

(** Values of module-level names. *)
Inductive PyValue : Type :=
| PyInt (z : Z)
| PySystem        (* the System built by the script, which it also passes to the constructor *)
| PyObject.       (* anything else *)

(** The module namespace.  The import statements, [kB] and the class are
    always bound; the other names are bound by the block under
    [if __name__ == "__main__"], [system] before the driver is constructed. *)
Definition module_globals (run_as_script : bool) : list (string * PyValue) :=
  let always :=
    map (fun n => (n, PyObject))
      ["re"; "os"; "sys"; "math"; "random"; "copy"; "time"; "simtk"; "openmm";
       "units"; "kB"; "MonteCarloTitration"]%string in
  let script :=
    [("doctest", PyObject); ("niterations", PyInt 500); ("nsteps", PyInt 500);
     ("temperature", PyObject); ("timestep", PyObject);
     ("collision_rate", PyObject); ("pH", PyObject);
     ("prmtop_filename", PyObject); ("inpcrd_filename", PyObject);
     ("cpin_filename", PyObject); ("app", PyObject); ("inpcrd", PyObject);
     ("prmtop", PyObject); ("system", PySystem); ("mc_titration", PyObject);
     ("platform_name", PyObject); ("platform", PyObject);
     ("integrator", PyObject); ("context", PyObject); ("state", PyObject);
     ("potential_energy", PyObject); ("iteration", PyInt 0);
     ("initial_time", PyObject); ("final_time", PyObject);
     ("elapsed_time", PyObject)]%string in
  if run_as_script then always ++ script else always.

Fixpoint assoc_string {V} (name : string) (l : list (string * V)) : option V :=
  match l with
  | [] => None
  | (k, v) :: l' => if String.eqb name k then Some v else assoc_string name l'
  end.

(** ** External collaborators *)

(** The Context: the energies it reports and the effect of
    [force.updateParametersInContext(context)], which uploads the current
    parameters of one Force of the System (given by its position). *)
Class EnergyOracle (num ctx : Type) : Type := {
  getPotentialEnergy : ctx -> num;
  getKineticEnergy : ctx -> num;
  updateParametersInContext : nat -> Force num -> ctx -> ctx
}.

(** The [random] module: [random()], [sample(range(n), k)] for [k <= n] and
    [choice(range(n))] for [0 < n], each advancing the generator state. *)
Class RandomSource (num rng : Type) : Type := {
  random_random : rng -> num * rng;
  random_sample : nat -> nat -> rng -> list Z * rng;
  random_choice : nat -> rng -> Z * rng
}.

(** ** The files the constructor reads *)

(** [range(a, b)] *)
Definition py_range2 (a b : Z) : list Z :=
  map (fun k => a + Z.of_nat k) (seq 0 (Z.to_nat (b - a))).

(** [l[a:b]]: a negative bound counts from the end, and bounds outside the
    list are clipped. *)
Definition py_slice {A} (l : list A) (a b : Z) : list A :=
  let n := Z.of_nat (length l) in
  let clip i := if i <? 0 then Z.max 0 (n + i) else Z.min i n in
  take (Z.to_nat (clip b - clip a)) (drop (Z.to_nat (clip a)) l).

(** [d[key]] for a dict with string keys. *)
Definition dict_getitem {V} (d : list (string * V)) (key : string) : Result V :=
  match assoc_string key d with
  | Some v => Ok v
  | None => Raise (KeyError key)
  end.

(** ['%d' % n] *)
Definition format_int (n : Z) : string := NilZero.string_of_int (Z.to_int n).

(** The value of one kilocalorie per mole in the unit of the energies the
    Context reports ([units.kilocalories_per_mole]). *)
Class EnergyUnits (num : Type) : Type := kilocalories_per_mole : num.

(** What the constructor reads of the parsed prmtop file: the number of
    atoms and, of each tuple of [get14Interactions()], the two atoms. *)
Record Prmtop : Type := {
  getNumAtoms : Z;
  get14Interactions : list (Z * Z)
}.

(** A value of the namelist of the cpin file: the parser stores the element
    itself when there is one and a list otherwise (lines 362-363). *)
Inductive NamelistValue (A : Type) : Type :=
| Single (x : A)
| Several (l : list A).
Arguments Single {A} x.
Arguments Several {A} l.

(** The entries of the namelist the constructor reads, as
    [_parse_fortran_namelist] returns them for a cpin file: integers for
    [RESSTATE], [PROTCNT] and the [STATEINF(i)%FIELD] entries (kept under
    their keys), numbers for [CHRGDAT] and [STATENE]; [None] for a missing
    key. *)
Record Namelist (num : Type) : Type := {
  RESSTATE : option (NamelistValue Z);
  STATEINF : list (string * Z);
  CHRGDAT : option (NamelistValue num);
  STATENE : option (NamelistValue num);
  PROTCNT : option (NamelistValue Z)
}.
Arguments RESSTATE {num} n.
Arguments STATEINF {num} n.
Arguments CHRGDAT {num} n.
Arguments STATENE {num} n.
Arguments PROTCNT {num} n.

(** [namelist[key][...]]: [KeyError] for a missing key, [TypeError] for a
    value that is not a list. *)
Definition subscriptable {A} (key : string) (value : option (NamelistValue A))
    : Result (list A) :=
  match value with
  | None => Raise (KeyError key)
  | Some (Single _) => Raise TypeError
  | Some (Several l) => Ok l
  end.

(** ** The driver *)

Section Engine.
Context {num ctx rng : Type}.
Context `{FO : FloatOps num} `{EO : EnergyOracle num ctx} `{RS : RandomSource num rng}.

(** The fields of the [MonteCarloTitration] object (first group) and the
    objects around it (second group).  [forces_to_update] holds references
    to Force objects of [self.system]: positions in [system_forces]. *)
Record World : Type := {
  simultaneous_proposal_probability : num;
  temperature : num;
  pH : num;
  debug : bool;
  titrationGroups : list (TitrationGroup num);
  titrationStates : list (option Z);
  coulomb14scale : option num;
  atomExceptions : list (list Z);
  forces_to_update : list nat;
  nattempts_per_update : Z;
  nattempted : Z;
  naccepted : Z;
  work_history : list (list (option Z) * list (option Z) * num);

  system_forces : list (Force num);
  run_as_script : bool;
  context : ctx;
  random_state : rng;
  stdout : list (OutputLine num)
}.

Definition set_titrationGroups (v : list (TitrationGroup num)) (w : World) : World :=
  {| simultaneous_proposal_probability := simultaneous_proposal_probability w;
     temperature := temperature w; pH := pH w; debug := debug w;
     titrationGroups := v;
     titrationStates := titrationStates w; coulomb14scale := coulomb14scale w;
     atomExceptions := atomExceptions w; forces_to_update := forces_to_update w;
     nattempts_per_update := nattempts_per_update w; nattempted := nattempted w;
     naccepted := naccepted w; work_history := work_history w;
     system_forces := system_forces w; run_as_script := run_as_script w;
     context := context w; random_state := random_state w; stdout := stdout w |}.

Definition set_titrationStates (v : list (option Z)) (w : World) : World :=
  {| simultaneous_proposal_probability := simultaneous_proposal_probability w;
     temperature := temperature w; pH := pH w; debug := debug w;
     titrationGroups := titrationGroups w;
     titrationStates := v; coulomb14scale := coulomb14scale w;
     atomExceptions := atomExceptions w; forces_to_update := forces_to_update w;
     nattempts_per_update := nattempts_per_update w; nattempted := nattempted w;
     naccepted := naccepted w; work_history := work_history w;
     system_forces := system_forces w; run_as_script := run_as_script w;
     context := context w; random_state := random_state w; stdout := stdout w |}.

Definition set_nattempts_per_update (v : Z) (w : World) : World :=
  {| simultaneous_proposal_probability := simultaneous_proposal_probability w;
     temperature := temperature w; pH := pH w; debug := debug w;
     titrationGroups := titrationGroups w;
     titrationStates := titrationStates w; coulomb14scale := coulomb14scale w;
     atomExceptions := atomExceptions w; forces_to_update := forces_to_update w;
     nattempts_per_update := v; nattempted := nattempted w;
     naccepted := naccepted w; work_history := work_history w;
     system_forces := system_forces w; run_as_script := run_as_script w;
     context := context w; random_state := random_state w; stdout := stdout w |}.

Definition set_nattempted (v : Z) (w : World) : World :=
  {| simultaneous_proposal_probability := simultaneous_proposal_probability w;
     temperature := temperature w; pH := pH w; debug := debug w;
     titrationGroups := titrationGroups w;
     titrationStates := titrationStates w; coulomb14scale := coulomb14scale w;
     atomExceptions := atomExceptions w; forces_to_update := forces_to_update w;
     nattempts_per_update := nattempts_per_update w; nattempted := v;
     naccepted := naccepted w; work_history := work_history w;
     system_forces := system_forces w; run_as_script := run_as_script w;
     context := context w; random_state := random_state w; stdout := stdout w |}.

Definition set_naccepted (v : Z) (w : World) : World :=
  {| simultaneous_proposal_probability := simultaneous_proposal_probability w;
     temperature := temperature w; pH := pH w; debug := debug w;
     titrationGroups := titrationGroups w;
     titrationStates := titrationStates w; coulomb14scale := coulomb14scale w;
     atomExceptions := atomExceptions w; forces_to_update := forces_to_update w;
     nattempts_per_update := nattempts_per_update w; nattempted := nattempted w;
     naccepted := v; work_history := work_history w;
     system_forces := system_forces w; run_as_script := run_as_script w;
     context := context w; random_state := random_state w; stdout := stdout w |}.

Definition set_work_history (v : list (list (option Z) * list (option Z) * num))
    (w : World) : World :=
  {| simultaneous_proposal_probability := simultaneous_proposal_probability w;
     temperature := temperature w; pH := pH w; debug := debug w;
     titrationGroups := titrationGroups w;
     titrationStates := titrationStates w; coulomb14scale := coulomb14scale w;
     atomExceptions := atomExceptions w; forces_to_update := forces_to_update w;
     nattempts_per_update := nattempts_per_update w; nattempted := nattempted w;
     naccepted := naccepted w; work_history := v;
     system_forces := system_forces w; run_as_script := run_as_script w;
     context := context w; random_state := random_state w; stdout := stdout w |}.

Definition set_system_forces (v : list (Force num)) (w : World) : World :=
  {| simultaneous_proposal_probability := simultaneous_proposal_probability w;
     temperature := temperature w; pH := pH w; debug := debug w;
     titrationGroups := titrationGroups w;
     titrationStates := titrationStates w; coulomb14scale := coulomb14scale w;
     atomExceptions := atomExceptions w; forces_to_update := forces_to_update w;
     nattempts_per_update := nattempts_per_update w; nattempted := nattempted w;
     naccepted := naccepted w; work_history := work_history w;
     system_forces := v; run_as_script := run_as_script w;
     context := context w; random_state := random_state w; stdout := stdout w |}.

Definition set_context (v : ctx) (w : World) : World :=
  {| simultaneous_proposal_probability := simultaneous_proposal_probability w;
     temperature := temperature w; pH := pH w; debug := debug w;
     titrationGroups := titrationGroups w;
     titrationStates := titrationStates w; coulomb14scale := coulomb14scale w;
     atomExceptions := atomExceptions w; forces_to_update := forces_to_update w;
     nattempts_per_update := nattempts_per_update w; nattempted := nattempted w;
     naccepted := naccepted w; work_history := work_history w;
     system_forces := system_forces w; run_as_script := run_as_script w;
     context := v; random_state := random_state w; stdout := stdout w |}.

Definition set_random_state (v : rng) (w : World) : World :=
  {| simultaneous_proposal_probability := simultaneous_proposal_probability w;
     temperature := temperature w; pH := pH w; debug := debug w;
     titrationGroups := titrationGroups w;
     titrationStates := titrationStates w; coulomb14scale := coulomb14scale w;
     atomExceptions := atomExceptions w; forces_to_update := forces_to_update w;
     nattempts_per_update := nattempts_per_update w; nattempted := nattempted w;
     naccepted := naccepted w; work_history := work_history w;
     system_forces := system_forces w; run_as_script := run_as_script w;
     context := context w; random_state := v; stdout := stdout w |}.

Definition set_stdout (v : list (OutputLine num)) (w : World) : World :=
  {| simultaneous_proposal_probability := simultaneous_proposal_probability w;
     temperature := temperature w; pH := pH w; debug := debug w;
     titrationGroups := titrationGroups w;
     titrationStates := titrationStates w; coulomb14scale := coulomb14scale w;
     atomExceptions := atomExceptions w; forces_to_update := forces_to_update w;
     nattempts_per_update := nattempts_per_update w; nattempted := nattempted w;
     naccepted := naccepted w; work_history := work_history w;
     system_forces := system_forces w; run_as_script := run_as_script w;
     context := context w; random_state := random_state w; stdout := v |}.

(** [print ...] *)
Definition print (line : OutputLine num) : M World unit :=
  modify (fun w => set_stdout (stdout w ++ [line]) w).

(** Reading a name that is not local: looked up in the module namespace. *)
Definition load_global (name : string) : M World PyValue :=
  fun w => match assoc_string name (module_globals (run_as_script w)) with
           | Some v => (Ok v, w)
           | None => (Raise (NameError name), w)
           end.

Definition as_int (v : PyValue) : M World Z :=
  match v with PyInt z => ret z | _ => raise TypeError end.

(** *** The [random] module *)

(** [random.random()] *)
Definition py_random : M World num :=
  fun w => let (x, r) := random_random (random_state w) in
           (Ok x, set_random_state r w).

(** [random.sample(range(n), k)]: [ValueError] when the sample is larger
    than the population. *)
Definition py_sample (n k : Z) : M World (list Z) :=
  fun w => if n <? k then (Raise ValueError, w)
           else let (l, r) := random_sample (Z.to_nat n) (Z.to_nat k) (random_state w) in
                (Ok l, set_random_state r w).

(** [random.choice(range(n))], which is [seq[int(self.random() * len(seq))]]:
    on an empty range the generator has drawn a number when the subscript
    raises [IndexError]. *)
Definition py_choice (n : Z) : M World Z :=
  fun w => if n <=? 0 then
             let (_, r) := random_random (random_state w) in
             (Raise IndexError, set_random_state r w)
           else let (x, r) := random_choice (Z.to_nat n) (random_state w) in
                (Ok x, set_random_state r w).

(** *** Force objects (OpenMM API)

    An index outside the particles or exceptions of a Force makes OpenMM
    throw; the calls below raise [OpenMMException] then. *)

Definition omm_get {A} (l : list A) (i : Z) : Result A :=
  if in_range i (Z.of_nat (length l)) then
    match l !! Z.to_nat i with Some x => Ok x | None => Raise OpenMMException end
  else Raise OpenMMException.

Definition omm_set {A} (l : list A) (i : Z) (v : A) : Result (list A) :=
  if in_range i (Z.of_nat (length l)) then Ok (<[Z.to_nat i := v]> l)
  else Raise OpenMMException.

(** Dereference a Force reference. *)
Definition lookup_force (force : nat) : M World (Force num) :=
  fun w => match system_forces w !! force with
           | Some f => (Ok f, w)
           | None => (Raise InvalidReference, w)
           end.

Definition store_force (force : nat) (f : Force num) : M World unit :=
  modify (fun w => set_system_forces (<[force := f]> (system_forces w)) w).

(** [force.getParticleParameters(index)] *)
Definition getParticleParameters (force : nat) (index : Z) : M World (num * num * num) :=
  let* f := lookup_force force in
  match f with
  | NonbondedForce ps _ => lift_result (omm_get ps index)
  | GBSAOBCForce ps => lift_result (omm_get ps index)
  | OtherForce _ _ => raise AttributeError
  end.

(** [force.setParticleParameters(index, a, b, c)] *)
Definition setParticleParameters (force : nat) (index : Z) (a b c : num) : M World unit :=
  let* f := lookup_force force in
  match f with
  | NonbondedForce ps es =>
      let* ps' := lift_result (omm_set ps index (a, b, c)) in
      store_force force (NonbondedForce ps' es)
  | GBSAOBCForce ps =>
      let* ps' := lift_result (omm_set ps index (a, b, c)) in
      store_force force (GBSAOBCForce ps')
  | OtherForce _ _ => raise AttributeError
  end.

(** [force.getNumExceptions()] *)
Definition getNumExceptions (force : nat) : M World Z :=
  let* f := lookup_force force in
  match f with
  | NonbondedForce _ es => ret (Z.of_nat (length es))
  | _ => raise AttributeError
  end.

(** [force.getExceptionParameters(index)] *)
Definition getExceptionParameters (force : nat) (index : Z)
    : M World (Z * Z * num * num * num) :=
  let* f := lookup_force force in
  match f with
  | NonbondedForce _ es => lift_result (omm_get es index)
  | _ => raise AttributeError
  end.

(** [force.setExceptionParameters(index, particle1, particle2, chargeProd, sigma, epsilon)] *)
Definition setExceptionParameters (force : nat) (index : Z)
    (particle1 particle2 : Z) (chargeProd sigma epsilon : num) : M World unit :=
  let* f := lookup_force force in
  match f with
  | NonbondedForce ps es =>
      let* es' := lift_result
                    (omm_set es index (particle1, particle2, chargeProd, sigma, epsilon)) in
      store_force force (NonbondedForce ps es')
  | _ => raise AttributeError
  end.

(** [hasattr(force, 'updateParametersInContext')] *)
Definition has_updateParametersInContext (f : Force num) : bool :=
  match f with
  | NonbondedForce _ _ => true
  | GBSAOBCForce _ => true
  | OtherForce _ b => b
  end.

(** [force.updateParametersInContext(context)] *)
Definition force_updateParametersInContext (force : nat) : M World unit :=
  let* f := lookup_force force in
  modify (fun w => set_context (updateParametersInContext force f (context w)) w).

(** The "ugly hack" of the source: a value [x] with [2*x == x] is replaced
    by [sys.float_info.epsilon]. *)
Definition floor_nonzero (x : num) : num :=
  if feqb (fmul (of_int 2) x) x then float_epsilon else x.

(** [forces['NonbondedForce']] for the dict built from the class names of
    the System's forces: the last NonbondedForce, [KeyError] without one. *)
Fixpoint last_nonbonded (fs : list (Force num)) (position : nat) (found : option nat)
    : option nat :=
  match fs with
  | [] => found
  | NonbondedForce _ _ :: fs' => last_nonbonded fs' (S position) (Some position)
  | _ :: fs' => last_nonbonded fs' (S position) found
  end.

Definition nonbonded_force_of_system : M World nat :=
  fun w => match last_nonbonded (system_forces w) 0%nat None with
           | Some force => (Ok force, w)
           | None => (Raise (KeyError "NonbondedForce"), w)
           end.

(** *** resetStatistics (lines 275-290) *)
Definition resetStatistics : M World unit :=
  modify (set_nattempted 0) ;;
  modify (set_naccepted 0) ;;
  modify (set_work_history []).

(** *** get14exceptions (lines 234-273) *)

(** Lines 267-270: the parameters of the exception are read again and
    written back with the zero values replaced. *)
Definition floor_exception (force : nat) (exception_index : Z) : M World unit :=
  let* '(particle1, particle2, chargeProd, sigma, epsilon) :=
    getExceptionParameters force exception_index in
  let chargeProd := floor_nonzero chargeProd in
  let epsilon := floor_nonzero epsilon in
  setExceptionParameters force exception_index particle1 particle2
    chargeProd sigma epsilon.

Definition get14exceptions (system : PyValue) (particle_indices : list Z)
    : M World (list Z) :=
  match system with
  | PySystem =>
      let* force := nonbonded_force_of_system in
      let* nexceptions := getNumExceptions force in
      foldM (py_range nexceptions) [] (fun exception_indices exception_index =>
        let* '(particle1, particle2, chargeProd, sigma, epsilon) :=
          getExceptionParameters force exception_index in
        if mem_Z particle1 particle_indices || mem_Z particle2 particle_indices then
          let* atomExceptions := gets atomExceptions in
          let* of_particle1 := lift_result (py_getitem atomExceptions particle1) in
          let* listed :=
            (if mem_Z particle2 of_particle1 then ret true
             else let* of_particle2 := lift_result (py_getitem atomExceptions particle2) in
                  ret (mem_Z particle1 of_particle2)) in
          if (listed : bool) then
            let exception_indices := exception_indices ++ [exception_index] in
            floor_exception force exception_index ;;
            ret exception_indices
          else ret exception_indices
        else ret exception_indices)
  | _ => raise AttributeError
  end.

(** *** getNumTitratableGroups (lines 374-384) *)
Definition getNumTitratableGroups : M World Z :=
  gets (fun w => Z.of_nat (length (titrationGroups w))).

(** *** addTitratableGroup (lines 386-418) *)
Definition addTitratableGroup (atom_indices_arg : list Z) : M World Z :=
  let* groups := gets titrationGroups in
  forM_ groups (fun group =>
    if existsb (fun a => mem_Z a (atom_indices group)) atom_indices_arg
    then raise OverlapError else ret tt) ;;
  let* ngroups := gets (fun w => Z.of_nat (length (titrationGroups w))) in
  let group_index := ngroups + 1 in
  let* system := load_global "system" in
  let* exceptions := get14exceptions system atom_indices_arg in
  let group := {| atom_indices := atom_indices_arg;
                  titration_states := [];
                  index := group_index;
                  nstates := 0;
                  exception_indices := exceptions |} in
  modify (fun w => set_titrationGroups (titrationGroups w ++ [group]) w) ;;
  modify (fun w => set_titrationStates (titrationStates w ++ [None]) w) ;;
  ret group_index.

(** *** getNumTitrationStates (lines 420-436) *)
Definition getNumTitrationStates (titration_group_index : Z) : M World Z :=
  let* ngroups := getNumTitratableGroups in
  if negb (in_range titration_group_index ngroups) then raise InvalidGroupError else
  let* groups := gets titrationGroups in
  let* group := lift_result (py_getitem groups titration_group_index) in
  ret (Z.of_nat (length (titration_states group))).

(** [self.titrationGroups[i][field] = ...]: the group dict is updated in place. *)
Definition update_group (titration_group_index : Z)
    (f : TitrationGroup num -> TitrationGroup num) : M World unit :=
  let* groups := gets titrationGroups in
  let* group := lift_result (py_getitem groups titration_group_index) in
  let* groups' := lift_result (py_setitem groups titration_group_index (f group)) in
  modify (set_titrationGroups groups').

(** *** addTitrationState (lines 438-478) *)
Definition addTitrationState (titration_group_index : Z) (pKref_arg relative_energy_arg : num)
    (charges_arg : list num) (proton_count_arg : Z) : M World unit :=
  let* ngroups := getNumTitratableGroups in
  if negb (in_range titration_group_index ngroups) then raise InvalidGroupError else
  let* groups := gets titrationGroups in
  let* group := lift_result (py_getitem groups titration_group_index) in
  if negb (Z.of_nat (length charges_arg) =? Z.of_nat (length (atom_indices group)))
  then raise ChargeCountMismatchError else
  let state := {| pKref := pKref_arg;
                  relative_energy := relative_energy_arg;
                  charges := charges_arg;
                  proton_count := proton_count_arg |} in
  update_group titration_group_index (fun group =>
    {| atom_indices := atom_indices group;
       titration_states := titration_states group ++ [state];
       index := index group;
       nstates := nstates group;
       exception_indices := exception_indices group |}) ;;
  let* groups := gets titrationGroups in
  let* group := lift_result (py_getitem groups titration_group_index) in
  let* states := gets titrationStates in
  let* states' := lift_result
                    (py_setitem states titration_group_index (Some (nstates group))) in
  modify (set_titrationStates states') ;;
  update_group titration_group_index (fun group =>
    {| atom_indices := atom_indices group;
       titration_states := titration_states group;
       index := index group;
       nstates := nstates group + 1;
       exception_indices := exception_indices group |}).

(** *** getTitrationState (lines 480-496) *)
Definition getTitrationState (titration_group_index : Z) : M World (option Z) :=
  let* ngroups := getNumTitratableGroups in
  if negb (in_range titration_group_index ngroups) then raise InvalidGroupError else
  let* states := gets titrationStates in
  lift_result (py_getitem states titration_group_index).

(** *** getTitrationStates (lines 498-507) *)
Definition getTitrationStates : M World (list (option Z)) :=
  gets titrationStates.

(** *** getTitrationStateTotalCharge (lines 509-528)

    [titration_state_index] and [titratable_group_index] are neither
    parameters nor assigned in the body, so they are read from the module
    namespace. *)
Definition getTitrationStateTotalCharge (titration_group_index : Z) : M World num :=
  let* ngroups := getNumTitratableGroups in
  if negb (in_range titration_group_index ngroups) then raise InvalidGroupError else
  let* v := load_global "titration_state_index" in
  let* titration_state_index := as_int v in
  let* v := load_global "titratable_group_index" in
  let* titratable_group_index := as_int v in
  let* nstates := getNumTitrationStates titratable_group_index in
  if negb (in_range titration_state_index nstates) then raise InvalidStateError else
  let* groups := gets titrationGroups in
  let* group := lift_result (py_getitem groups titration_group_index) in
  let* state := lift_result (py_getitem (titration_states group) titration_state_index) in
  ret (fold_left fadd (charges state) (of_int 0)).

(** *** setTitrationState (lines 531-602)

    [update_force_parameters] is the body of the loop over
    [self.forces_to_update] (lines 558-597), [update_particle_charge] the
    body of its loop over the atoms (lines 566-576) and [update_exception]
    the body of its loop over the exceptions (lines 580-593).
    [use_context] says whether a Context was passed. *)
Definition update_particle_charge (force : nat) (f : Force num) (charges : list num)
    (debug_arg : bool) (charge_index atom_index : Z) : M World unit :=
  match f with
  | NonbondedForce _ _ =>
      let* '(charge, sigma, epsilon) := getParticleParameters force atom_index in
      let* new_charge := lift_result (py_getitem charges charge_index) in
      (if debug_arg
       then print (DebugNonbondedLine atom_index (charge, sigma, epsilon) new_charge)
       else ret tt) ;;
      setParticleParameters force atom_index new_charge sigma epsilon
  | GBSAOBCForce _ =>
      (* the debug print reads [radius] and [scaleFactor] before line 573 binds them *)
      if debug_arg then raise UnboundLocalError else
      let* '(charge, radius, scaleFactor) := getParticleParameters force atom_index in
      let* new_charge := lift_result (py_getitem charges charge_index) in
      setParticleParameters force atom_index new_charge radius scaleFactor
  | OtherForce classname _ => raise (UnsupportedForceError classname)
  end.

Definition update_exception (force : nat) (exception_index : Z) : M World unit :=
  let* '(particle1, particle2, chargeProd, sigma, epsilon) :=
    getExceptionParameters force exception_index in
  let* '(charge1, sigma1, epsilon1) := getParticleParameters force particle1 in
  let* '(charge2, sigma2, epsilon2) := getParticleParameters force particle2 in
  let* scale := gets coulomb14scale in
  let* scale := match scale with Some c => ret c | None => raise TypeError end in
  let chargeProd := fmul (fmul scale charge1) charge2 in
  let chargeProd := floor_nonzero chargeProd in
  let epsilon := floor_nonzero epsilon in
  setExceptionParameters force exception_index particle1 particle2
    chargeProd sigma epsilon.

Definition update_force_parameters (force : nat) (titration_group : TitrationGroup num)
    (titration_state : TitrationState num) (use_context debug_arg : bool)
    : M World unit :=
  let* f := lookup_force force in
  let charges := charges titration_state in
  let atom_indices := atom_indices titration_group in
  (* Update charges. *)
  forM_ (enumerate atom_indices) (fun '(charge_index, atom_index) =>
    update_particle_charge force f charges debug_arg charge_index atom_index) ;;
  (* Update exceptions. *)
  match f with
  | NonbondedForce _ _ =>
      forM_ (exception_indices titration_group) (update_exception force)
  | _ => ret tt
  end ;;
  (* Update parameters in Context, if specified. *)
  if use_context && has_updateParametersInContext f
  then force_updateParametersInContext force
  else ret tt.

(** [self.titrationStates[titration_group_index] = titration_state_index]
    (line 600). *)
Definition store_state (titration_group_index titration_state_index : Z) : M World unit :=
  let* states := gets titrationStates in
  let* states' := lift_result
                    (py_setitem states titration_group_index (Some titration_state_index)) in
  modify (set_titrationStates states').

(** The loop of lines 558-597. *)
Definition update_forces (titration_group : TitrationGroup num)
    (titration_state : TitrationState num) (use_context debug_arg : bool)
    : M World unit :=
  let* forces := gets forces_to_update in
  forM_ forces (fun force =>
    update_force_parameters force titration_group titration_state use_context debug_arg).

Definition setTitrationState (titration_group_index titration_state_index : Z)
    (use_context debug_arg : bool) : M World unit :=
  let* ngroups := getNumTitratableGroups in
  if negb (in_range titration_group_index ngroups) then raise InvalidGroupError else
  let* nstates := getNumTitrationStates titration_group_index in
  if negb (in_range titration_state_index nstates) then raise InvalidStateError else
  let* groups := gets titrationGroups in
  let* titration_group := lift_result (py_getitem groups titration_group_index) in
  let* titration_state :=
    lift_result (py_getitem (titration_states titration_group) titration_state_index) in
  (* Modify charges and exceptions. *)
  update_forces titration_group titration_state use_context debug_arg ;;
  (* Update titration state records. *)
  store_state titration_group_index titration_state_index.

(** *** _compute_log_probability (lines 683-709) *)

(** The term added for one group in its active state (line 706). *)
Definition reference_term (beta pH_value : num) (titration_state : TitrationState num) : num :=
  fadd (fmul (fmul (of_int (- proton_count titration_state))
                   (fsub pH_value (pKref titration_state))) ln10)
       (fmul beta (relative_energy titration_state)).

Definition _compute_log_probability : M World num :=
  let* temperature := gets temperature in
  let kT := fmul kB temperature in
  let* beta := lift_result (py_truediv (of_int 1) kT) in
  let* potential := gets (fun w => getPotentialEnergy (context w)) in
  let* kinetic := gets (fun w => getKineticEnergy (context w)) in
  let total_energy := fadd potential kinetic in
  let log_P := fmul (fneg beta) total_energy in
  let* groups := gets titrationGroups in
  let* states := gets titrationStates in
  foldM (combine groups states) log_P (fun log_P '(titration_group, titration_state_index) =>
    let* titration_state :=
      match titration_state_index with
      | Some i => lift_result (py_getitem (titration_states titration_group) i)
      | None => raise TypeError
      end in
    let* pH_value := gets pH in
    print (LogProbabilityLine (proton_count titration_state) pH_value
             (pKref titration_state)
             (fmul (fneg beta) total_energy)
             (fmul (fmul (of_int (- proton_count titration_state))
                         (fsub pH_value (pKref titration_state))) ln10)
             (fmul beta (relative_energy titration_state))) ;;
    ret (fadd log_P (reference_term beta pH_value titration_state))).

(** *** update (lines 604-670)

    One pass of the loop body is [update_attempt]: [propose_trial] is lines
    620-657 and yields the local variables used afterwards, [propose_states]
    is its loop over the chosen groups,
    [metropolis_accepts] is the test of line 660 and
    [restore_titration_states] lines 666-667. *)
(** Lines 639-642: a state drawn uniformly for each chosen group. *)
Definition propose_states (titration_group_indices : list Z) : M World unit :=
  forM_ titration_group_indices (fun titration_group_index =>
    let* nstates := getNumTitrationStates titration_group_index in
    let* titration_state_index := py_choice nstates in
    setTitrationState titration_group_index titration_state_index true false).

Definition propose_trial : M World (list Z * list (option Z) * num) :=
  (* Choose how many titratable groups to simultaneously attempt to update. *)
  let* ngroups := getNumTitratableGroups in
  let* ndraw :=
    (if 1 <? ngroups then
       let* r := py_random in
       let* p := gets simultaneous_proposal_probability in
       ret (if fltb r p then 2 else 1)
     else ret 1) in
  (* Choose groups to update. *)
  let* titration_group_indices := py_sample ngroups ndraw in
  (* Compute initial probability of this protonation state. *)
  let* log_P_initial := _compute_log_probability in
  let* dbg := gets debug in
  (if (dbg : bool) then
     let* initial_potential := gets (fun w => getPotentialEnergy (context w)) in
     let* states := getTitrationStates in
     print (DebugInitialLine states initial_potential)
   else ret tt) ;;
  (* Perform update attempt. *)
  let* initial_titration_states := gets titrationStates in
  propose_states titration_group_indices ;;
  let* final_titration_states := gets titrationStates in
  (* Compute final probability of this protonation state. *)
  let* log_P_final := _compute_log_probability in
  (* Compute work and store work history. *)
  let work := fneg (fsub log_P_final log_P_initial) in
  modify (fun w => set_work_history
                     (work_history w
                      ++ [(initial_titration_states, final_titration_states, work)]) w) ;;
  let log_P_accept := fneg work in
  (if (dbg : bool) then
     print (DebugProposalLine log_P_initial log_P_final work) ;;
     print BlankLine
   else ret tt) ;;
  ret (titration_group_indices, initial_titration_states, log_P_accept).

(** [(log_P_accept > 0.0) or (random.random() < math.exp(log_P_accept))] *)
Definition metropolis_accepts (log_P_accept : num) : M World bool :=
  if fltb (of_int 0) log_P_accept then ret true
  else let* r := py_random in ret (fltb r (fexp log_P_accept)).

(** A state that is [None] is not an integer: the validity check of
    [setTitrationState] fails on it and formatting its message with [%d]
    raises [TypeError]. *)
Definition restore_titration_states (titration_group_indices : list Z)
    (initial_titration_states : list (option Z)) : M World unit :=
  forM_ titration_group_indices (fun titration_group_index =>
    let* state := lift_result (py_getitem initial_titration_states titration_group_index) in
    match state with
    | Some titration_state_index =>
        setTitrationState titration_group_index titration_state_index true false
    | None => raise TypeError
    end).

Definition update_attempt : M World unit :=
  let* '(titration_group_indices, initial_titration_states, log_P_accept) :=
    propose_trial in
  modify (fun w => set_nattempted (nattempted w + 1) w) ;;
  let* accept := metropolis_accepts log_P_accept in
  if (accept : bool) then
    (* Accept. *)
    modify (fun w => set_naccepted (naccepted w + 1) w)
  else
    (* Reject: restore titration states. *)
    restore_titration_states titration_group_indices initial_titration_states.

Definition update : M World unit :=
  let* nattempts := gets nattempts_per_update in
  repeatM (Z.to_nat nattempts) update_attempt.

(** *** getAcceptanceProbability (lines 672-681) *)
Definition getAcceptanceProbability : M World num :=
  let* accepted := gets naccepted in
  let* attempted := gets nattempted in
  lift_result (py_truediv (of_int accepted) (of_int attempted)).

(** *** getNumAttemptsPerUpdate, setNumAttemptsPerUpdate (lines 711-734) *)
Definition getNumAttemptsPerUpdate : M World Z := gets nattempts_per_update.

Definition setNumAttemptsPerUpdate (nattempts : option Z) : M World unit :=
  match nattempts with
  | Some n => modify (set_nattempts_per_update n)
  | None =>
      let* ngroups := getNumTitratableGroups in
      modify (set_nattempts_per_update ngroups)
  end.

Context `{FA : FloatAbs num}.

(** *** get14scaling (lines 207-232) *)
Definition get14scaling (system : PyValue) : M World (option num) :=
  match system with
  | PySystem =>
      let* force := nonbonded_force_of_system in
      let* nexceptions := getNumExceptions force in
      first_returned (py_range nexceptions) (fun index =>
        let* '(particle1, particle2, chargeProd, sigma, epsilon) :=
          getExceptionParameters force index in
        let* '(charge1, sigma1, epsilon1) := getParticleParameters force particle1 in
        let* '(charge2, sigma2, epsilon2) := getParticleParameters force particle2 in
        if fltb (of_int 0) (fabs charge1) && fltb (of_int 0) (fabs charge2) then
          let* coulomb14scale :=
            lift_result (py_truediv chargeProd (fmul charge1 charge2)) in
          ret (Some coulomb14scale)
        else ret None)
  | _ => raise AttributeError
  end.

Context `{EU : EnergyUnits num}.

(** *** __init__ (lines 100-205)

    The new object is the driver part of the world; whatever the fields
    hold before is never read.  The System passed is the one of the world.
    [cpin] is [None] for an empty [cpin_filename] and otherwise the
    namelist that [_parse_fortran_namelist] returns for the file.  The
    attributes [cpin_filename] and [ngroups], which no method reads, are
    not kept. *)

Definition set_coulomb14scale (v : option num) (w : World) : World :=
  {| simultaneous_proposal_probability := simultaneous_proposal_probability w;
     temperature := temperature w; pH := pH w; debug := debug w;
     titrationGroups := titrationGroups w;
     titrationStates := titrationStates w; coulomb14scale := v;
     atomExceptions := atomExceptions w; forces_to_update := forces_to_update w;
     nattempts_per_update := nattempts_per_update w; nattempted := nattempted w;
     naccepted := naccepted w; work_history := work_history w;
     system_forces := system_forces w; run_as_script := run_as_script w;
     context := context w; random_state := random_state w; stdout := stdout w |}.

Definition set_atomExceptions (v : list (list Z)) (w : World) : World :=
  {| simultaneous_proposal_probability := simultaneous_proposal_probability w;
     temperature := temperature w; pH := pH w; debug := debug w;
     titrationGroups := titrationGroups w;
     titrationStates := titrationStates w; coulomb14scale := coulomb14scale w;
     atomExceptions := v; forces_to_update := forces_to_update w;
     nattempts_per_update := nattempts_per_update w; nattempted := nattempted w;
     naccepted := naccepted w; work_history := work_history w;
     system_forces := system_forces w; run_as_script := run_as_script w;
     context := context w; random_state := random_state w; stdout := stdout w |}.

Definition set_forces_to_update (v : list nat) (w : World) : World :=
  {| simultaneous_proposal_probability := simultaneous_proposal_probability w;
     temperature := temperature w; pH := pH w; debug := debug w;
     titrationGroups := titrationGroups w;
     titrationStates := titrationStates w; coulomb14scale := coulomb14scale w;
     atomExceptions := atomExceptions w; forces_to_update := v;
     nattempts_per_update := nattempts_per_update w; nattempted := nattempted w;
     naccepted := naccepted w; work_history := work_history w;
     system_forces := system_forces w; run_as_script := run_as_script w;
     context := context w; random_state := random_state w; stdout := stdout w |}.

(** Lines 127-138. *)
Definition store_parameters (temperature_arg pH_arg simultaneous_proposal_probability_arg : num)
    (debug_arg : bool) (w : World) : World :=
  {| simultaneous_proposal_probability := simultaneous_proposal_probability_arg;
     temperature := temperature_arg; pH := pH_arg; debug := debug_arg;
     titrationGroups := [];
     titrationStates := []; coulomb14scale := coulomb14scale w;
     atomExceptions := atomExceptions w; forces_to_update := forces_to_update w;
     nattempts_per_update := nattempts_per_update w; nattempted := nattempted w;
     naccepted := naccepted w; work_history := work_history w;
     system_forces := system_forces w; run_as_script := run_as_script w;
     context := context w; random_state := random_state w; stdout := stdout w |}.

(** [self.atomExceptions[atom1].append(atom2)] *)
Definition append_atomException (atom1 atom2 : Z) : M World unit :=
  let* table := gets atomExceptions in
  let* of_atom1 := lift_result (py_getitem table atom1) in
  let* table' := lift_result (py_setitem table atom1 (of_atom1 ++ [atom2])) in
  modify (set_atomExceptions table').

(** Lines 152-157: the forces of the two classes the driver updates, in
    the order of the System. *)
Fixpoint updatable_forces (fs : list (Force num)) (position : nat) : list nat :=
  match fs with
  | [] => []
  | NonbondedForce _ _ :: fs' => position :: updatable_forces fs' (S position)
  | GBSAOBCForce _ :: fs' => position :: updatable_forces fs' (S position)
  | OtherForce _ _ :: fs' => updatable_forces fs' (S position)
  end.

(** ['STATEINF(%d)%%FIELD' % group_index] *)
Definition stateinf_key (group_index : Z) (field : string) : string :=
  String.append "STATEINF("
    (String.append (format_int group_index) (String.append ")%" field)).

(** Lines 184-195: one titration state of the group. *)
Definition load_state (namelist : Namelist num)
    (group_index first_charge first_state num_atoms titration_state : Z) : M World unit :=
  (* Extract charges for this titration state. *)
  let* chrgdat := lift_result (subscriptable "CHRGDAT" (CHRGDAT namelist)) in
  let charges :=
    py_slice chrgdat (first_charge + num_atoms * titration_state)
      (first_charge + num_atoms * (titration_state + 1)) in
  (* Extract relative energy for this titration state. *)
  let* statene := lift_result (subscriptable "STATENE" (STATENE namelist)) in
  let* energy := lift_result (py_getitem statene (first_state + titration_state)) in
  let relative_energy := fmul energy kilocalories_per_mole in
  let pKref := of_int 0 in
  (* Get proton count. *)
  let* protcnt := lift_result (subscriptable "PROTCNT" (PROTCNT namelist)) in
  let* proton_count := lift_result (py_getitem protcnt (first_state + titration_state)) in
  (* Create titration state. *)
  addTitrationState group_index pKref relative_energy charges proton_count.

(** Lines 171-198: one titratable group. *)
Definition load_group (namelist : Namelist num) (resstate : list Z) (group_index : Z)
    : M World unit :=
  (* Extract information about this titration group. *)
  let* first_atom :=
    lift_result (dict_getitem (STATEINF namelist) (stateinf_key group_index "FIRST_ATOM")) in
  let first_atom := first_atom - 1 in
  let* first_charge :=
    lift_result (dict_getitem (STATEINF namelist) (stateinf_key group_index "FIRST_CHARGE")) in
  let* first_state :=
    lift_result (dict_getitem (STATEINF namelist) (stateinf_key group_index "FIRST_STATE")) in
  let* num_atoms :=
    lift_result (dict_getitem (STATEINF namelist) (stateinf_key group_index "NUM_ATOMS")) in
  let* num_states :=
    lift_result (dict_getitem (STATEINF namelist) (stateinf_key group_index "NUM_STATES")) in
  (* Define titratable group. *)
  let atom_indices := py_range2 first_atom (first_atom + num_atoms) in
  addTitratableGroup atom_indices ;;
  (* Define titration states. *)
  forM_ (py_range num_states)
    (load_state namelist group_index first_charge first_state num_atoms) ;;
  (* Set default state for this group. *)
  let* state := lift_result (py_getitem resstate group_index) in
  setTitrationState group_index state false false.

(** Lines 160-198. *)
Definition load_cpin (namelist : Namelist num) : M World unit :=
  (* Make sure RESSTATE is a list. *)
  let* resstate :=
    lift_result match RESSTATE namelist with
                | None => Raise (KeyError "RESSTATE")
                | Some (Single state) => Ok [state]
                | Some (Several states) => Ok states
                end in
  (* Extract number of titratable groups. *)
  let ngroups := Z.of_nat (length resstate) in
  (* Define titratable groups and titration states. *)
  forM_ (py_range ngroups) (load_group namelist resstate).

Definition __init__ (temperature_arg pH_arg : num) (prmtop : Prmtop)
    (cpin : option (Namelist num)) (nattempts_per_update_arg : option Z)
    (simultaneous_proposal_probability_arg : num) (debug_arg : bool) : M World unit :=
  modify (store_parameters temperature_arg pH_arg simultaneous_proposal_probability_arg
            debug_arg) ;;
  (* Determine 14 Coulomb and Lennard-Jones scaling from system. *)
  let* scale := get14scaling PySystem in
  modify (set_coulomb14scale scale) ;;
  (* Store list of exceptions that may need to be modified. *)
  modify (set_atomExceptions (replicate (Z.to_nat (getNumAtoms prmtop)) [])) ;;
  forM_ (get14Interactions prmtop) (fun '(atom1, atom2) =>
    append_atomException atom1 atom2 ;;
    append_atomException atom2 atom1) ;;
  (* Store force object pointers. *)
  let* forces := gets system_forces in
  modify (set_forces_to_update (updatable_forces forces 0)) ;;
  match cpin with
  | Some namelist => load_cpin namelist
  | None => ret tt
  end ;;
  setNumAttemptsPerUpdate nattempts_per_update_arg ;;
  (* Reset statistics. *)
  resetStatistics.
End Engine.

Arguments World : clear implicits.

(** ** Interpretations of the floats *)

Module Binary64.
(** [float(n)] by binary expansion (exact below 2^53). *)
Fixpoint float_of_pos (p : positive) : float :=
  match p with
  | xH => 1%float
  | xO p => (2 * float_of_pos p)%float
  | xI p => (2 * float_of_pos p + 1)%float
  end.

Definition float_of_Z (z : Z) : float :=
  match z with
  | Z0 => 0%float
  | Zpos p => float_of_pos p
  | Zneg p => (- float_of_pos p)%float
  end.

(** [math.exp] is the C library's; here a series for [exp (x / 1024)]
    followed by ten squarings stands for it. *)
Definition float_exp (x : float) : float :=
  let y := (x / 1024)%float in
  let series :=
    fold_right (fun k acc => (1 + y / k * acc)%float) 1%float
      (map float_of_Z [1; 2; 3; 4; 5; 6; 7; 8; 9; 10; 11; 12]) in
  Nat.iter 10 (fun s => (s * s)%float) series.

(** Energies are in kJ/mol, so [kB] is the molar gas constant in
    kJ/(mol K). *)
#[export] Instance binary64_floats : FloatOps float := {|
  fadd := PrimFloat.add;
  fsub := PrimFloat.sub;
  fmul := PrimFloat.mul;
  fdiv := PrimFloat.div;
  fneg := PrimFloat.opp;
  fexp := float_exp;
  fltb := PrimFloat.ltb;
  feqb := PrimFloat.eqb;
  of_int := float_of_Z;
  ln10 := 0x1.26bb1bbb55516p+1%float;
  float_epsilon := 0x1p-52%float;
  kB := 0x1.10732a4421422p-7%float   (* 0.00831451 *)
|}.

#[export] Instance binary64_abs : FloatAbs float := PrimFloat.abs.

(** 4.184 kJ/mol *)
#[export] Instance binary64_units : EnergyUnits float := 0x1.0bc6a7ef9db23p+2%float.
End Binary64.

Module RealNumbers.
Definition Rltb (a b : R) : bool := if Rlt_dec a b then true else false.
Definition Reqb (a b : R) : bool := if Req_dec_T a b then true else false.

#[export] Instance real_floats : FloatOps R := {|
  fadd := Rplus;
  fsub := Rminus;
  fmul := Rmult;
  fdiv := Rdiv;
  fneg := Ropp;
  fexp := exp;
  fltb := Rltb;
  feqb := Reqb;
  of_int := IZR;
  ln10 := ln 10;
  float_epsilon := (/ 2 ^ 52)%R;
  kB := (831451 / 100000000)%R
|}.

#[export] Instance real_abs : FloatAbs R := Rabs.

#[export] Instance real_units : EnergyUnits R := (4184 / 1000)%R.
End RealNumbers.

(** ** Example collaborators

    A scripted generator: [random()] and the integer draws are read off two
    tapes.  A Context whose potential energy is 1000 kJ/mol per unit of total
    charge of the NonbondedForce uploaded last, with no kinetic energy. *)

Module Examples.
Record Script (num : Type) : Type := {
  floats : list num;
  integers : list Z
}.
Arguments floats {num} s.
Arguments integers {num} s.

#[export] Instance scripted_random {num} `{FloatOps num} : RandomSource num (Script num) := {|
  random_random := fun s =>
    match floats s with
    | x :: xs => (x, {| floats := xs; integers := integers s |})
    | [] => (of_int 0, s)
    end;
  random_sample := fun n k s =>
    (take k (integers s), {| floats := floats s; integers := drop k (integers s) |});
  random_choice := fun n s =>
    match integers s with
    | i :: rest => (i, {| floats := floats s; integers := rest |})
    | [] => (0, s)
    end
|}.

Definition total_charge {num} `{FloatOps num} (particles : list (num * num * num)) : num :=
  fold_left (fun acc p => fadd acc (fst (fst p))) particles (of_int 0).

#[export] Instance charge_oracle {num} `{FloatOps num} : EnergyOracle num num := {|
  getPotentialEnergy := fun c => c;
  getKineticEnergy := fun _ => of_int 0;
  updateParametersInContext := fun _ f c =>
    match f with
    | NonbondedForce particles _ => fmul (of_int 1000) (total_charge particles)
    | _ => c
    end
|}.

Section Worlds.
Context {num : Type} `{FloatOps num}.

(** A group of one atom with a deprotonated state (charge 0, no proton)
    and a protonated state (charge 1, one proton). *)
Definition deprotonated : TitrationState num :=
  {| pKref := of_int 0; relative_energy := of_int 0;
     charges := [of_int 0]; proton_count := 0 |}.

Definition protonated : TitrationState num :=
  {| pKref := of_int 0; relative_energy := of_int 0;
     charges := [of_int 1]; proton_count := 1 |}.

Definition site : TitrationGroup num :=
  {| atom_indices := [0]; titration_states := [deprotonated; protonated];
     index := 1; nstates := 2; exception_indices := [] |}.

(** One titratable site in its deprotonated state, three particles, a
    NonbondedForce and a GBSAOBCForce, run from the script; [forces] and
    [refs] are the System's forces and [self.forces_to_update]. *)
Definition one_site (forces : list (Force num)) (refs : list nat)
    (attempted accepted : Z) (tape : Script num) : World num num (Script num) :=
  {| simultaneous_proposal_probability := fdiv (of_int 1) (of_int 10);
     temperature := of_int 300;
     pH := of_int 7;
     debug := false;
     titrationGroups := [site];
     titrationStates := [Some 0];
     coulomb14scale := Some (fdiv (of_int 5) (of_int 6));
     atomExceptions := [[]; []; []];
     forces_to_update := refs;
     nattempts_per_update := 1;
     nattempted := attempted;
     naccepted := accepted;
     work_history := [];
     system_forces := forces;
     run_as_script := true;
     context := of_int 0;
     random_state := tape;
     stdout := [] |}.

Definition neutral_particle : num * num * num := (of_int 0, of_int 1, of_int 1).

Definition nonbonded : Force num :=
  NonbondedForce [neutral_particle; neutral_particle; neutral_particle] [].

Definition gbsa : Force num :=
  GBSAOBCForce [neutral_particle; neutral_particle; neutral_particle].

(** The sample draws group 0 and the choice state 1; the Metropolis draw
    is 1/2. *)
Definition uphill_tape : Script num :=
  {| floats := [fdiv (of_int 1) (of_int 2)]; integers := [0; 1] |}.

Definition uphill_world : World num num (Script num) :=
  one_site [nonbonded; gbsa] [0%nat; 1%nat] 5 3 uphill_tape.

Definition no_tape : Script num := {| floats := []; integers := [] |}.

(** [forces_to_update] with a force of a class the driver does not know. *)
Definition custom_force_world : World num num (Script num) :=
  one_site [nonbonded; gbsa; OtherForce "CustomGBForce" true]
    [0%nat; 1%nat; 2%nat] 0 0 no_tape.

(** A driver without groups yet. *)
Definition empty_world : World num num (Script num) :=
  {| simultaneous_proposal_probability := fdiv (of_int 1) (of_int 10);
     temperature := of_int 300;
     pH := of_int 7;
     debug := false;
     titrationGroups := [];
     titrationStates := [];
     coulomb14scale := Some (fdiv (of_int 5) (of_int 6));
     atomExceptions := [[]; []; []];
     forces_to_update := [0%nat; 1%nat];
     nattempts_per_update := 0;
     nattempted := 0;
     naccepted := 0;
     work_history := [];
     system_forces := [nonbonded; gbsa];
     run_as_script := true;
     context := of_int 0;
     random_state := no_tape;
     stdout := [] |}.
End Worlds.
End Examples.

(** More worlds, for the properties of the methods beyond the claims. *)

Module Cases.
Import Examples.
Section Worlds.
Context {num : Type} `{FloatOps num}.

Definition charged_particle : num * num * num := (of_int 1, of_int 1, of_int 1).

(** The site protonated, the forces and the Context in step with it; the
    sample draws group 0 and the choice state 0. *)
Definition downhill_world : World num num (Script num) :=
  set_context (of_int 1000)
    (set_titrationStates [Some 1]
       (one_site [NonbondedForce [charged_particle; neutral_particle; neutral_particle] [];
                  GBSAOBCForce [charged_particle; neutral_particle; neutral_particle]]
          [0%nat; 1%nat] 5 3 {| floats := []; integers := [0; 0] |})).

(** Two sites at pH 7 in a Context of potential energy 3: the first one
    in its second state (one proton, reference pKa 4, relative energy 10),
    the other in its first state (two protons, reference pKa 9, relative
    energy -5). *)
Definition acid_site : TitrationGroup num :=
  {| atom_indices := [0];
     titration_states :=
       [deprotonated;
        {| pKref := of_int 4; relative_energy := of_int 10;
           charges := [of_int 1]; proton_count := 1 |}];
     index := 1; nstates := 2; exception_indices := [] |}.

Definition base_site : TitrationGroup num :=
  {| atom_indices := [1; 2];
     titration_states :=
       [{| pKref := of_int 9; relative_energy := of_int (-5);
           charges := [of_int 1; of_int 1]; proton_count := 2 |}];
     index := 2; nstates := 1; exception_indices := [] |}.

Definition two_site_world : World num num (Script num) :=
  set_context (of_int 3)
    (set_titrationStates [Some 1; Some 0]
       (set_titrationGroups [acid_site; base_site] uphill_world)).

(** [uphill_world] with a second group that has no state yet. *)
Definition stateless_world : World num num (Script num) :=
  snd (addTitratableGroup [1; 2] uphill_world).

(** A driver without groups in a module that was imported, not run. *)
Definition imported_world : World num num (Script num) :=
  {| simultaneous_proposal_probability := fdiv (of_int 1) (of_int 10);
     temperature := of_int 300;
     pH := of_int 7;
     debug := false;
     titrationGroups := [];
     titrationStates := [];
     coulomb14scale := Some (fdiv (of_int 5) (of_int 6));
     atomExceptions := [[]; []; []];
     forces_to_update := [0%nat; 1%nat];
     nattempts_per_update := 0;
     nattempted := 0;
     naccepted := 0;
     work_history := [];
     system_forces := [nonbonded; gbsa];
     run_as_script := false;
     context := of_int 0;
     random_state := no_tape;
     stdout := [] |}.

(** The site with a 1-4 exception between its atom and particle 1, which
    carries a unit charge; charge product and epsilon of the exception are
    zero. *)
Definition paired_site : TitrationGroup num :=
  {| atom_indices := [0]; titration_states := [deprotonated; protonated];
     index := 1; nstates := 2; exception_indices := [0] |}.

Definition paired_nonbonded : Force num :=
  NonbondedForce [neutral_particle; charged_particle; neutral_particle]
    [(0, 1, of_int 0, of_int 1, of_int 0)].

Definition paired_world : World num num (Script num) :=
  set_system_forces [paired_nonbonded; gbsa] (set_titrationGroups [paired_site] uphill_world).

(** Two charged particles and a neutral one; the prmtop file lists
    particles 0 and 1 as a 1-4 pair, and the force has an exception for
    that pair, scaled by 5/6, and one for particles 1 and 2. *)
Definition listed_nonbonded : Force num :=
  NonbondedForce [charged_particle; charged_particle; neutral_particle]
    [(0, 1, fdiv (of_int 5) (of_int 6), of_int 1, of_int 0);
     (1, 2, of_int 0, of_int 1, of_int 1)].

Definition listed_world : World num num (Script num) :=
  {| simultaneous_proposal_probability := fdiv (of_int 1) (of_int 10);
     temperature := of_int 300;
     pH := of_int 7;
     debug := false;
     titrationGroups := [];
     titrationStates := [];
     coulomb14scale := Some (fdiv (of_int 5) (of_int 6));
     atomExceptions := [[1]; [0]; []];
     forces_to_update := [0%nat; 1%nat];
     nattempts_per_update := 0;
     nattempted := 0;
     naccepted := 0;
     work_history := [];
     system_forces := [listed_nonbonded; gbsa];
     run_as_script := true;
     context := of_int 0;
     random_state := no_tape;
     stdout := [] |}.

(** A prmtop file with three atoms that lists atoms 0 and 1 as a 1-4 pair,
    and a cpin file with one group of the atoms 0 and 1 (FIRST_ATOM counts
    from one) that has two states, the second one active. *)
Definition cpin_prmtop : Prmtop := {| getNumAtoms := 3; get14Interactions := [(0, 1)] |}.

Definition cpin_namelist : Namelist num :=
  {| RESSTATE := Some (Single 1);
     STATEINF := [("STATEINF(0)%FIRST_ATOM", 1); ("STATEINF(0)%FIRST_CHARGE", 0);
                  ("STATEINF(0)%FIRST_STATE", 0); ("STATEINF(0)%NUM_ATOMS", 2);
                  ("STATEINF(0)%NUM_STATES", 2)]%string;
     CHRGDAT := Some (Several [of_int 1; of_int 0; of_int 0; of_int 1]);
     STATENE := Some (Several [of_int 0; of_int 2]);
     PROTCNT := Some (Several [0; 1]) |}.
End Worlds.

Section Constructed.
Context {num : Type} `{FloatOps num} `{FloatAbs num} `{EnergyUnits num}.

(** The driver the constructor builds on [listed_world] from these files. *)
Definition constructed_world : World num num (Script num) :=
  snd (__init__ (of_int 300) (of_int 7) cpin_prmtop (Some cpin_namelist) None
         (fdiv (of_int 1) (of_int 2)) false listed_world).
End Constructed.
End Cases.

(** ** Invariants and specification-side definitions *)

Section Specification.
Context {num ctx rng : Type}.
Context `{FO : FloatOps num} `{EO : EnergyOracle num ctx} `{RS : RandomSource num rng}.
Local Abbreviation World := (World num ctx rng).

(** A group and its entry of [self.titrationStates] as the setup calls
    leave them: the state counter equals the number of states, every state
    has one charge per atom, and the active state is [None] for a group
    without states and a valid index otherwise. *)
Definition group_ok (group : TitrationGroup num) (active : option Z) : bool :=
  (nstates group =? Z.of_nat (length (titration_states group)))
  && forallb (fun state => Nat.eqb (length (charges state)) (length (atom_indices group)))
             (titration_states group)
  && match active with
     | None => Nat.eqb (length (titration_states group)) 0
     | Some s => in_range s (Z.of_nat (length (titration_states group)))
     end.

Definition well_formed (w : World) : bool :=
  Nat.eqb (length (titrationStates w)) (length (titrationGroups w))
  && forallb (fun '(group, active) => group_ok group active)
             (combine (titrationGroups w) (titrationStates w)).

(** [0 <= naccepted <= nattempted] *)
Definition counts_ok (w : World) : Prop := 0 <= naccepted w <= nattempted w.

(** The atoms of the new group overlap those of an existing group. *)
Definition overlaps (atoms : list Z) (w : World) : Prop :=
  exists a group, In group (titrationGroups w) /\ In a atoms /\ In a (atom_indices group).

(** The active state of a group, when its index is valid. *)
Definition active_state (group : TitrationGroup num) (active : option Z)
    : option (TitrationState num) :=
  match active with
  | Some s =>
      if in_range s (Z.of_nat (length (titration_states group)))
      then titration_states group !! Z.to_nat s
      else None
  | None => None
  end.

(** The active states of all groups, when every group has a valid one. *)
Fixpoint active_states_of (groups : list (TitrationGroup num)) (actives : list (option Z))
    : option (list (TitrationState num)) :=
  match groups, actives with
  | [], [] => Some []
  | group :: groups', active :: actives' =>
      match active_state group active, active_states_of groups' actives' with
      | Some state, Some states => Some (state :: states)
      | _, _ => None
      end
  | _, _ => None
  end.

Definition active_states (w : World) : option (list (TitrationState num)) :=
  active_states_of (titrationGroups w) (titrationStates w).

(** The term of the specification for a group in its active state,
    written from its words:
    [-proton_count * (pH - reference_pKa) * ln(10) + beta * relative_energy],
    the proton count being an integer. *)
Definition specified_term (beta pH_value : num) (active : TitrationState num) : num :=
  let minus_proton_count := of_int (- proton_count active) in
  let pH_part := fmul (fmul minus_proton_count (fsub pH_value (pKref active))) ln10 in
  let energy_part := fmul beta (relative_energy active) in
  fadd pH_part energy_part.

(** The formula of the specification: [-beta * total_energy] plus the sum
    over the groups of the term of the active state, with
    [beta = 1 / (kB * temperature)]. *)
Definition beta_of (w : World) : num := fdiv (of_int 1) (fmul kB (temperature w)).

Definition log_probability_formula (w : World) (actives : list (TitrationState num)) : num :=
  fadd (fmul (fneg (beta_of w))
             (fadd (getPotentialEnergy (context w)) (getKineticEnergy (context w))))
       (fold_right fadd (of_int 0) (map (specified_term (beta_of w) (pH w)) actives)).

(** The loop of lines 700-706 as a function of what it reads: its result
    and the lines it prints. *)
Fixpoint reference_loop (beta total_energy pH_value : num)
    (pairs : list (TitrationGroup num * option Z)) (log_P : num)
    : Result num * list (OutputLine num) :=
  match pairs with
  | [] => (Ok log_P, [])
  | (group, active) :: pairs' =>
      match match active with
            | Some i => py_getitem (titration_states group) i
            | None => Raise TypeError
            end with
      | Ok state =>
          let line :=
            LogProbabilityLine (proton_count state) pH_value (pKref state)
              (fmul (fneg beta) total_energy)
              (fmul (fmul (of_int (- proton_count state))
                          (fsub pH_value (pKref state))) ln10)
              (fmul beta (relative_energy state)) in
          let (r, lines) :=
            reference_loop beta total_energy pH_value pairs'
              (fadd log_P (reference_term beta pH_value state)) in
          (r, line :: lines)
      | Raise e => (Raise e, [])
      end
  end.

(** The result and the output of [_compute_log_probability] as a function
    of the world it starts in. *)
Definition log_probability_of (w : World) : Result num * list (OutputLine num) :=
  match py_truediv (of_int 1) (fmul kB (temperature w)) with
  | Ok beta =>
      let total_energy :=
        fadd (getPotentialEnergy (context w)) (getKineticEnergy (context w)) in
      reference_loop beta total_energy (pH w)
        (combine (titrationGroups w) (titrationStates w))
        (fmul (fneg beta) total_energy)
  | Raise e => (Raise e, [])
  end.

(** The parts of a Force that decide whether an update of its parameters
    goes through: its class, its numbers of particles and exceptions, and
    the particles of each exception. *)
Definition force_shape (f : Force num) : Force unit :=
  match f with
  | NonbondedForce particles exceptions =>
      NonbondedForce (map (fun _ => (tt, tt, tt)) particles)
                     (map (fun '(p1, p2, _, _, _) => (p1, p2, tt, tt, tt)) exceptions)
  | GBSAOBCForce particles => GBSAOBCForce (map (fun _ => (tt, tt, tt)) particles)
  | OtherForce classname has_update => OtherForce classname has_update
  end.

(** What a trial leaves fixed apart from the counters and the history. *)
Definition skeleton (w : World)
    : list (TitrationGroup num) * list nat * option num * list (Force unit) * nat :=
  (titrationGroups w, forces_to_update w, coulomb14scale w,
   map force_shape (system_forces w), length (titrationStates w)).

(** A projection of the world is kept by a computation when it has the
    same value before and after. *)
Definition kept {X} (f : World -> X) : World -> World -> Prop :=
  fun w w' => f w' = f w.

(** Projections that do not depend on the parameters of the forces (only on
    their shape), the Context, standard output and the generator. *)
Class Framed {X} (f : World -> X) : Prop := {
  framed_forces : forall v w,
    map force_shape v = map force_shape (system_forces w) ->
    f (set_system_forces v w) = f w;
  framed_context : forall v w, f (set_context v w) = f w;
  framed_stdout : forall v w, f (set_stdout v w) = f w;
  framed_random : forall v w, f (set_random_state v w) = f w
}.

(** Projections that depend on [self.titrationStates] through its length
    at most. *)
Class FramedStates {X} (f : World -> X) : Prop :=
  framed_states : forall v w,
    length v = length (titrationStates w) -> f (set_titrationStates v w) = f w.

(** Projections that do not depend on the work history. *)
Class FramedHistory {X} (f : World -> X) : Prop :=
  framed_history : forall v w, f (set_work_history v w) = f w.

(** Projections that do not depend on the two counters. *)
Class FramedCounters {X} (f : World -> X) : Prop := {
  framed_attempted : forall v w, f (set_nattempted v w) = f w;
  framed_accepted : forall v w, f (set_naccepted v w) = f w
}.

(** The two counters. *)
Definition counters (w : World) : Z * Z := (nattempted w, naccepted w).

(** What one trial does to the counters: nothing when it raises before
    line 659, else one more attempt and at most one more acceptance. *)
Definition trial_counts (w w' : World) : Prop :=
  counters w' = counters w
  \/ counters w' = (nattempted w + 1, naccepted w)
  \/ counters w' = (nattempted w + 1, naccepted w + 1).

(** The state counter of a group agrees with its list of states. *)
Definition counter_ok (group : TitrationGroup num) : Prop :=
  nstates group = Z.of_nat (length (titration_states group)).

(** The group after [addTitrationState] has appended a state to it. *)
Definition with_state (group : TitrationGroup num) (state : TitrationState num)
    : TitrationGroup num :=
  {| atom_indices := atom_indices group;
     titration_states := titration_states group ++ [state];
     index := index group;
     nstates := nstates group + 1;
     exception_indices := exception_indices group |}.

(** Whenever [c] returns from a world, [c'] returns from every world with
    the same skeleton, with a related value, and the skeletons agree
    afterwards. *)
Definition alike {A B} (V : A -> B -> Prop) (c : M World A) (c' : M World B) : Prop :=
  forall w w', skeleton w = skeleton w' ->
  forall a w1, c w = (Ok a, w1) ->
  exists b w1', c' w' = (Ok b, w1') /\ V a b /\ skeleton w1 = skeleton w1'.

Definition any {A B} : A -> B -> Prop := fun _ _ => True.

Definition same_shape (f f' : Force num) : Prop := force_shape f = force_shape f'.

(** A group whose state can be set in some world with the skeleton of [w]. *)
Definition settable (w : World) (g : Z) : Prop :=
  exists (wa wb : World) s,
    skeleton wa = skeleton w /\ setTitrationState g s true false wa = (Ok tt, wb).

(** What the restoring loop needs of each chosen group. *)
Definition restorable (w : World) (initial : list (option Z)) (g : Z) : Prop :=
  exists group s state,
    0 <= g /\ titrationGroups w !! Z.to_nat g = Some group
    /\ initial !! Z.to_nat g = Some (Some s)
    /\ 0 <= s /\ titration_states group !! Z.to_nat s = Some state
    /\ (forall st st', In st (titration_states group) -> In st' (titration_states group) ->
          length (charges st) = length (charges st'))
    /\ settable w g.

(** The groups and the active states: what [well_formed] reads. *)
Definition ensemble (w : World) : list (TitrationGroup num) * list (option Z) :=
  (titrationGroups w, titrationStates w).

(** Well-formedness is not lost. *)
Definition keeps_well_formed (w w' : World) : Prop :=
  well_formed w = true -> well_formed w' = true.

(** [addTitrationState] called once per entry of a list of states. *)
Definition addTitrationStates (titration_group_index : Z) (states : list (TitrationState num))
    : M World unit :=
  forM_ states (fun state =>
    addTitrationState titration_group_index (pKref state) (relative_energy state)
      (charges state) (proton_count state)).
End Specification.

(** ** What the methods do to the driver and to the forces

    Relations between the world before and after a call, used to state what
    the setup calls, [setTitrationState] and [update] change and leave alone. *)

Section Observations.
Context {num ctx rng : Type}.
Context `{FO : FloatOps num} `{EO : EnergyOracle num ctx} `{RS : RandomSource num rng}.
Local Abbreviation World := (World num ctx rng).

(** What the constructor and the setup calls fix and a trial never touches:
    the groups with their states, the conditions of the simulation, the
    forces to update and the shape of every force. *)
Definition configuration (w : World) :=
  (skeleton w, temperature w, pH w, simultaneous_proposal_probability w, debug w,
   atomExceptions w, nattempts_per_update w, run_as_script w).

(** The work history only grows. *)
Definition history_grows (w w' : World) : Prop :=
  exists entries, work_history w' = work_history w ++ entries.

(** The world differs from [w] in the generator state and in what was
    printed at most. *)
Definition only_drew_and_printed (w w' : World) : Prop :=
  exists r out, w' = set_stdout out (set_random_state r w).

(** The per-particle parameters of a force the driver knows how to update. *)
Definition particles_of (f : Force num) : option (list (num * num * num)) :=
  match f with
  | NonbondedForce particles _ => Some particles
  | GBSAOBCForce particles => Some particles
  | OtherForce _ _ => None
  end.

(** The particles [ps'] are the particles [ps] with the charge of each
    atom of [pairs] (charge index, atom index) replaced by the charge at its
    charge index; second and third parameter and all other particles are
    those of [ps]. *)
Definition charges_pushed (pairs : list (Z * Z)) (charges : list num)
    (ps ps' : list (num * num * num)) : Prop :=
  length ps' = length ps
  /\ (forall i, ~ In (Z.of_nat i) (map snd pairs) -> ps' !! i = ps !! i)
  /\ (forall k atom, In (k, atom) pairs ->
        exists c q sg ep,
          py_getitem charges k = Ok c /\ 0 <= atom
          /\ ps !! Z.to_nat atom = Some (q, sg, ep)
          /\ ps' !! Z.to_nat atom = Some (c, sg, ep)).

(** The exceptions [es'] are the exceptions [es] with the charge product of
    each exception of [indices] recomputed from the charges in [ps] and the
    scaling factor, and both it and epsilon kept away from zero. *)
Definition exceptions_pushed (scale : option num) (indices : list Z)
    (ps : list (num * num * num)) (es es' : list (Z * Z * num * num * num)) : Prop :=
  length es' = length es
  /\ (forall i, ~ In (Z.of_nat i) indices -> es' !! i = es !! i)
  /\ (forall e, In e indices ->
        exists c p1 p2 cp sg ep q1 s1 e1 q2 s2 e2,
          scale = Some c /\ 0 <= e
          /\ es !! Z.to_nat e = Some (p1, p2, cp, sg, ep)
          /\ omm_get ps p1 = Ok (q1, s1, e1)
          /\ omm_get ps p2 = Ok (q2, s2, e2)
          /\ es' !! Z.to_nat e
             = Some (p1, p2, floor_nonzero (fmul (fmul c q1) q2), sg, floor_nonzero ep)).

(** What the body of the loop over [self.forces_to_update] does to one
    force. *)
Definition force_pushed (pairs : list (Z * Z)) (charges : list num) (scale : option num)
    (indices : list Z) (f f' : Force num) : Prop :=
  match f, f' with
  | NonbondedForce ps es, NonbondedForce ps' es' =>
      charges_pushed pairs charges ps ps' /\ exceptions_pushed scale indices ps' es es'
  | GBSAOBCForce ps, GBSAOBCForce ps' => charges_pushed pairs charges ps ps'
  | OtherForce _ _, _ => pairs = [] /\ f' = f
  | _, _ => False
  end.

(** A force with its particles replaced. *)
Definition with_particles (f : Force num) (ps : list (num * num * num)) : Force num :=
  match f with
  | NonbondedForce _ es => NonbondedForce ps es
  | GBSAOBCForce _ => GBSAOBCForce ps
  | OtherForce classname has_update => OtherForce classname has_update
  end.

(** What the whole loop does to the forces of the System. *)
Definition forces_pushed (pairs : list (Z * Z)) (charges : list num) (scale : option num)
    (indices : list Z) (refs : list nat) (fs fs' : list (Force num)) : Prop :=
  forall r,
    (~ In r refs -> fs' !! r = fs !! r)
    /\ (In r refs ->
        exists f f', fs !! r = Some f /\ fs' !! r = Some f'
                     /\ force_pushed pairs charges scale indices f f').

(** The test of line 261:
    [(particle2 in self.atomExceptions[particle1]) or (particle1 in self.atomExceptions[particle2])]. *)
Definition listed_14 (atomExceptions : list (list Z)) (particle1 particle2 : Z) : Prop :=
  (exists l, py_getitem atomExceptions particle1 = Ok l /\ In particle2 l)
  \/ (exists l, py_getitem atomExceptions particle2 = Ok l /\ In particle1 l).

(** An exception after lines 267-270. *)
Definition floored (e : Z * Z * num * num * num) : Z * Z * num * num * num :=
  let '(particle1, particle2, chargeProd, sigma, epsilon) := e in
  (particle1, particle2, floor_nonzero chargeProd, sigma, floor_nonzero epsilon).

(** The Context after the parameters of the force at [force] have been
    uploaded (lines 596-597), for a call that was given a Context. *)
Definition upload (use_context : bool) (forces : list (Force num)) (c : ctx) (force : nat)
    : ctx :=
  match forces !! force with
  | Some f =>
      if use_context && has_updateParametersInContext f
      then updateParametersInContext force f c
      else c
  | None => c
  end.

(** No two groups share an atom. *)
Definition groups_disjoint (w : World) : Prop :=
  forall i j gi gj a,
    i <> j -> titrationGroups w !! i = Some gi -> titrationGroups w !! j = Some gj ->
    In a (atom_indices gi) -> ~ In a (atom_indices gj).
End Observations.

Section ScalingSpecification.
Context {num : Type} `{FO : FloatOps num} `{FA : FloatAbs num}.

(** Both particles of the exception carry a charge ([abs(charge) > 0]). *)
Definition both_charged (ps : list (num * num * num)) (e : Z * Z * num * num * num) : bool :=
  let '(p1, p2, _, _, _) := e in
  match omm_get ps p1, omm_get ps p2 with
  | Ok (q1, _, _), Ok (q2, _, _) => fltb (of_int 0) (fabs q1) && fltb (of_int 0) (fabs q2)
  | _, _ => false
  end.


(** The quotient of line 229 gives back the factor the charge product was
    built with. *)
Definition exact_quotient (scale : num) : Prop :=
  forall q1 q2,
    fltb (of_int 0) (fabs q1) = true -> fltb (of_int 0) (fabs q2) = true ->
    py_truediv (fmul (fmul scale q1) q2) (fmul q1 q2) = Ok scale.

(** Every exception joins two particles of the force and has the product
    of their charges times [scale] as charge product: what the loop of lines
    580-593 writes, up to the replacement of zeros. *)
Definition scaled_by (scale : num) (ps : list (num * num * num))
    (es : list (Z * Z * num * num * num)) : Prop :=
  forall i p1 p2 cp sg ep,
    es !! i = Some (p1, p2, cp, sg, ep) ->
    exists q1 s1 e1 q2 s2 e2,
      omm_get ps p1 = Ok (q1, s1, e1) /\ omm_get ps p2 = Ok (q2, s2, e2)
      /\ (both_charged ps (p1, p2, cp, sg, ep) = true -> cp = fmul (fmul scale q1) q2).
End ScalingSpecification.

(** ** What the constructor sets up *)

Section ConstructorSpecification.
Context {num ctx rng : Type}.
Context `{FO : FloatOps num} `{EO : EnergyOracle num ctx} `{RS : RandomSource num rng}.
Context `{EU : EnergyUnits num}.
Local Abbreviation World := (World num ctx rng).

(** Projections that do not depend on the groups and their active states. *)
Class FramedEnsemble {X} (f : World -> X) : Prop := {
  framed_groups : forall v w, f (set_titrationGroups v w) = f w;
  framed_actives : forall v w, f (set_titrationStates v w) = f w
}.

(** What the constructor has fixed before it reads the cpin file, and what
    the setup calls never touch. *)
Definition surroundings (w : World) :=
  (temperature w, pH w, simultaneous_proposal_probability w, debug w, coulomb14scale w,
   atomExceptions w, forces_to_update w, map force_shape (system_forces w),
   run_as_script w).

(** A computation whose result, and whose effect on the forces, depend on
    the forces of the System only. *)
Definition reads_forces_only {A} (c : M World A) : Prop :=
  forall w1 w2 : World,
    system_forces w1 = system_forces w2 ->
    fst (c w1) = fst (c w2) /\ system_forces (snd (c w1)) = system_forces (snd (c w2)).

(** State [k] of a group as the cpin file gives it: reference pKa zero,
    the energy [STATENE[first_state + k]] in kcal/mol, the proton count
    [PROTCNT[first_state + k]] and the slice of [CHRGDAT] of [num_atoms]
    charges that starts at [first_charge + num_atoms * k]. *)
Definition cpin_state (namelist : Namelist num) (first_charge first_state num_atoms k : Z)
    (state : TitrationState num) : Prop :=
  exists chrgdat statene protcnt energy,
    CHRGDAT namelist = Some (Several chrgdat)
    /\ STATENE namelist = Some (Several statene)
    /\ PROTCNT namelist = Some (Several protcnt)
    /\ py_getitem statene (first_state + k) = Ok energy
    /\ py_getitem protcnt (first_state + k) = Ok (proton_count state)
    /\ pKref state = of_int 0
    /\ relative_energy state = fmul energy kilocalories_per_mole
    /\ charges state
       = py_slice chrgdat (first_charge + num_atoms * k) (first_charge + num_atoms * (k + 1)).

(** Group [g] as the [STATEINF(g)] entries of the cpin file give it: the
    atoms [FIRST_ATOM - 1 .. FIRST_ATOM - 1 + NUM_ATOMS) and the states
    [0 .. NUM_STATES). *)
Definition cpin_group (namelist : Namelist num) (g : Z) (group : TitrationGroup num) : Prop :=
  exists first_atom first_charge first_state num_atoms num_states,
    assoc_string (stateinf_key g "FIRST_ATOM") (STATEINF namelist) = Some first_atom
    /\ assoc_string (stateinf_key g "FIRST_CHARGE") (STATEINF namelist) = Some first_charge
    /\ assoc_string (stateinf_key g "FIRST_STATE") (STATEINF namelist) = Some first_state
    /\ assoc_string (stateinf_key g "NUM_ATOMS") (STATEINF namelist) = Some num_atoms
    /\ assoc_string (stateinf_key g "NUM_STATES") (STATEINF namelist) = Some num_states
    /\ atom_indices group = py_range2 (first_atom - 1) (first_atom - 1 + num_atoms)
    /\ Forall2 (cpin_state namelist first_charge first_state num_atoms)
         (py_range num_states) (titration_states group).

(** Every force the driver updates holds, for every atom of every group,
    the charge the active state of the group gives the atom. *)
Definition charges_in_force (w : World) : Prop :=
  forall g group s state k atom force,
    titrationGroups w !! g = Some group ->
    titrationStates w !! g = Some (Some s) ->
    0 <= s -> titration_states group !! Z.to_nat s = Some state ->
    atom_indices group !! k = Some atom ->
    In force (forces_to_update w) ->
    exists f ps charge sigma epsilon,
      system_forces w !! force = Some f /\ particles_of f = Some ps
      /\ 0 <= atom /\ ps !! Z.to_nat atom = Some (charge, sigma, epsilon)
      /\ charges state !! k = Some charge.

(** The entries of [RESSTATE] as a list. *)
Definition resstate_of (namelist : Namelist num) : option (list Z) :=
  match RESSTATE namelist with
  | None => None
  | Some (Single state) => Some [state]
  | Some (Several states) => Some states
  end.
End ConstructorSpecification.

(** * Properties *)

(** ** Facts about the monad *)

Section MonadFacts.
Context {S : Type}.

Lemma bind_ok {A B} (c : M S A) (k : A -> M S B) s a s' :
  c s = (Ok a, s') -> bind c k s = k a s'.
Proof. intros E. unfold bind. now rewrite E. Qed.

Lemma bind_raise {A B} (c : M S A) (k : A -> M S B) s e s' :
  c s = (Raise e, s') -> bind c k s = (Raise e, s').
Proof. intros E. unfold bind. now rewrite E. Qed.

Lemma bind_inv {A B} (c : M S A) (k : A -> M S B) s r s2 :
  bind c k s = (r, s2) ->
  (exists a s1, c s = (Ok a, s1) /\ k a s1 = (r, s2))
  \/ (exists e, c s = (Raise e, s2) /\ r = Raise e).
Proof.
  unfold bind. destruct (c s) as [[a|e] s1]; intros E.
  - left. eauto.
  - right. inversion E; subst. eauto.
Qed.

Lemma bind_inv_ok {A B} (c : M S A) (k : A -> M S B) s b s2 :
  bind c k s = (Ok b, s2) ->
  exists a s1, c s = (Ok a, s1) /\ k a s1 = (Ok b, s2).
Proof.
  intros E. apply bind_inv in E as [E | (e & _ & E)]; [exact E | discriminate].
Qed.

(** A relation between the state before and the state after that holds
    whether the computation returns or raises. *)
Definition respects {A} (R : S -> S -> Prop) (c : M S A) : Prop :=
  forall s, R s (snd (c s)).

Section Respects.
Context (R : S -> S -> Prop) `{!PreOrder R}.

Lemma respects_ret {A} (a : A) : respects R (ret a).
Proof. intros s. simpl. reflexivity. Qed.

Lemma respects_raise {A} e : respects R (raise (A:=A) e).
Proof. intros s. simpl. reflexivity. Qed.

Lemma respects_gets {A} (f : S -> A) : respects R (gets f).
Proof. intros s. simpl. reflexivity. Qed.

Lemma respects_lift_result {A} (r : Result A) : respects R (lift_result r).
Proof. intros s. simpl. reflexivity. Qed.

Lemma respects_modify (f : S -> S) : (forall s, R s (f s)) -> respects R (modify f).
Proof. intros Hf s. simpl. apply Hf. Qed.

Lemma respects_bind {A B} (c : M S A) (k : A -> M S B) :
  respects R c -> (forall a, respects R (k a)) -> respects R (bind c k).
Proof.
  intros Hc Hk s. unfold bind. specialize (Hc s).
  destruct (c s) as [[a|e] s1]; simpl in *.
  - etransitivity; [exact Hc | apply Hk].
  - exact Hc.
Qed.

Lemma respects_forM_ {A} (l : list A) (body : A -> M S unit) :
  (forall x, respects R (body x)) -> respects R (forM_ l body).
Proof.
  intros Hb. induction l as [|x l IH]; simpl.
  - apply respects_ret.
  - apply respects_bind; [apply Hb | intros _; exact IH].
Qed.

Lemma respects_foldM {A B} (l : list A) (acc : B) (body : B -> A -> M S B) :
  (forall b x, respects R (body b x)) -> respects R (foldM l acc body).
Proof.
  intros Hb. revert acc. induction l as [|x l IH]; intros acc; simpl.
  - apply respects_ret.
  - apply respects_bind; [apply Hb | intros b; apply IH].
Qed.

Lemma respects_repeatM (n : nat) (body : M S unit) :
  respects R body -> respects R (repeatM n body).
Proof.
  intros Hb. induction n as [|n IH]; simpl.
  - apply respects_ret.
  - apply respects_bind; [exact Hb | intros _; exact IH].
Qed.
End Respects.

Lemma respects_run {A} (R : S -> S -> Prop) (c : M S A) s r s' :
  respects R c -> c s = (r, s') -> R s s'.
Proof. intros Hc E. specialize (Hc s). now rewrite E in Hc. Qed.
End MonadFacts.

(** One step of a proof that a computation respects a relation: split the
    monadic structure, case on the scrutinee of a conditional. *)
Ltac respects_step :=
  lazymatch goal with
  | |- respects _ (bind _ _) => apply respects_bind; [ typeclasses eauto | | intros ? ]
  | |- respects _ (ret _) => apply respects_ret; typeclasses eauto
  | |- respects _ (raise _) => apply respects_raise; typeclasses eauto
  | |- respects _ (gets _) => apply respects_gets; typeclasses eauto
  | |- respects _ (lift_result _) => apply respects_lift_result; typeclasses eauto
  | |- respects _ (forM_ _ _) => apply respects_forM_; [ typeclasses eauto | intros ? ]
  | |- respects _ (foldM _ _ _) => apply respects_foldM; [ typeclasses eauto | intros ? ? ]
  | |- respects _ (repeatM _ _) => apply respects_repeatM; [ typeclasses eauto | ]
  | |- respects _ (modify _) => apply respects_modify; intros ?
  | |- respects _ (if ?b then _ else _) => destruct b
  | |- respects _ (match ?x with _ => _ end) => destruct x
  end.

(** ** Frame properties of the methods *)

Section Frames.
Context {num ctx rng : Type}.
Context `{FO : FloatOps num} `{EO : EnergyOracle num ctx} `{RS : RandomSource num rng}.
Local Abbreviation World := (World num ctx rng).

#[export] Instance kept_preorder {X} (f : World -> X) : PreOrder (kept f).
Proof.
  split.
  - intros w. reflexivity.
  - intros w1 w2 w3 H12 H23. unfold kept in *. congruence.
Qed.

#[export] Instance framed_counters : Framed (@counters num ctx rng).
Proof. split; reflexivity. Qed.
#[export] Instance framed_states_counters : FramedStates (@counters num ctx rng).
Proof. intros v w _. reflexivity. Qed.
#[export] Instance framed_history_counters : FramedHistory (@counters num ctx rng).
Proof. intros v w. reflexivity. Qed.

#[export] Instance framed_titrationStates : Framed (@titrationStates num ctx rng).
Proof. split; reflexivity. Qed.
#[export] Instance framed_history_titrationStates :
  FramedHistory (@titrationStates num ctx rng).
Proof. intros v w. reflexivity. Qed.
#[export] Instance framed_counters_titrationStates :
  FramedCounters (@titrationStates num ctx rng).
Proof. split; reflexivity. Qed.

#[export] Instance framed_titrationGroups : Framed (@titrationGroups num ctx rng).
Proof. split; reflexivity. Qed.

#[export] Instance framed_skeleton : Framed (@skeleton num ctx rng).
Proof.
  split; try reflexivity.
  intros v w Hv. unfold skeleton. simpl. now rewrite Hv.
Qed.
#[export] Instance framed_states_skeleton : FramedStates (@skeleton num ctx rng).
Proof. intros v w Hv. unfold skeleton. simpl. now rewrite Hv. Qed.
#[export] Instance framed_history_skeleton : FramedHistory (@skeleton num ctx rng).
Proof. intros v w. reflexivity. Qed.
#[export] Instance framed_counters_skeleton : FramedCounters (@skeleton num ctx rng).
Proof. split; reflexivity. Qed.

Lemma force_shape_insert (forces : list (Force num)) (force : nat) (f f' : Force num) :
  forces !! force = Some f ->
  force_shape f' = force_shape f ->
  map force_shape (<[force := f']> forces) = map force_shape forces.
Proof.
  revert force. induction forces as [|f0 forces IH]; intros [|force] Hl Hs; simpl in *;
    try discriminate.
  - inversion Hl; subst. now rewrite Hs.
  - f_equal. now apply IH.
Qed.

Section Kept.
Context {X : Type} (f : World -> X) `{!Framed f}.

Lemma kept_print line : respects (kept f) (print line).
Proof. apply respects_modify. intros w. apply framed_stdout. Qed.

Lemma kept_load_global name : respects (kept f) (load_global name).
Proof. intros w. unfold load_global. now destruct assoc_string. Qed.

Lemma kept_as_int v : respects (kept f) (as_int v).
Proof. intros w. now destruct v. Qed.

Lemma kept_py_random : respects (kept f) py_random.
Proof.
  intros w. unfold py_random. destruct random_random. simpl. apply framed_random.
Qed.

Lemma kept_py_sample n k : respects (kept f) (py_sample n k).
Proof.
  intros w. unfold py_sample. destruct (n <? k); [reflexivity|].
  destruct random_sample. simpl. apply framed_random.
Qed.

Lemma kept_py_choice n : respects (kept f) (py_choice n).
Proof.
  intros w. unfold py_choice. destruct (n <=? 0).
  - destruct random_random. simpl. apply framed_random.
  - destruct random_choice. simpl. apply framed_random.
Qed.

Lemma kept_lookup_force force : respects (kept f) (lookup_force force).
Proof. intros w. unfold lookup_force. now destruct (_ !! _). Qed.

Lemma kept_getParticleParameters force i :
  respects (kept f) (getParticleParameters force i).
Proof.
  unfold getParticleParameters. repeat respects_step; apply kept_lookup_force.
Qed.

Lemma kept_getNumExceptions force : respects (kept f) (getNumExceptions force).
Proof. unfold getNumExceptions. repeat respects_step; apply kept_lookup_force. Qed.

Lemma kept_getExceptionParameters force i :
  respects (kept f) (getExceptionParameters force i).
Proof.
  unfold getExceptionParameters. repeat respects_step; apply kept_lookup_force.
Qed.

Lemma omm_set_length {A} (l l' : list A) i v :
  omm_set l i v = Ok l' -> length l' = length l.
Proof.
  unfold omm_set. destruct in_range; [|discriminate].
  intros E. inversion E. apply length_insert.
Qed.

Lemma kept_setParticleParameters force i a b c :
  respects (kept f) (setParticleParameters force i a b c).
Proof.
  intros w. unfold setParticleParameters, bind, lookup_force.
  destruct (system_forces w !! force) as [[ps es|ps|name flag]|] eqn:Hf;
    try reflexivity; unfold lift_result;
    destruct (omm_set ps i (a, b, c)) as [ps'|e] eqn:Hs; try reflexivity; simpl;
    apply framed_forces; eapply force_shape_insert; eauto; simpl;
    apply omm_set_length in Hs.
  - f_equal. clear -Hs. revert ps' Hs. induction ps; intros [|? ps'] Hs; simpl in *;
      try discriminate; f_equal; auto.
  - f_equal. clear -Hs. revert ps' Hs. induction ps; intros [|? ps'] Hs; simpl in *;
      try discriminate; f_equal; auto.
Qed.

Lemma getParticleParameters_state force i (w : World) :
  snd (getParticleParameters force i w) = w.
Proof.
  unfold getParticleParameters, bind, lookup_force.
  destruct (system_forces w !! force) as [[ps es|ps|name flag]|]; reflexivity.
Qed.

Lemma getExceptionParameters_ok force i (w w' : World) r :
  getExceptionParameters force i w = (Ok r, w') ->
  w' = w /\ exists ps es,
    system_forces w !! force = Some (NonbondedForce ps es) /\ omm_get es i = Ok r.
Proof.
  unfold getExceptionParameters, bind, lookup_force, lift_result.
  destruct (system_forces w !! force) as [[ps es|ps|name flag]|]; try discriminate.
  destruct (omm_get es i) eqn:Hg; intros E; inversion E; subst. eauto.
Qed.

Lemma omm_get_set_shape (es es' : list (Z * Z * num * num * num)) i p1 p2 a b c a' b' c' :
  omm_get es i = Ok (p1, p2, a, b, c) ->
  omm_set es i (p1, p2, a', b', c') = Ok es' ->
  map (fun '(p1, p2, _, _, _) => (p1, p2, tt, tt, tt)) es'
  = map (fun '(p1, p2, _, _, _) => (p1, p2, tt, tt, tt)) es.
Proof.
  unfold omm_get, omm_set. destruct in_range; [|discriminate].
  destruct (es !! Z.to_nat i) eqn:Hl; [|discriminate].
  intros E1 E2. inversion E1; inversion E2; subst. clear E1 E2.
  revert Hl. generalize (Z.to_nat i). induction es as [|e es IH]; intros [|n] Hl;
    simpl in *; try discriminate.
  - inversion Hl; subst. reflexivity.
  - f_equal. now apply IH.
Qed.

Lemma kept_setExceptionParameters_same force i (w : World) ps es p1 p2 a b c a' b' c' :
  system_forces w !! force = Some (NonbondedForce ps es) ->
  omm_get es i = Ok (p1, p2, a, b, c) ->
  kept f w (snd (setExceptionParameters force i p1 p2 a' b' c' w)).
Proof.
  intros Hf Hg. unfold setExceptionParameters, bind, lookup_force, lift_result.
  rewrite Hf. destruct (omm_set es i (p1, p2, a', b', c')) as [es'|e] eqn:Hs;
    [|reflexivity].
  simpl. apply framed_forces. eapply force_shape_insert; eauto. simpl.
  f_equal. eapply omm_get_set_shape; eauto.
Qed.

Lemma kept_floor_exception force i : respects (kept f) (floor_exception force i).
Proof.
  intros w. unfold floor_exception, bind at 1.
  destruct (getExceptionParameters force i w) as [[r|e] w1] eqn:E.
  - apply getExceptionParameters_ok in E as (-> & ps & es & Hf & Hg).
    destruct r as [[[[p1 p2] cp] sg] ep].
    eapply kept_setExceptionParameters_same; eauto.
  - eapply respects_run; [apply kept_getExceptionParameters | exact E].
Qed.

Lemma kept_update_exception force i : respects (kept f) (update_exception force i).
Proof.
  intros w. unfold update_exception, bind at 1.
  destruct (getExceptionParameters force i w) as [[r|e] w1] eqn:E.
  - apply getExceptionParameters_ok in E as (-> & ps & es & Hf & Hg).
    destruct r as [[[[p1 p2] cp] sg] ep].
    unfold bind at 1.
    pose proof (getParticleParameters_state force p1 w) as S1.
    destruct (getParticleParameters force p1 w) as [[[[c1 s1] e1]|e] w1];
      simpl in S1; subst w1; [|reflexivity].
    unfold bind at 1.
    pose proof (getParticleParameters_state force p2 w) as S2.
    destruct (getParticleParameters force p2 w) as [[[[c2 s2] e2]|e] w2];
      simpl in S2; subst w2; [|reflexivity].
    unfold bind at 1, gets. unfold bind at 1.
    destruct (coulomb14scale w) as [scale|]; simpl; [|reflexivity].
    eapply kept_setExceptionParameters_same; eauto.
  - eapply respects_run; [apply kept_getExceptionParameters | exact E].
Qed.

Lemma kept_update_particle_charge force f0 charges dbg ci ai :
  respects (kept f) (update_particle_charge force f0 charges dbg ci ai).
Proof.
  unfold update_particle_charge.
  repeat first [ apply kept_getParticleParameters | apply kept_setParticleParameters
               | apply kept_print | respects_step ].
Qed.

Lemma kept_force_updateParametersInContext force :
  respects (kept f) (force_updateParametersInContext force).
Proof.
  unfold force_updateParametersInContext.
  repeat first [ apply kept_lookup_force | respects_step ].
  apply framed_context.
Qed.

Lemma kept_update_force_parameters force group state uc dbg :
  respects (kept f) (update_force_parameters force group state uc dbg).
Proof.
  unfold update_force_parameters.
  repeat first [ apply kept_lookup_force | apply kept_update_particle_charge
               | apply kept_update_exception | apply kept_force_updateParametersInContext
               | respects_step ].
Qed.

Lemma kept_update_forces group state uc dbg :
  respects (kept f) (update_forces group state uc dbg).
Proof.
  unfold update_forces.
  repeat first [ apply kept_update_force_parameters | respects_step ].
Qed.

Lemma kept_getNumTitratableGroups : respects (kept f) getNumTitratableGroups.
Proof. apply respects_gets. typeclasses eauto. Qed.

Lemma kept_getNumTitrationStates g : respects (kept f) (getNumTitrationStates g).
Proof.
  unfold getNumTitrationStates.
  repeat first [ apply kept_getNumTitratableGroups | respects_step ].
Qed.

Lemma kept_getTitrationState g : respects (kept f) (getTitrationState g).
Proof.
  unfold getTitrationState.
  repeat first [ apply kept_getNumTitratableGroups | respects_step ].
Qed.

Lemma kept_compute_log_probability : respects (kept f) _compute_log_probability.
Proof.
  unfold _compute_log_probability.
  repeat first [ apply kept_print | respects_step ].
Qed.

Lemma kept_metropolis_accepts x : respects (kept f) (metropolis_accepts x).
Proof.
  unfold metropolis_accepts. repeat first [ apply kept_py_random | respects_step ].
Qed.

Lemma kept_nonbonded_force_of_system : respects (kept f) nonbonded_force_of_system.
Proof. intros w. unfold nonbonded_force_of_system. now destruct last_nonbonded. Qed.

Lemma kept_get14exceptions system particle_indices :
  respects (kept f) (get14exceptions system particle_indices).
Proof.
  unfold get14exceptions.
  repeat first [ apply kept_nonbonded_force_of_system | apply kept_getNumExceptions
               | apply kept_getExceptionParameters | apply kept_floor_exception
               | respects_step ].
Qed.

Lemma py_setitem_length {A} (l l' : list A) i v :
  py_setitem l i v = Ok l' -> length l' = length l.
Proof.
  unfold py_setitem. destruct py_index; [|discriminate].
  intros E. inversion E. apply length_insert.
Qed.

Section States.
Context `{!FramedStates f}.

Lemma kept_store_state g s : respects (kept f) (store_state g s).
Proof.
  intros w. unfold store_state, bind, gets, lift_result.
  destruct (py_setitem (titrationStates w) g (Some s)) eqn:Hs; simpl; [|reflexivity].
  apply framed_states. eapply py_setitem_length; eauto.
Qed.

Lemma kept_setTitrationState g s uc dbg :
  respects (kept f) (setTitrationState g s uc dbg).
Proof.
  unfold setTitrationState.
  repeat first [ apply kept_getNumTitratableGroups | apply kept_getNumTitrationStates
               | apply kept_update_forces | apply kept_store_state
               | respects_step ].
Qed.

Lemma kept_restore_titration_states indices initial :
  respects (kept f) (restore_titration_states indices initial).
Proof.
  unfold restore_titration_states.
  repeat first [ apply kept_setTitrationState | respects_step ].
Qed.

Lemma kept_propose_states indices : respects (kept f) (propose_states indices).
Proof.
  unfold propose_states.
  repeat first [ apply kept_setTitrationState | apply kept_getNumTitrationStates
               | apply kept_py_choice | respects_step ].
Qed.

Section History.
Context `{!FramedHistory f}.

Lemma kept_propose_trial : respects (kept f) propose_trial.
Proof.
  unfold propose_trial, getTitrationStates.
  repeat first [ apply kept_getNumTitratableGroups | apply kept_py_random
               | apply kept_py_sample | apply kept_compute_log_probability
               | apply kept_print | apply kept_propose_states
               | apply framed_history
               | respects_step ].
Qed.

Section Counters.
Context `{!FramedCounters f}.

Lemma kept_update_attempt : respects (kept f) update_attempt.
Proof.
  unfold update_attempt.
  repeat first [ apply kept_propose_trial | apply kept_metropolis_accepts
               | apply kept_restore_titration_states | apply framed_accepted
               | apply framed_attempted
               | respects_step ].
Qed.

Lemma kept_update : respects (kept f) update.
Proof.
  unfold update. repeat first [ apply kept_update_attempt | respects_step ].
Qed.
End Counters.
End History.
End States.
End Kept.
End Frames.

(** Frame goals for the methods, by the lemmas above. *)
Ltac kept_tac :=
  repeat first
    [ apply kept_print | apply kept_py_random | apply kept_py_sample
    | apply kept_py_choice | apply kept_compute_log_probability
    | apply kept_getNumTitratableGroups | apply kept_getNumTitrationStates
    | apply kept_setTitrationState | apply kept_propose_states
    | apply kept_update_forces | apply framed_history | respects_step ];
  try typeclasses eauto.

(** ** Python sequences *)

Section Sequences.
Context {A : Type}.

Lemma in_range_spec i n : in_range i n = true <-> 0 <= i < n.
Proof. unfold in_range. rewrite andb_true_iff, Z.leb_le, Z.ltb_lt. tauto. Qed.

Lemma in_range_false i n : in_range i n = false <-> ~ (0 <= i < n).
Proof. rewrite <- in_range_spec. now destruct in_range. Qed.

Lemma py_index_in_range (l : list A) i :
  in_range i (Z.of_nat (length l)) = true -> py_index l i = Some (Z.to_nat i).
Proof. intros H. unfold py_index. now rewrite H. Qed.

Lemma py_index_nonneg (l : list A) i k :
  0 <= i -> py_index l i = Some k -> k = Z.to_nat i /\ (k < length l)%nat.
Proof.
  intros Hi. unfold py_index.
  destruct (in_range i (Z.of_nat (length l))) eqn:H1.
  - apply in_range_spec in H1. intros E. inversion E. lia.
  - destruct (in_range (Z.of_nat (length l) + i) (Z.of_nat (length l))) eqn:H2;
      [|discriminate].
    apply in_range_spec in H2. lia.
Qed.

Lemma py_getitem_in_range (l : list A) i :
  in_range i (Z.of_nat (length l)) = true ->
  exists x, l !! Z.to_nat i = Some x /\ py_getitem l i = Ok x.
Proof.
  intros H. unfold py_getitem. rewrite (py_index_in_range _ _ H).
  apply in_range_spec in H.
  destruct (l !! Z.to_nat i) as [x|] eqn:Hl; [eauto|].
  apply lookup_ge_None in Hl. lia.
Qed.

Lemma py_setitem_in_range (l : list A) i v :
  in_range i (Z.of_nat (length l)) = true ->
  py_setitem l i v = Ok (<[Z.to_nat i := v]> l).
Proof. intros H. unfold py_setitem. now rewrite (py_index_in_range _ _ H). Qed.

Lemma py_setitem_nonneg (l l' : list A) i v :
  0 <= i -> py_setitem l i v = Ok l' ->
  l' = <[Z.to_nat i := v]> l /\ (Z.to_nat i < length l)%nat.
Proof.
  intros Hi. unfold py_setitem. destruct (py_index l i) as [k|] eqn:Hk; [|discriminate].
  apply py_index_nonneg in Hk as [-> Hlt]; [|exact Hi].
  intros E. inversion E. auto.
Qed.

Lemma py_getitem_insert (l : list A) i v :
  in_range i (Z.of_nat (length l)) = true ->
  py_getitem (<[Z.to_nat i := v]> l) i = Ok v.
Proof.
  intros H. unfold py_getitem. rewrite py_index_in_range by now rewrite length_insert.
  apply in_range_spec in H. rewrite list_lookup_insert_eq by lia. reflexivity.
Qed.

Lemma mem_Z_In x l : mem_Z x l = true <-> In x l.
Proof.
  unfold mem_Z. rewrite existsb_exists. split.
  - intros (y & Hy & E). apply Z.eqb_eq in E. now subst.
  - intros H. exists x. split; [exact H | apply Z.eqb_refl].
Qed.
End Sequences.

(** ** Setup calls *)

Section Setup.
Context {num ctx rng : Type}.
Context `{FO : FloatOps num} `{EO : EnergyOracle num ctx} `{RS : RandomSource num rng}.
Local Abbreviation World := (World num ctx rng).

(** The loop of lines 400-402 raises exactly when some group shares an
    atom with the requested one, and changes nothing. *)
Lemma overlap_check_raises atoms (groups : list (TitrationGroup num)) (w : World) :
  (exists a group, In group groups /\ In a atoms /\ In a (atom_indices group)) ->
  forM_ groups (fun group =>
    if existsb (fun a => mem_Z a (atom_indices group)) atoms
    then raise OverlapError else ret tt) w = (Raise OverlapError, w).
Proof.
  induction groups as [|g groups IH]; intros (a & group & Hin & Ha & Hg).
  - destruct Hin.
  - simpl. unfold bind.
    destruct (existsb (fun a => mem_Z a (atom_indices g)) atoms) eqn:Hex; [reflexivity|].
    simpl. apply IH. destruct Hin as [->|Hin]; [|eauto].
    exfalso. apply not_true_iff_false in Hex. apply Hex.
    apply existsb_exists. exists a. split; [exact Ha | now apply mem_Z_In].
Qed.

(** C3: a setup call that fails leaves the world, and so the group list,
    every state list and every active-state index, exactly as it was:
    [addTitratableGroup] with atoms that overlap an existing group raises
    the overlap error, [addTitrationState] raises the invalid-group error
    for a group index out of range and the charge-count error when the
    number of charges differs from the number of atoms of the group. *)
Theorem failed_setup_leaves_world_unchanged (w : World) :
  (forall atoms, overlaps atoms w ->
     addTitratableGroup atoms w = (Raise OverlapError, w))
  /\ (forall g pK e ch pc,
        ~ (0 <= g < Z.of_nat (length (titrationGroups w))) ->
        addTitrationState g pK e ch pc w = (Raise InvalidGroupError, w))
  /\ (forall g pK e ch pc group,
        0 <= g ->
        titrationGroups w !! Z.to_nat g = Some group ->
        length ch <> length (atom_indices group) ->
        addTitrationState g pK e ch pc w = (Raise ChargeCountMismatchError, w)).
Proof.
  split; [|split].
  - intros atoms Hov. unfold addTitratableGroup.
    unfold bind at 1, gets. unfold bind at 1.
    now rewrite (overlap_check_raises atoms (titrationGroups w) w Hov).
  - intros g pK e ch pc Hg. apply in_range_false in Hg.
    unfold addTitrationState, bind, getNumTitratableGroups, gets. now rewrite Hg.
  - intros g pK e ch pc group Hg Hl Hne.
    assert (Hr : in_range g (Z.of_nat (length (titrationGroups w))) = true).
    { apply in_range_spec. apply lookup_lt_Some in Hl. lia. }
    unfold addTitrationState, bind, getNumTitratableGroups, gets, lift_result.
    rewrite Hr. simpl.
    destruct (py_getitem_in_range _ _ Hr) as (group' & Hl' & ->).
    rewrite Hl in Hl'. inversion Hl'; subst group'.
    destruct (Z.of_nat (length ch) =? Z.of_nat (length (atom_indices group))) eqn:E;
      [|reflexivity].
    apply Z.eqb_eq in E. lia.
Qed.
Lemma addTitrationState_ok (w w' : World) g pK e ch pc :
  addTitrationState g pK e ch pc w = (Ok tt, w') ->
  exists group,
    0 <= g /\ titrationGroups w !! Z.to_nat g = Some group
    /\ length ch = length (atom_indices group)
    /\ (Z.to_nat g < length (titrationStates w))%nat
    /\ w' = set_titrationGroups
              (<[Z.to_nat g := with_state group
                   {| pKref := pK; relative_energy := e; charges := ch; proton_count := pc |}]>
                 (titrationGroups w))
              (set_titrationStates (<[Z.to_nat g := Some (nstates group)]> (titrationStates w)) w).
Proof.
  intros H. unfold addTitrationState, update_group, getNumTitratableGroups in H.
  unfold bind, gets, lift_result, modify in H. simpl in H.
  destruct (in_range g (Z.of_nat (length (titrationGroups w)))) eqn:Hr; simpl in H; [|discriminate].
  destruct (py_getitem_in_range _ _ Hr) as (group & Hl & Hg). rewrite Hg in H.
  destruct (Z.of_nat (length ch) =? Z.of_nat (length (atom_indices group))) eqn:Ec;
    simpl in H; [|discriminate].
  apply Z.eqb_eq in Ec.
  rewrite Hg, (py_setitem_in_range _ _ _ Hr) in H. simpl in H.
  rewrite py_getitem_insert in H by exact Hr. simpl in H.
  destruct (py_setitem (titrationStates w) g (Some (nstates group))) as [states'|] eqn:Hs;
    [|discriminate].
  rewrite py_setitem_in_range in H by now rewrite length_insert.
  rewrite list_insert_insert_eq in H.
  apply in_range_spec in Hr.
  apply py_setitem_nonneg in Hs as [-> Hlt]; [|lia].
  exists group. repeat split; try lia; try assumption.
  inversion H. reflexivity.
Qed.

Lemma getTitrationState_after_add (w w' : World) g pK e ch pc group :
  titrationGroups w !! Z.to_nat g = Some group ->
  addTitrationState g pK e ch pc w = (Ok tt, w') ->
  titrationGroups w' !! Z.to_nat g
  = Some (with_state group
            {| pKref := pK; relative_energy := e; charges := ch; proton_count := pc |})
  /\ getTitrationState g w' = (Ok (Some (nstates group)), w').
Proof.
  intros Hl H. apply addTitrationState_ok in H as (group' & Hg & Hl' & _ & Hlt & ->).
  rewrite Hl in Hl'. inversion Hl'; subst group'. clear Hl'.
  pose proof (lookup_lt_Some _ _ _ Hl) as Hlen.
  split.
  - simpl. now rewrite list_lookup_insert_eq.
  - unfold getTitrationState, bind, getNumTitratableGroups, gets, lift_result. simpl.
    rewrite length_insert.
    assert (Hr : 0 <= g < Z.of_nat (length (titrationGroups w))) by lia.
    apply in_range_spec in Hr. rewrite Hr.
    simpl. rewrite py_getitem_insert; [reflexivity|].
    apply in_range_spec. lia.
Qed.

Lemma addTitrationStates_active (states : list (TitrationState num)) :
  forall (w w' : World) g group,
    states <> [] ->
    titrationGroups w !! Z.to_nat g = Some group ->
    counter_ok group ->
    addTitrationStates g states w = (Ok tt, w') ->
    getTitrationState g w'
    = (Ok (Some (Z.of_nat (length (titration_states group) + length states) - 1)), w').
Proof.
  induction states as [|state states IH]; intros w w' g group Hne Hl Hc H; [congruence|].
  unfold addTitrationStates in H. simpl in H.
  apply bind_inv_ok in H as ([] & w1 & H1 & H2).
  destruct (getTitrationState_after_add _ _ _ _ _ _ _ _ Hl H1) as [Hl1 Hq].
  destruct states as [|state' states].
  - simpl in H2. inversion H2; subst w1. rewrite Hq. unfold counter_ok in Hc.
    rewrite Hc. simpl. do 3 f_equal. lia.
  - erewrite (IH w1 w' g _ ltac:(congruence) Hl1); [| |exact H2].
    + simpl. rewrite length_app. simpl. do 3 f_equal. lia.
    + unfold counter_ok in *. simpl. rewrite length_app, Hc. simpl. lia.
Qed.

(** C5: a successful [addTitrationState] on a group whose state counter
    agrees with its state list appends the state and makes it the active
    one: the query returns the index of the last position of the new
    list.  Hence adding [n >= 1] states to a group without states, with no
    explicit set in between, leaves state [n - 1] active. *)
Theorem addTitrationState_activates_new_state (w : World) g group :
  titrationGroups w !! Z.to_nat g = Some group ->
  counter_ok group ->
  (forall pK e ch pc w',
     addTitrationState g pK e ch pc w = (Ok tt, w') ->
     let state := {| pKref := pK; relative_energy := e; charges := ch; proton_count := pc |} in
     exists group',
       titrationGroups w' !! Z.to_nat g = Some group'
       /\ titration_states group' = titration_states group ++ [state]
       /\ getTitrationState g w'
          = (Ok (Some (Z.of_nat (length (titration_states group')) - 1)), w')
       /\ titration_states group' !! Z.to_nat (Z.of_nat (length (titration_states group')) - 1)
          = Some state
       /\ counter_ok group')
  /\ (forall states w',
        titration_states group = [] ->
        states <> [] ->
        addTitrationStates g states w = (Ok tt, w') ->
        getTitrationState g w' = (Ok (Some (Z.of_nat (length states) - 1)), w')).
Proof.
  intros Hl Hc. split.
  - intros pK e ch pc w' H state.
    destruct (getTitrationState_after_add _ _ _ _ _ _ _ _ Hl H) as [Hl1 Hq].
    eexists. split; [exact Hl1|]. simpl. rewrite length_app. simpl.
    unfold counter_ok in *. simpl. rewrite length_app. simpl.
    repeat split.
    + rewrite Hq, Hc. do 3 f_equal. lia.
    + replace (Z.to_nat (Z.of_nat (length (titration_states group) + 1) - 1))
        with (length (titration_states group)) by lia.
      apply list_lookup_middle. reflexivity.
    + lia.
  - intros states w' Hempty Hne H.
    rewrite (addTitrationStates_active states w w' g group Hne Hl Hc H).
    now rewrite Hempty.
Qed.

(** What a call of [addTitratableGroup] that returns has done: the group
    is appended, so it sits at position [n] for [n] groups before, and the
    value returned is [n + 1], which no method accepts as a group index
    until another group is added. *)
Lemma addTitratableGroup_ok atoms (w w' : World) r :
  addTitratableGroup atoms w = (Ok r, w') ->
  r = Z.of_nat (length (titrationGroups w)) + 1
  /\ (exists exceptions,
        titrationGroups w'
        = titrationGroups w
          ++ [{| atom_indices := atoms; titration_states := []; index := r;
                 nstates := 0; exception_indices := exceptions |}])
  /\ getNumTitrationStates r w' = (Raise InvalidGroupError, w')
  /\ getNumTitrationStates (r - 1) w' = (Ok 0, w').
Proof.
  intros H. unfold addTitratableGroup in H.
  apply bind_inv_ok in H as (groups & w0 & H0 & H). inversion H0; subst groups w0.
  apply bind_inv_ok in H as ([] & w1 & H1 & H).
  apply bind_inv_ok in H as (n & w1' & H1' & H). inversion H1'; subst n w1'.
  apply bind_inv_ok in H as (system & w2 & H2 & H).
  apply bind_inv_ok in H as (exceptions & w3 & H3 & H).
  assert (Hg : titrationGroups w3 = titrationGroups w).
  { transitivity (titrationGroups w2); [|transitivity (titrationGroups w1)].
    - eapply (respects_run (kept titrationGroups)); [|exact H3].
      apply kept_get14exceptions; typeclasses eauto.
    - eapply (respects_run (kept titrationGroups)); [|exact H2].
      apply kept_load_global; typeclasses eauto.
    - eapply (respects_run (kept titrationGroups)); [|exact H1].
      apply respects_forM_; [typeclasses eauto|]. intros group.
      destruct existsb; [apply respects_raise | apply respects_ret]; typeclasses eauto. }
  assert (Hg1 : titrationGroups w1 = titrationGroups w).
  { eapply (respects_run (kept titrationGroups)); [|exact H1].
    apply respects_forM_; [typeclasses eauto|]. intros group.
    destruct existsb; [apply respects_raise | apply respects_ret]; typeclasses eauto. }
  unfold bind, modify, ret in H. simpl in H. inversion H; subst r w'. clear H.
  rewrite Hg1. split; [reflexivity|]. split.
  - exists exceptions. simpl. now rewrite Hg.
  - unfold getNumTitrationStates, bind, getNumTitratableGroups, gets, lift_result. simpl.
    rewrite Hg, length_app. simpl.
    replace (in_range (Z.of_nat (length (titrationGroups w)) + 1)
               (Z.of_nat (length (titrationGroups w) + 1))) with false
      by (symmetry; apply in_range_false; lia).
    split; [reflexivity|].
    replace (in_range (Z.of_nat (length (titrationGroups w)) + 1 - 1)
               (Z.of_nat (length (titrationGroups w) + 1))) with true
      by (symmetry; apply in_range_spec; lia).
    simpl. unfold py_getitem. rewrite py_index_in_range
      by (rewrite length_app; simpl; apply in_range_spec; lia).
    replace (Z.to_nat (Z.of_nat (length (titrationGroups w)) + 1 - 1))
      with (length (titrationGroups w)) by lia.
    now rewrite list_lookup_middle.
Qed.

(** C10: [getTitrationStateTotalCharge] never returns a charge.  A group
    index out of range raises the invalid-group error; for a valid one the
    read of [titration_state_index], bound neither in the method nor in
    the module, raises [NameError].  The world is left as it was. *)
Theorem getTitrationStateTotalCharge_always_raises (w : World) (g : Z) :
  getTitrationStateTotalCharge g w
  = (Raise (if in_range g (Z.of_nat (length (titrationGroups w)))
            then NameError "titration_state_index"
            else InvalidGroupError), w).
Proof.
  unfold getTitrationStateTotalCharge, bind, getNumTitratableGroups, gets. simpl.
  destruct in_range; simpl; [|reflexivity].
  unfold load_global. now destruct (run_as_script w).
Qed.
End Setup.

(** ** Statistics *)

Section Statistics.
Context {num ctx rng : Type}.
Context `{FO : FloatOps num} `{EO : EnergyOracle num ctx} `{RS : RandomSource num rng}.
Local Abbreviation World := (World num ctx rng).

(** C8: when the conversion of the attempt count to a float is zero only
    for a zero count, [getAcceptanceProbability] returns the quotient of
    the two counters converted to floats for a positive attempt count and
    raises [ZeroDivisionError] for a zero one; the world is left as it was. *)
Theorem getAcceptanceProbability_spec (w : World) :
  feqb (of_int (nattempted w)) (of_int 0) = (nattempted w =? 0) ->
  (0 < nattempted w ->
     getAcceptanceProbability w
     = (Ok (fdiv (of_int (naccepted w)) (of_int (nattempted w))), w))
  /\ (nattempted w = 0 ->
        getAcceptanceProbability w = (Raise ZeroDivisionError, w)).
Proof.
  intros Hz.
  unfold getAcceptanceProbability, bind, gets, lift_result, py_truediv. simpl.
  rewrite Hz. split; intros H.
  - now replace (nattempted w =? 0) with false by (symmetry; apply Z.eqb_neq; lia).
  - now rewrite H.
Qed.

Lemma update_attempt_counts (w : World) : trial_counts w (snd (update_attempt w)).
Proof.
  unfold update_attempt, bind at 1.
  destruct (propose_trial w) as [[[[indices initial] log_P_accept]|e] w1] eqn:H1;
    apply (respects_run (kept counters)) in H1; try (apply kept_propose_trial; typeclasses eauto).
  2: { left. exact H1. }
  unfold bind at 1, modify at 1. unfold bind at 1.
  set (w2 := set_nattempted (nattempted w1 + 1) w1).
  assert (H2 : counters w2 = (nattempted w + 1, naccepted w)).
  { unfold kept, counters in H1. inversion H1. unfold counters. simpl. congruence. }
  destruct (metropolis_accepts log_P_accept w2) as [[accept|e] w3] eqn:H3;
    apply (respects_run (kept counters)) in H3;
    try (apply kept_metropolis_accepts; typeclasses eauto);
    unfold kept in H3; rewrite H2 in H3.
  2: { right. left. exact H3. }
  destruct accept.
  - right. right. unfold counters in *. inversion H3. simpl. congruence.
  - right. left. rewrite <- H3.
    apply (kept_restore_titration_states counters).
Qed.

Lemma trial_counts_ok (w w' : World) : trial_counts w w' -> counts_ok w -> counts_ok w'.
Proof.
  unfold trial_counts, counts_ok, counters.
  intros [H|[H|H]] Hw; inversion H; lia.
Qed.

(** C9: [0 <= naccepted <= nattempted] holds after [resetStatistics] and
    is preserved by [update], whether it returns or raises: every trial
    leaves the counters alone or adds one attempt and at most one
    acceptance. *)
Theorem counts_ok_invariant (w : World) :
  counts_ok (snd (resetStatistics w))
  /\ trial_counts w (snd (update_attempt w))
  /\ (counts_ok w -> counts_ok (snd (update w))).
Proof.
  split; [|split].
  - unfold counts_ok. simpl. lia.
  - apply update_attempt_counts.
  - revert w.
    change (respects (fun w w' : World => counts_ok w -> counts_ok w') update).
    assert (PreOrder (fun w w' : World => counts_ok w -> counts_ok w')).
    { split; [intros x; tauto | intros x y z; tauto]. }
    unfold update. apply respects_bind; [assumption | apply respects_gets; assumption |].
    intros n. apply respects_repeatM; [assumption|].
    intros w. apply trial_counts_ok, update_attempt_counts.
Qed.
End Statistics.

(** ** The log probability *)

Section LogProbability.
Context {num ctx rng : Type}.
Context `{FO : FloatOps num} `{EO : EnergyOracle num ctx} `{RS : RandomSource num rng}.
Local Abbreviation World := (World num ctx rng).

Lemma set_stdout_id (w : World) : set_stdout (stdout w) w = w.
Proof. now destruct w. Qed.

Lemma reference_loop_run beta total_energy pairs :
  forall log_P (w : World),
    foldM pairs log_P (fun log_P '(titration_group, titration_state_index) =>
      let* titration_state :=
        match titration_state_index with
        | Some i => lift_result (py_getitem (titration_states titration_group) i)
        | None => raise TypeError
        end in
      let* pH_value := gets pH in
      print (LogProbabilityLine (proton_count titration_state) pH_value
               (pKref titration_state)
               (fmul (fneg beta) total_energy)
               (fmul (fmul (of_int (- proton_count titration_state))
                           (fsub pH_value (pKref titration_state))) ln10)
               (fmul beta (relative_energy titration_state))) ;;
      ret (fadd log_P (reference_term beta pH_value titration_state))) w
    = (fst (reference_loop beta total_energy (pH w) pairs log_P),
       set_stdout
         (stdout w ++ snd (reference_loop beta total_energy (pH w) pairs log_P)) w).
Proof.
  induction pairs as [|[group active] pairs IH]; intros log_P w; simpl.
  - unfold ret. now rewrite app_nil_r, set_stdout_id.
  - unfold bind at 1.
    destruct active as [i|]; simpl.
    + unfold lift_result.
      destruct (py_getitem (titration_states group) i) as [state|e]; simpl.
      * unfold bind, gets, print, modify, ret. simpl. rewrite IH. simpl.
        destruct reference_loop as [r lines]. simpl.
        now rewrite <- app_assoc.
      * now rewrite app_nil_r, set_stdout_id.
    + now rewrite app_nil_r, set_stdout_id.
Qed.

Lemma compute_log_probability_run (w : World) :
  _compute_log_probability w
  = (fst (log_probability_of w), set_stdout (stdout w ++ snd (log_probability_of w)) w).
Proof.
  unfold _compute_log_probability, log_probability_of.
  unfold bind at 1, gets at 1. unfold bind at 1, lift_result at 1.
  destruct (py_truediv (of_int 1) (fmul kB (temperature w))) as [beta|e]; simpl.
  - exact (reference_loop_run beta _ _ _ w).
  - now rewrite app_nil_r, set_stdout_id.
Qed.

(** C7: a call of [_compute_log_probability] changes nothing but standard
    output, to which it appends the lines of its [print] statement: the
    group list, the state lists, the active states, the counters, the
    history, the forces, the Context and the generator are as before.  A
    second call right after returns the same value. *)
Theorem compute_log_probability_pure (w : World) :
  let w' := snd (_compute_log_probability w) in
  (exists lines, w' = set_stdout (stdout w ++ lines) w)
  /\ titrationGroups w' = titrationGroups w
  /\ titrationStates w' = titrationStates w
  /\ counters w' = counters w
  /\ work_history w' = work_history w
  /\ fst (_compute_log_probability w') = fst (_compute_log_probability w).
Proof.
  simpl. rewrite !compute_log_probability_run. simpl.
  repeat split; eauto.
Qed.

Lemma active_state_getitem (group : TitrationGroup num) i state :
  active_state group (Some i) = Some state ->
  py_getitem (titration_states group) i = Ok state.
Proof.
  unfold active_state.
  destruct (in_range i (Z.of_nat (length (titration_states group)))) eqn:Hr;
    [|discriminate].
  intros Hl. destruct (py_getitem_in_range _ _ Hr) as (x & Hx & ->). congruence.
Qed.

Lemma reference_loop_active beta total_energy pH_value groups :
  forall actives states log_P,
    active_states_of groups actives = Some states ->
    fst (reference_loop beta total_energy pH_value (combine groups actives) log_P)
    = Ok (fold_left fadd (map (reference_term beta pH_value) states) log_P).
Proof.
  induction groups as [|group groups IH]; intros [|active actives] states log_P H;
    simpl in H; try discriminate.
  - inversion H. reflexivity.
  - destruct (active_state group active) as [state|] eqn:Ha; [|discriminate].
    destruct (active_states_of groups actives) as [states'|] eqn:Hs; [|discriminate].
    inversion H; subst states. clear H.
    destruct active as [i|]; [|discriminate]. simpl.
    rewrite (active_state_getitem _ _ _ Ha).
    specialize (IH actives states' (fadd log_P (reference_term beta pH_value state)) Hs).
    destruct reference_loop as [r lines]. simpl in *. exact IH.
Qed.

Lemma fold_left_fadd (l : list num) :
  (forall x y z, fadd (fadd x y) z = fadd x (fadd y z)) ->
  (forall x, fadd x (of_int 0) = x) ->
  forall a, fold_left fadd l a = fadd a (fold_right fadd (of_int 0) l).
Proof.
  intros Hassoc Hzero. induction l as [|x l IH]; intros a; simpl.
  - now rewrite Hzero.
  - now rewrite IH, Hassoc.
Qed.

(** C2: at a nonzero thermal energy [kB * temperature], for an ensemble
    whose groups all have a valid active state, [_compute_log_probability]
    returns [-beta * (potential + kinetic)] to which the term
    [-proton_count * (pH - pKref) * ln 10 + beta * relative_energy] of the
    active state of each group has been added, group after group, with
    [beta = 1 / (kB * temperature)].  In an arithmetic whose addition is
    associative with [0.0] as right unit (the real numbers) that is
    [-beta * (potential + kinetic)] plus the sum of the terms.  The term is
    [specified_term], written from the words of the specification, not the
    term of the code. *)
Theorem compute_log_probability_formula (w : World) (actives : list (TitrationState num)) :
  feqb (fmul kB (temperature w)) (of_int 0) = false ->
  active_states w = Some actives ->
  let beta := fdiv (of_int 1) (fmul kB (temperature w)) in
  let total_energy :=
    fadd (getPotentialEnergy (context w)) (getKineticEnergy (context w)) in
  fst (_compute_log_probability w)
  = Ok (fold_left fadd (map (specified_term beta (pH w)) actives)
          (fmul (fneg beta) total_energy))
  /\ ((forall x y z : num, fadd (fadd x y) z = fadd x (fadd y z)) ->
      (forall x : num, fadd x (of_int 0) = x) ->
      fst (_compute_log_probability w) = Ok (log_probability_formula w actives)).
Proof.
  intros HkT Hactive beta total_energy.
  assert (Hterm : forall state, reference_term beta (pH w) state
                                = specified_term beta (pH w) state)
    by (intros state; reflexivity).
  assert (H : fst (_compute_log_probability w)
              = Ok (fold_left fadd (map (specified_term beta (pH w)) actives)
                      (fmul (fneg beta) total_energy))).
  { rewrite compute_log_probability_run. simpl.
    unfold log_probability_of, py_truediv. rewrite HkT.
    rewrite (reference_loop_active _ _ _ _ _ _ _ Hactive).
    now rewrite (map_ext _ _ Hterm). }
  split; [exact H|].
  intros Hassoc Hzero. rewrite H, (fold_left_fadd _ Hassoc Hzero). reflexivity.
Qed.
End LogProbability.

(** ** Setting a titration state: success depends on the skeleton only *)

Section Trials.
Context {num ctx rng : Type}.
Context `{FO : FloatOps num} `{EO : EnergyOracle num ctx} `{RS : RandomSource num rng}.
Local Abbreviation World := (World num ctx rng).
Local Abbreviation alike := (alike (num:=num) (ctx:=ctx) (rng:=rng)).

Lemma alike_ret {A B} (V : A -> B -> Prop) a b : V a b -> alike V (ret a) (ret b).
Proof. intros HV w w' Hs a' w1 E. inversion E; subst. exists b, w'. auto. Qed.

Lemma alike_raise {A B} (V : A -> B -> Prop) e c' : alike V (raise e) c'.
Proof. intros w w' Hs a w1 E. discriminate. Qed.

Lemma alike_bind {A B A' B'} (V : A -> B -> Prop) (V' : A' -> B' -> Prop) c c' k k' :
  alike V c c' ->
  (forall a b, V a b -> alike V' (k a) (k' b)) ->
  alike V' (bind c k) (bind c' k').
Proof.
  intros Hc Hk w w' Hs a' w2 E.
  apply bind_inv_ok in E as (a & w1 & E1 & E2).
  destruct (Hc w w' Hs a w1 E1) as (b & w1' & E1' & HV & Hs1).
  destruct (Hk a b HV w1 w1' Hs1 a' w2 E2) as (b' & w2' & E2' & HV' & Hs2).
  exists b', w2'. split; [|auto]. now rewrite (bind_ok _ _ _ _ _ E1').
Qed.

Lemma alike_forM_ {A} (l : list A) (body body' : A -> M World unit) :
  (forall x, alike any (body x) (body' x)) ->
  alike any (forM_ l body) (forM_ l body').
Proof.
  intros Hb. induction l as [|x l IH]; simpl.
  - now apply alike_ret.
  - eapply alike_bind; [apply Hb | intros _ _ _; exact IH].
Qed.

Lemma alike_gets {A B} (V : A -> B -> Prop) (f : World -> A) (g : World -> B) :
  (forall w w', skeleton w = skeleton w' -> V (f w) (g w')) ->
  alike V (gets f) (gets g).
Proof. intros H w w' Hs a w1 E. inversion E; subst. exists (g w'), w'. auto. Qed.

Lemma alike_lift_result {A B} (V : A -> B -> Prop) (r : Result A) (r' : Result B) :
  (forall a, r = Ok a -> exists b, r' = Ok b /\ V a b) ->
  alike V (lift_result r) (lift_result r').
Proof.
  intros H w w' Hs a w1 E. inversion E; subst.
  destruct (H a eq_refl) as (b & -> & HV). exists b, w'. auto.
Qed.

(** The skeleton part comes from the frame lemmas. *)
Lemma alike_of_kept {A B} (V : A -> B -> Prop) c c' :
  respects (kept skeleton) c -> respects (kept skeleton) c' ->
  (forall w w', skeleton w = skeleton w' ->
     forall a w1, c w = (Ok a, w1) -> exists b w1', c' w' = (Ok b, w1') /\ V a b) ->
  alike V c c'.
Proof.
  intros Hc Hc' H w w' Hs a w1 E.
  destruct (H w w' Hs a w1 E) as (b & w1' & E' & HV).
  exists b, w1'. split; [exact E'|]. split; [exact HV|].
  apply (respects_run _ _ _ _ _ Hc) in E. apply (respects_run _ _ _ _ _ Hc') in E'.
  unfold kept in *. congruence.
Qed.

Lemma skeleton_forces (w w' : World) force f :
  skeleton w = skeleton w' ->
  system_forces w !! force = Some f ->
  exists f', system_forces w' !! force = Some f' /\ force_shape f = force_shape f'.
Proof.
  unfold skeleton. intros Hs Hl. inversion Hs as [[Hg Hr Hc Hf Hn]].
  assert (H : (force_shape <$> system_forces w) !! force = Some (force_shape f))
    by now rewrite list_lookup_fmap, Hl.
  change (map force_shape (system_forces w)) with (force_shape <$> system_forces w) in Hf.
  change (map force_shape (system_forces w')) with (force_shape <$> system_forces w') in Hf.
  rewrite Hf, list_lookup_fmap in H.
  destruct (system_forces w' !! force) as [f'|]; [|discriminate].
  simpl in H. inversion H. eauto.
Qed.

Lemma alike_lookup_force force : alike same_shape (lookup_force force) (lookup_force force).
Proof.
  intros w w' Hs f w1 E. unfold lookup_force in *.
  destruct (system_forces w !! force) as [f0|] eqn:Hl; [|discriminate].
  inversion E; subst. destruct (skeleton_forces _ _ _ _ Hs Hl) as (f' & -> & Hf).
  eauto.
Qed.

Lemma shape_nonbonded ps es (f' : Force num) :
  same_shape (NonbondedForce ps es) f' ->
  exists ps' es', f' = NonbondedForce ps' es' /\ length ps' = length ps
    /\ map (fun '(p1, p2, _, _, _) => (p1, p2, tt, tt, tt)) es'
       = map (fun '(p1, p2, _, _, _) => (p1, p2, tt, tt, tt)) es.
Proof.
  unfold same_shape. destruct f' as [ps' es'|ps'|name flag]; simpl; try discriminate.
  intros H. inversion H as [[Hp He]]. exists ps', es'. split; [reflexivity|].
  split; [|congruence].
  apply (f_equal length) in Hp. now rewrite !length_map in Hp.
Qed.

Lemma shape_gbsa ps (f' : Force num) :
  same_shape (GBSAOBCForce ps) f' ->
  exists ps', f' = GBSAOBCForce ps' /\ length ps' = length ps.
Proof.
  unfold same_shape. destruct f' as [ps' es'|ps'|name flag]; simpl; try discriminate.
  intros H. inversion H as [Hp]. exists ps'. split; [reflexivity|].
  apply (f_equal length) in Hp. now rewrite !length_map in Hp.
Qed.

Lemma shape_other name flag (f' : Force num) :
  same_shape (OtherForce name flag) f' -> f' = OtherForce name flag.
Proof.
  unfold same_shape. destruct f' as [ps' es'|ps'|name' flag']; simpl; try discriminate.
  intros H. now inversion H.
Qed.

Lemma omm_get_alike {A B} (l : list A) (l' : list B) i x :
  length l' = length l -> omm_get l i = Ok x -> exists y, omm_get l' i = Ok y.
Proof.
  unfold omm_get. intros Hlen. rewrite Hlen.
  destruct (in_range i (Z.of_nat (length l))) eqn:Hr; [|discriminate]. intros _.
  apply in_range_spec in Hr.
  destruct (l' !! Z.to_nat i) as [y|] eqn:Hl; [eauto|].
  apply lookup_ge_None in Hl. lia.
Qed.

Lemma omm_set_alike {A B} (l l1 : list A) (l' : list B) i v v' :
  length l' = length l -> omm_set l i v = Ok l1 -> exists l1', omm_set l' i v' = Ok l1'.
Proof.
  unfold omm_set. intros Hlen. rewrite Hlen.
  destruct (in_range i (Z.of_nat (length l))); [eauto|discriminate].
Qed.

Lemma omm_get_exception_alike (es es' : list (Z * Z * num * num * num)) i p1 p2 a b c :
  map (fun '(p1, p2, _, _, _) => (p1, p2, tt, tt, tt)) es'
  = map (fun '(p1, p2, _, _, _) => (p1, p2, tt, tt, tt)) es ->
  omm_get es i = Ok (p1, p2, a, b, c) ->
  exists a' b' c', omm_get es' i = Ok (p1, p2, a', b', c').
Proof.
  intros Hm Hg.
  assert (Hlen : length es' = length es).
  { apply (f_equal length) in Hm. now rewrite !length_map in Hm. }
  destruct (omm_get_alike es es' i _ Hlen Hg) as ([[[[q1 q2] a'] b'] c'] & Hg').
  exists a', b', c'. rewrite Hg'.
  unfold omm_get in Hg, Hg'. destruct in_range; [|discriminate].
  destruct in_range; [|discriminate].
  destruct (es !! Z.to_nat i) as [e|] eqn:H1; [|discriminate].
  destruct (es' !! Z.to_nat i) as [e'|] eqn:H2; [|discriminate].
  inversion Hg; inversion Hg'; subst.
  assert (H : (map (fun '(p1, p2, _, _, _) => (p1, p2, tt, tt, tt)) es') !! Z.to_nat i
              = Some (q1, q2, tt, tt, tt)).
  { change (map ?g es') with (g <$> es'). now rewrite list_lookup_fmap, H2. }
  rewrite Hm in H. change (map ?g es) with (g <$> es) in H.
  rewrite list_lookup_fmap, H1 in H. simpl in H. now inversion H.
Qed.

Lemma alike_getParticleParameters force i :
  alike any (getParticleParameters force i) (getParticleParameters force i).
Proof.
  apply alike_of_kept; try (apply kept_getParticleParameters; typeclasses eauto).
  intros w w' Hs r w1 E. unfold getParticleParameters, bind, lookup_force, lift_result in *.
  destruct (system_forces w !! force) as [f|] eqn:Hl; [|discriminate].
  destruct (skeleton_forces _ _ _ _ Hs Hl) as (f' & -> & Hf).
  destruct f as [ps es|ps|name flag]; try discriminate.
  - apply shape_nonbonded in Hf as (ps' & es' & -> & Hlen & _).
    destruct (omm_get ps i) as [x|] eqn:Hg; [|discriminate].
    destruct (omm_get_alike _ ps' _ _ Hlen Hg) as (y & ->). exists y, w'. now split.
  - apply shape_gbsa in Hf as (ps' & -> & Hlen).
    destruct (omm_get ps i) as [x|] eqn:Hg; [|discriminate].
    destruct (omm_get_alike _ ps' _ _ Hlen Hg) as (y & ->). exists y, w'. now split.
Qed.

Lemma alike_setParticleParameters force i a b c a' b' c' :
  alike any (setParticleParameters force i a b c) (setParticleParameters force i a' b' c').
Proof.
  apply alike_of_kept; try (apply kept_setParticleParameters; typeclasses eauto).
  intros w w' Hs r w1 E. unfold setParticleParameters, bind, lookup_force, lift_result in *.
  destruct (system_forces w !! force) as [f|] eqn:Hl; [|discriminate].
  destruct (skeleton_forces _ _ _ _ Hs Hl) as (f' & -> & Hf).
  destruct f as [ps es|ps|name flag]; try discriminate.
  - apply shape_nonbonded in Hf as (ps' & es' & -> & Hlen & _).
    destruct (omm_set ps i (a, b, c)) as [x|] eqn:Hg; [|discriminate].
    destruct (omm_set_alike _ _ ps' _ _ (a', b', c') Hlen Hg) as (y & ->).
    eexists _, _. now split.
  - apply shape_gbsa in Hf as (ps' & -> & Hlen).
    destruct (omm_set ps i (a, b, c)) as [x|] eqn:Hg; [|discriminate].
    destruct (omm_set_alike _ _ ps' _ _ (a', b', c') Hlen Hg) as (y & ->).
    eexists _, _. now split.
Qed.

Lemma alike_print line line' : alike any (print line) (print line').
Proof.
  apply alike_of_kept; try (apply kept_print; typeclasses eauto).
  intros w w' Hs r w1 E. eexists _, _. now split.
Qed.

Lemma alike_force_updateParametersInContext force :
  alike any (force_updateParametersInContext force) (force_updateParametersInContext force).
Proof.
  apply alike_of_kept; try (apply kept_force_updateParametersInContext; typeclasses eauto).
  intros w w' Hs r w1 E.
  unfold force_updateParametersInContext, bind, lookup_force in *.
  destruct (system_forces w !! force) as [f|] eqn:Hl; [|discriminate].
  destruct (skeleton_forces _ _ _ _ Hs Hl) as (f' & -> & Hf).
  eexists _, _. now split.
Qed.

Lemma alike_update_exception force i :
  alike any (update_exception force i) (update_exception force i).
Proof.
  apply alike_of_kept; try (apply kept_update_exception; typeclasses eauto).
  intros w w' Hs r w1 E.
  assert (Hscale : coulomb14scale w = coulomb14scale w')
    by (unfold skeleton in Hs; now inversion Hs).
  unfold update_exception, getExceptionParameters, getParticleParameters,
    setExceptionParameters, bind, lookup_force, lift_result, gets in *.
  destruct (system_forces w !! force) as [f|] eqn:Hl; [|discriminate].
  destruct (skeleton_forces _ _ _ _ Hs Hl) as (f' & Hl' & Hf). rewrite Hl'.
  destruct f as [ps es|ps|name flag]; try discriminate.
  apply shape_nonbonded in Hf as (ps' & es' & -> & Hlen & Hes).
  destruct (omm_get es i) as [[[[[p1 p2] cp] sg] ep]|] eqn:Hg; [|discriminate].
  destruct (omm_get_exception_alike _ es' _ _ _ _ _ _ Hes Hg) as (cp' & sg' & ep' & ->).
  rewrite Hl in E. rewrite Hl'.
  destruct (omm_get ps p1) as [[[c1 s1] e1]|] eqn:Hg1; [|discriminate].
  destruct (omm_get_alike _ ps' _ _ Hlen Hg1) as ([[c1' s1'] e1'] & ->).
  rewrite Hl in E. rewrite Hl'.
  destruct (omm_get ps p2) as [[[c2 s2] e2]|] eqn:Hg2; [|discriminate].
  destruct (omm_get_alike _ ps' _ _ Hlen Hg2) as ([[c2' s2'] e2'] & ->).
  rewrite <- Hscale.
  destruct (coulomb14scale w) as [scale|]; [|discriminate]. simpl in *.
  rewrite Hl in E. rewrite Hl'.
  match type of E with
  | context [omm_set es i ?v] => destruct (omm_set es i v) as [es1|] eqn:Hset; [|discriminate]
  end.
  assert (Hlen' : length es' = length es).
  { apply (f_equal length) in Hes. now rewrite !length_map in Hes. }
  match goal with
  | |- context [omm_set es' i ?v'] =>
      destruct (omm_set_alike _ _ es' _ _ v' Hlen' Hset) as (es1' & ->)
  end.
  eexists _, _. now split.
Qed.

Lemma py_getitem_alike {A B} (l : list A) (l' : list B) i x :
  length l' = length l -> py_getitem l i = Ok x -> exists y, py_getitem l' i = Ok y.
Proof.
  unfold py_getitem, py_index. intros Hlen. rewrite Hlen.
  destruct (in_range i (Z.of_nat (length l))) eqn:H1.
  - intros _. apply in_range_spec in H1.
    destruct (l' !! Z.to_nat i) as [y|] eqn:Hl; [eauto|].
    apply lookup_ge_None in Hl. lia.
  - destruct (in_range (Z.of_nat (length l) + i) (Z.of_nat (length l))) eqn:H2;
      [|discriminate].
    intros _. apply in_range_spec in H2.
    destruct (l' !! Z.to_nat (Z.of_nat (length l) + i)) as [y|] eqn:Hl; [eauto|].
    apply lookup_ge_None in Hl. lia.
Qed.

Lemma alike_update_particle_charge force (f f' : Force num) charges charges' dbg ci ai :
  same_shape f f' ->
  length charges' = length charges ->
  alike any (update_particle_charge force f charges dbg ci ai)
            (update_particle_charge force f' charges' dbg ci ai).
Proof.
  intros Hf Hlen. destruct f as [ps es|ps|name flag].
  - apply shape_nonbonded in Hf as (ps' & es' & -> & _ & _). simpl.
    eapply alike_bind; [apply alike_getParticleParameters|].
    intros [[c s] e] [[c' s'] e'] _.
    eapply alike_bind.
    { apply (alike_lift_result any). intros a Ha.
      destruct (py_getitem_alike _ charges' _ _ Hlen Ha) as (y & ->). exists y. now split. }
    intros x x' _.
    eapply alike_bind.
    { instantiate (1 := any). destruct dbg; [apply alike_print | now apply alike_ret]. }
    intros _ _ _. apply alike_setParticleParameters.
  - apply shape_gbsa in Hf as (ps' & -> & _). simpl.
    destruct dbg; [apply alike_raise|].
    eapply alike_bind; [apply alike_getParticleParameters|].
    intros [[c s] e] [[c' s'] e'] _.
    eapply alike_bind.
    { apply (alike_lift_result any). intros a Ha.
      destruct (py_getitem_alike _ charges' _ _ Hlen Ha) as (y & ->). exists y. now split. }
    intros x x' _. apply alike_setParticleParameters.
  - apply shape_other in Hf as ->. simpl. apply alike_raise.
Qed.

Lemma alike_update_force_parameters force group state state' uc dbg :
  length (charges state') = length (charges state) ->
  alike any (update_force_parameters force group state uc dbg)
            (update_force_parameters force group state' uc dbg).
Proof.
  intros Hlen. unfold update_force_parameters.
  eapply alike_bind; [apply alike_lookup_force|]. intros f f' Hf.
  eapply alike_bind.
  { apply alike_forM_. intros [ci ai]. now apply alike_update_particle_charge. }
  intros _ _ _.
  assert (Hup : has_updateParametersInContext f = has_updateParametersInContext f').
  { destruct f as [ps es|ps|name flag].
    - now apply shape_nonbonded in Hf as (ps' & es' & -> & _ & _).
    - now apply shape_gbsa in Hf as (ps' & -> & _).
    - now apply shape_other in Hf as ->. }
  rewrite <- Hup.
  eapply alike_bind.
  { instantiate (1 := any). destruct f as [ps es|ps|name flag].
    - apply shape_nonbonded in Hf as (ps' & es' & -> & _ & _).
      apply alike_forM_. intros i. apply alike_update_exception.
    - apply shape_gbsa in Hf as (ps' & -> & _). now apply alike_ret.
    - apply shape_other in Hf as ->. now apply alike_ret. }
  intros _ _ _.
  destruct (uc && has_updateParametersInContext f);
    [apply alike_force_updateParametersInContext | now apply alike_ret].
Qed.

Lemma alike_update_forces group state state' uc dbg :
  length (charges state') = length (charges state) ->
  alike any (update_forces group state uc dbg) (update_forces group state' uc dbg).
Proof.
  intros Hlen. unfold update_forces.
  eapply alike_bind.
  { apply (alike_gets eq). intros w w' Hs. unfold skeleton in Hs. now inversion Hs. }
  intros forces ? <-. apply alike_forM_. intros force.
  now apply alike_update_force_parameters.
Qed.

Lemma lookup_in_range {A} (l : list A) i x :
  0 <= i -> l !! Z.to_nat i = Some x -> in_range i (Z.of_nat (length l)) = true.
Proof. intros Hi Hl. apply lookup_lt_Some in Hl. apply in_range_spec. lia. Qed.

Lemma py_getitem_lookup {A} (l : list A) i x :
  0 <= i -> l !! Z.to_nat i = Some x -> py_getitem l i = Ok x.
Proof.
  intros Hi Hl. destruct (py_getitem_in_range l i) as (y & Hy & ->).
  - eapply lookup_in_range; eauto.
  - congruence.
Qed.

Lemma getNumTitrationStates_run (w : World) g group :
  0 <= g -> titrationGroups w !! Z.to_nat g = Some group ->
  getNumTitrationStates g w = (Ok (Z.of_nat (length (titration_states group))), w).
Proof.
  intros Hg Hl. unfold getNumTitrationStates, bind, getNumTitratableGroups, gets, lift_result.
  simpl. rewrite (lookup_in_range _ _ _ Hg Hl). simpl.
  now rewrite (py_getitem_lookup _ _ _ Hg Hl).
Qed.

Lemma getNumTitrationStates_ok (w w' : World) g n :
  getNumTitrationStates g w = (Ok n, w') ->
  w' = w /\ exists group, 0 <= g /\ titrationGroups w !! Z.to_nat g = Some group
                          /\ n = Z.of_nat (length (titration_states group)).
Proof.
  unfold getNumTitrationStates, bind, getNumTitratableGroups, gets, lift_result. simpl.
  destruct (in_range g (Z.of_nat (length (titrationGroups w)))) eqn:Hr; [|discriminate].
  simpl. destruct (py_getitem_in_range _ _ Hr) as (group & Hl & ->).
  intros E. inversion E; subst. apply in_range_spec in Hr.
  split; [reflexivity|]. exists group. repeat split; [lia | exact Hl].
Qed.

Lemma setTitrationState_run (w : World) g s uc dbg group state :
  0 <= g -> titrationGroups w !! Z.to_nat g = Some group ->
  0 <= s -> titration_states group !! Z.to_nat s = Some state ->
  setTitrationState g s uc dbg w
  = bind (update_forces group state uc dbg) (fun _ => store_state g s) w.
Proof.
  intros Hg Hl Hs Hst. unfold setTitrationState.
  unfold bind at 1, getNumTitratableGroups at 1, gets at 1.
  rewrite (lookup_in_range _ _ _ Hg Hl). simpl.
  unfold bind at 1. rewrite (getNumTitrationStates_run _ _ _ Hg Hl).
  rewrite (lookup_in_range _ _ _ Hs Hst). simpl.
  unfold bind at 1, gets at 1. unfold bind at 1, lift_result at 1.
  rewrite (py_getitem_lookup _ _ _ Hg Hl).
  unfold bind at 1, lift_result at 1.
  rewrite (py_getitem_lookup _ _ _ Hs Hst).
  reflexivity.
Qed.

Lemma setTitrationState_ok (w w1 : World) g s uc dbg :
  setTitrationState g s uc dbg w = (Ok tt, w1) ->
  exists group state,
    0 <= g /\ titrationGroups w !! Z.to_nat g = Some group
    /\ 0 <= s /\ titration_states group !! Z.to_nat s = Some state.
Proof.
  intros E. unfold setTitrationState in E.
  unfold bind at 1, getNumTitratableGroups at 1, gets at 1 in E.
  destruct (in_range g (Z.of_nat (length (titrationGroups w)))) eqn:Hr; [|discriminate].
  simpl in E. unfold bind at 1 in E.
  destruct (getNumTitrationStates g w) as [[n|e] w0] eqn:Hn; [|discriminate].
  apply getNumTitrationStates_ok in Hn as (-> & group & Hg & Hl & ->).
  destruct (in_range s (Z.of_nat (length (titration_states group)))) eqn:Hrs;
    [|discriminate].
  destruct (py_getitem_in_range _ _ Hrs) as (state & Hst & _).
  apply in_range_spec in Hrs. exists group, state. repeat split; try assumption; lia.
Qed.

Lemma store_state_run (w : World) g s :
  0 <= g -> (Z.to_nat g < length (titrationStates w))%nat ->
  store_state g s w
  = (Ok tt, set_titrationStates (<[Z.to_nat g := Some s]> (titrationStates w)) w).
Proof.
  intros Hg Hlt. unfold store_state, bind, gets, lift_result, modify.
  rewrite py_setitem_in_range; [reflexivity|]. apply in_range_spec. lia.
Qed.

Lemma alike_store_state g s s' : alike any (store_state g s) (store_state g s').
Proof.
  apply alike_of_kept; try (apply kept_store_state; typeclasses eauto).
  intros w w' Hs r w1 E.
  assert (Hlen : length (titrationStates w') = length (titrationStates w))
    by (unfold skeleton in Hs; now inversion Hs).
  unfold store_state, bind, gets, lift_result in *.
  destruct (py_setitem (titrationStates w) g (Some s)) as [l|] eqn:H1; [|discriminate].
  unfold py_setitem, py_index in *. rewrite Hlen.
  destruct (in_range g (Z.of_nat (length (titrationStates w)))).
  - eexists _, _. now split.
  - destruct (in_range (Z.of_nat (length (titrationStates w)) + g)
                (Z.of_nat (length (titrationStates w)))); [|discriminate].
    eexists _, _. now split.
Qed.

(** If setting the state of a group goes through in some world, setting
    any valid state of that group goes through in every world with the
    same skeleton, provided the states have as many charges. *)
Lemma setTitrationState_alike (w w1 w' : World) g s s' uc dbg group state' :
  skeleton w = skeleton w' ->
  setTitrationState g s uc dbg w = (Ok tt, w1) ->
  titrationGroups w' !! Z.to_nat g = Some group ->
  0 <= s' -> titration_states group !! Z.to_nat s' = Some state' ->
  (forall st st', In st (titration_states group) -> In st' (titration_states group) ->
     length (charges st) = length (charges st')) ->
  exists w1', setTitrationState g s' uc dbg w' = (Ok tt, w1')
              /\ skeleton w1 = skeleton w1'.
Proof.
  intros Hs E Hl' Hs' Hst' Hcharges.
  destruct (setTitrationState_ok _ _ _ _ _ _ E) as (group0 & state & Hg & Hl & Hs0 & Hst).
  assert (group0 = group).
  { assert (titrationGroups w = titrationGroups w')
      by (unfold skeleton in Hs; congruence).
    congruence. }
  subst group0.
  rewrite (setTitrationState_run _ _ _ _ _ _ _ Hg Hl Hs0 Hst) in E.
  rewrite (setTitrationState_run _ _ _ _ _ _ _ Hg Hl' Hs' Hst').
  assert (Hlen : length (charges state') = length (charges state)).
  { apply Hcharges; eapply list_elem_of_In, list_elem_of_lookup_2; eauto. }
  pose proof (alike_bind any any _ _ _ _
                (alike_update_forces group state state' uc dbg Hlen)
                (fun _ _ _ => alike_store_state g s s')) as H.
  destruct (H w w' Hs tt w1 E) as ([] & w1' & E' & _ & Hs1). eauto.
Qed.

Lemma well_formed_length (w : World) :
  well_formed w = true -> length (titrationStates w) = length (titrationGroups w).
Proof.
  unfold well_formed. intros H. apply andb_true_iff in H as [H _].
  now apply Nat.eqb_eq in H.
Qed.

Lemma well_formed_group (w : World) i group active :
  well_formed w = true ->
  titrationGroups w !! i = Some group ->
  titrationStates w !! i = Some active ->
  group_ok group active = true.
Proof.
  unfold well_formed. intros H Hg Ha. apply andb_true_iff in H as [_ H].
  rewrite forallb_forall in H.
  apply (H (group, active)).
  apply list_elem_of_In. apply (list_elem_of_lookup_2 _ i).
  change (combine ?l ?k) with (zip l k). rewrite lookup_zip_with, Hg. simpl. now rewrite Ha.
Qed.

Lemma group_ok_charges (group : TitrationGroup num) active st st' :
  group_ok group active = true ->
  In st (titration_states group) -> In st' (titration_states group) ->
  length (charges st) = length (charges st').
Proof.
  unfold group_ok. intros H. apply andb_true_iff in H as [H _].
  apply andb_true_iff in H as [_ H]. rewrite forallb_forall in H.
  intros H1 H2. apply H in H1, H2. apply Nat.eqb_eq in H1, H2. congruence.
Qed.

Lemma group_ok_active (group : TitrationGroup num) active :
  group_ok group active = true ->
  titration_states group <> [] ->
  exists s state, active = Some s /\ 0 <= s
                  /\ titration_states group !! Z.to_nat s = Some state.
Proof.
  unfold group_ok. intros H Hne. apply andb_true_iff in H as [_ H].
  destruct active as [s|].
  - destruct (py_getitem_in_range _ _ H) as (state & Hl & _).
    apply in_range_spec in H. exists s, state. repeat split; [lia | exact Hl].
  - apply Nat.eqb_eq in H. destruct (titration_states group); [congruence | discriminate].
Qed.

Lemma setTitrationState_states (w w1 : World) g s uc dbg :
  setTitrationState g s uc dbg w = (Ok tt, w1) ->
  0 <= g /\ (Z.to_nat g < length (titrationStates w))%nat
  /\ titrationStates w1 = <[Z.to_nat g := Some s]> (titrationStates w).
Proof.
  intros E.
  destruct (setTitrationState_ok _ _ _ _ _ _ E) as (group & state & Hg & Hl & Hs & Hst).
  rewrite (setTitrationState_run _ _ _ _ _ _ _ Hg Hl Hs Hst) in E.
  apply bind_inv_ok in E as ([] & w0 & E0 & E).
  apply (respects_run (kept titrationStates)) in E0;
    [|apply kept_update_forces; typeclasses eauto].
  unfold kept in E0. unfold store_state, bind, gets, lift_result, modify in E.
  destruct (py_setitem (titrationStates w0) g (Some s)) as [l|] eqn:H1; [|discriminate].
  apply py_setitem_nonneg in H1 as [-> Hlt]; [|exact Hg].
  inversion E; subst. simpl. rewrite E0 in *. auto.
Qed.

Lemma propose_states_ok indices :
  forall (w w1 : World),
    propose_states indices w = (Ok tt, w1) ->
    (forall g, In g indices -> settable w g)
    /\ (forall i, (forall g, In g indices -> Z.to_nat g <> i) ->
          titrationStates w1 !! i = titrationStates w !! i).
Proof.
  induction indices as [|g indices IH]; intros w w1 E.
  - inversion E; subst. split; [intros g []|reflexivity].
  - unfold propose_states in E. simpl in E.
    apply bind_inv_ok in E as ([] & w2 & E1 & E2).
    apply bind_inv_ok in E1 as (n & w' & En & E1).
    pose proof En as Hk. apply (respects_run (kept skeleton)) in Hk;
      [|apply kept_getNumTitrationStates; typeclasses eauto].
    apply getNumTitrationStates_ok in En as (-> & _).
    apply bind_inv_ok in E1 as (s & wc & Ec & E1).
    pose proof Ec as Hc. apply (respects_run (kept skeleton)) in Hc;
      [|apply kept_py_choice; typeclasses eauto].
    pose proof Ec as Hc'. apply (respects_run (kept titrationStates)) in Hc';
      [|apply kept_py_choice; typeclasses eauto].
    pose proof E1 as H2. apply (respects_run (kept skeleton)) in H2;
      [|apply kept_setTitrationState; typeclasses eauto].
    unfold kept in *.
    destruct (IH w2 w1 E2) as [IH1 IH2].
    destruct (setTitrationState_states _ _ _ _ _ _ E1) as (Hg & Hlt & Hst).
    split.
    + intros g' [<-|Hin].
      * exists wc, w2, s. split; [congruence | exact E1].
      * destruct (IH1 g' Hin) as (wa & wb & s' & Hsk & Hset).
        exists wa, wb, s'. split; [congruence | exact Hset].
    + intros i Hi. rewrite IH2 by (intros g' Hin; apply Hi; now right).
      rewrite Hst, Hc'. apply list_lookup_insert_ne. apply Hi. now left.
Qed.

Lemma restore_titration_states_ok (w0 : World) initial indices :
  length initial = length (titrationStates w0) ->
  (forall g, In g indices -> restorable w0 initial g) ->
  forall v : World,
    skeleton v = skeleton w0 ->
    exists v',
      restore_titration_states indices initial v = (Ok tt, v')
      /\ skeleton v' = skeleton w0
      /\ counters v' = counters v
      /\ (forall g, In g indices ->
            titrationStates v' !! Z.to_nat g = initial !! Z.to_nat g)
      /\ (forall i, (forall g, In g indices -> Z.to_nat g <> i) ->
            titrationStates v' !! i = titrationStates v !! i).
Proof.
  intros Hlen. induction indices as [|g indices IH]; intros Hall v Hv.
  - exists v. repeat split; auto. intros g [].
  - destruct (Hall g (or_introl eq_refl))
      as (group & s & state & Hg & Hl & Hi & Hs & Hst & Hch & wa & wb & s' & Hsk & Hset).
    assert (Hgroups : titrationGroups v = titrationGroups w0)
      by (unfold skeleton in Hv; congruence).
    assert (Hsim : skeleton wa = skeleton v) by congruence.
    rewrite <- Hgroups in Hl.
    destruct (setTitrationState_alike _ _ _ _ _ _ _ _ _ _ Hsim Hset Hl Hs Hst Hch)
      as (v1 & E1 & Hs1).
    assert (Hv1 : skeleton v1 = skeleton v).
    { eapply (respects_run (kept skeleton)); [|exact E1].
      apply kept_setTitrationState; typeclasses eauto. }
    destruct (IH (fun g' Hin => Hall g' (or_intror Hin)) v1 ltac:(congruence))
      as (v' & E' & Hs' & Hc' & Hin' & Hout').
    destruct (setTitrationState_states _ _ _ _ _ _ E1) as (_ & Hlt & Hst1).
    exists v'. split.
    { unfold restore_titration_states in *. simpl.
      unfold bind at 1. unfold bind at 1, lift_result at 1.
      rewrite (py_getitem_lookup _ _ _ Hg Hi). rewrite E1. exact E'. }
    split; [exact Hs'|]. split.
    { rewrite Hc'. eapply (respects_run (kept counters)); [|exact E1].
      apply kept_setTitrationState; typeclasses eauto. }
    split.
    + intros g' [<-|Hin]; [|now apply Hin'].
      destruct (decide (Exists (fun g' => Z.to_nat g' = Z.to_nat g) indices)) as [He|Hne].
      * apply Exists_exists in He as (g' & Hin & Heq). rewrite <- Heq.
        apply Hin'. now apply list_elem_of_In.
      * rewrite Hout'.
        -- rewrite Hst1, Hi. now apply list_lookup_insert_eq.
        -- intros g' Hin Heq. apply Hne. apply Exists_exists. exists g'.
           split; [now apply list_elem_of_In | exact Heq].
    + intros i Hi'. rewrite Hout' by (intros g' Hin; apply Hi'; now right).
      rewrite Hst1. apply list_lookup_insert_ne. apply Hi'. now left.
Qed.

Lemma propose_trial_ok (w w1 : World) indices initial log_P_accept :
  propose_trial w = (Ok (indices, initial, log_P_accept), w1) ->
  initial = titrationStates w
  /\ exists wa wb : World,
       skeleton wa = skeleton w
       /\ titrationStates wa = titrationStates w
       /\ propose_states indices wa = (Ok tt, wb)
       /\ titrationStates w1 = titrationStates wb.
Proof.
  intros E. unfold propose_trial, getTitrationStates in E.
  apply bind_inv_ok in E as (ngroups & w_1 & E1 & E).
  apply bind_inv_ok in E as (ndraw & w_2 & E2 & E).
  apply bind_inv_ok in E as (idxs & w_3 & E3 & E).
  apply bind_inv_ok in E as (lpi & w_4 & E4 & E).
  apply bind_inv_ok in E as (dbg & w_5 & E5 & E).
  apply bind_inv_ok in E as ([] & w_6 & E6 & E).
  apply bind_inv_ok in E as (init & w_7 & E7 & E).
  apply bind_inv_ok in E as ([] & w_8 & E8 & E).
  apply bind_inv_ok in E as (final & w_9 & E9 & E).
  apply bind_inv_ok in E as (lpf & w_10 & E10 & E).
  apply bind_inv_ok in E as ([] & w_11 & E11 & E).
  apply bind_inv_ok in E as ([] & w_12 & E12 & E).
  inversion E; subst idxs init log_P_accept w_12. clear E.
  inversion E7; subst initial w_7. clear E7.
  inversion E9; subst final w_9. clear E9.
  inversion E5; subst dbg w_5. clear E5.
  inversion E1; subst ngroups w_1. clear E1.
  pose proof E2 as S2. pose proof E3 as S3. pose proof E4 as S4. pose proof E6 as S6.
  apply (respects_run (kept skeleton)) in S2; [|kept_tac].
  apply (respects_run (kept skeleton)) in S3; [|kept_tac].
  apply (respects_run (kept skeleton)) in S4; [|kept_tac].
  apply (respects_run (kept skeleton)) in S6; [|kept_tac].
  apply (respects_run (kept titrationStates)) in E2; [|kept_tac].
  apply (respects_run (kept titrationStates)) in E3; [|kept_tac].
  apply (respects_run (kept titrationStates)) in E4; [|kept_tac].
  apply (respects_run (kept titrationStates)) in E6; [|kept_tac].
  apply (respects_run (kept titrationStates)) in E10; [|kept_tac].
  apply (respects_run (kept titrationStates)) in E11; [|kept_tac].
  apply (respects_run (kept titrationStates)) in E12; [|kept_tac].
  unfold kept in *.
  split; [congruence|].
  exists w_6, w_8. repeat split; congruence.
Qed.

Lemma settable_restorable (w : World) g :
  well_formed w = true -> settable w g -> restorable w (titrationStates w) g.
Proof.
  intros Hwf Hset. pose proof Hset as (wa & wb & s & Hsk & E).
  destruct (setTitrationState_ok _ _ _ _ _ _ E) as (group & state & Hg & Hl & Hs & Hst).
  assert (Hgroups : titrationGroups wa = titrationGroups w)
    by (unfold skeleton in Hsk; congruence).
  rewrite Hgroups in Hl.
  pose proof (lookup_lt_Some _ _ _ Hl) as Hlt.
  rewrite <- (well_formed_length _ Hwf) in Hlt.
  destruct (lookup_lt_is_Some_2 _ _ Hlt) as (active & Ha).
  pose proof (well_formed_group _ _ _ _ Hwf Hl Ha) as Hok.
  destruct (group_ok_active _ _ Hok) as (s0 & state0 & -> & Hs0 & Hst0).
  { intros Hnil. rewrite Hnil in Hst. now rewrite lookup_nil in Hst. }
  exists group, s0, state0. repeat split; try assumption.
  intros st st'. now apply (group_ok_charges _ _ _ _ Hok).
Qed.

(** C1: in a well-formed world, a trial whose proposal goes through and
    whose Metropolis test rejects ([log_P_accept > 0] is false and the
    draw is not below [exp log_P_accept]) runs to its end: the states of
    the chosen groups are set back, so the vector of active states is the
    one before the trial and every query of an active state answers as
    before, [naccepted] is unchanged and [nattempted] is one more.  With
    [nattempts_per_update = 1] this trial is the whole of [update]. *)
Theorem rejected_trial_restores_states (w w1 : World) indices initial log_P_accept :
  well_formed w = true ->
  propose_trial w = (Ok (indices, initial, log_P_accept), w1) ->
  fltb (of_int 0) log_P_accept = false ->
  fltb (fst (random_random (random_state w1))) (fexp log_P_accept) = false ->
  exists w',
    update_attempt w = (Ok tt, w')
    /\ titrationStates w' = titrationStates w
    /\ (forall g, fst (getTitrationState g w') = fst (getTitrationState g w))
    /\ naccepted w' = naccepted w
    /\ nattempted w' = nattempted w + 1
    /\ (nattempts_per_update w = 1 -> update w = (Ok tt, w')).
Proof.
  intros Hwf E Hpos Hdraw.
  destruct (propose_trial_ok _ _ _ _ _ E) as (-> & wa & wb & Hska & Hsta & Eloop & Hst1).
  pose proof E as Hsk1. apply (respects_run (kept skeleton)) in Hsk1;
    [|apply kept_propose_trial; typeclasses eauto].
  pose proof E as Hc1. apply (respects_run (kept counters)) in Hc1;
    [|apply kept_propose_trial; typeclasses eauto].
  unfold kept in Hsk1, Hc1.
  destruct (propose_states_ok _ _ _ Eloop) as [Hsettable Hothers].
  (* the world in which the states are restored *)
  destruct (random_random (random_state w1)) as [r rs] eqn:Hr. simpl in Hdraw.
  set (w3 := set_random_state rs (set_nattempted (nattempted w1 + 1) w1)).
  assert (Hsk3 : skeleton w3 = skeleton w) by exact Hsk1.
  destruct (restore_titration_states_ok w (titrationStates w) indices eq_refl) with (v := w3)
    as (w' & Erestore & Hsk' & Hc' & Hin & Hout); [|exact Hsk3|].
  { intros g Hg. apply settable_restorable; [exact Hwf|].
    destruct (Hsettable g Hg) as (wc & wd & s & Hskc & Hset).
    exists wc, wd, s. split; [congruence | exact Hset]. }
  assert (Eattempt : update_attempt w = (Ok tt, w')).
  { unfold update_attempt. rewrite (bind_ok _ _ _ _ _ E).
    unfold bind at 1, modify at 1. unfold bind at 1, metropolis_accepts.
    rewrite Hpos. unfold bind at 1, py_random. simpl. rewrite Hr. simpl.
    rewrite Hdraw. exact Erestore. }
  assert (Hstates : titrationStates w' = titrationStates w).
  { apply list_eq. intros i.
    destruct (decide (Exists (fun g => Z.to_nat g = i) indices)) as [He|Hne].
    - apply Exists_exists in He as (g & Hg & <-). apply Hin. now apply list_elem_of_In.
    - assert (Hi : forall g, In g indices -> Z.to_nat g <> i).
      { intros g Hg Heq. apply Hne. apply Exists_exists. exists g.
        split; [now apply list_elem_of_In | exact Heq]. }
      rewrite (Hout i Hi). change (titrationStates w3) with (titrationStates w1).
      rewrite Hst1, (Hothers i Hi). now rewrite Hsta. }
  assert (Hgroups : titrationGroups w' = titrationGroups w)
    by (unfold skeleton in Hsk'; congruence).
  exists w'. split; [exact Eattempt|].
  unfold counters in Hc', Hc1. simpl in Hc'. inversion Hc'. inversion Hc1.
  split; [exact Hstates|]. split; [|repeat split; try congruence].
  - intros g. unfold getTitrationState, bind, getNumTitratableGroups, gets, lift_result.
    simpl. rewrite Hgroups. destruct in_range; simpl; [|reflexivity]. now rewrite Hstates.
  - intros Hn. unfold update. unfold bind at 1, gets at 1. rewrite Hn. simpl.
    rewrite (bind_ok _ _ _ _ _ Eattempt). reflexivity.
Qed.

Lemma getTitrationState_run (w : World) g active :
  0 <= g ->
  (Z.to_nat g < length (titrationGroups w))%nat ->
  titrationStates w !! Z.to_nat g = Some active ->
  getTitrationState g w = (Ok active, w).
Proof.
  intros Hg Hlt Hl. unfold getTitrationState, bind, getNumTitratableGroups, gets, lift_result.
  simpl.
  replace (in_range g (Z.of_nat (length (titrationGroups w)))) with true
    by (symmetry; apply in_range_spec; lia).
  simpl. now rewrite (py_getitem_lookup _ _ _ Hg Hl).
Qed.

(** C4, as the code has it: for a valid group and state,
    [setTitrationState] first pushes the parameters to the forces
    ([update_forces]) and stores the new active state after that.  When
    the push returns, with or without a Context, the call returns, the
    active state of the group is the new one and the query returns it.
    When the push raises, the call raises the same exception from the
    same world and the active states are the ones before the call. *)
Theorem setTitrationState_stores_state_after_push
    (w : World) g s uc dbg group state :
  0 <= g -> titrationGroups w !! Z.to_nat g = Some group ->
  0 <= s -> titration_states group !! Z.to_nat s = Some state ->
  length (titrationStates w) = length (titrationGroups w) ->
  match update_forces group state uc dbg w with
  | (Ok _, w1) =>
      let w' := set_titrationStates (<[Z.to_nat g := Some s]> (titrationStates w)) w1 in
      setTitrationState g s uc dbg w = (Ok tt, w')
      /\ getTitrationState g w' = (Ok (Some s), w')
  | (Raise e, w1) =>
      setTitrationState g s uc dbg w = (Raise e, w1)
      /\ titrationStates w1 = titrationStates w
      /\ fst (getTitrationState g w1) = fst (getTitrationState g w)
  end.
Proof.
  intros Hg Hl Hs Hst Hlen.
  rewrite (setTitrationState_run _ _ _ _ _ _ _ Hg Hl Hs Hst).
  pose proof (lookup_lt_Some _ _ _ Hl) as Hlt.
  destruct (update_forces group state uc dbg w) as [[[]|e] w1] eqn:E.
  - pose proof E as Hk. apply (respects_run (kept titrationStates)) in Hk; [|kept_tac].
    pose proof E as Hk'. apply (respects_run (kept titrationGroups)) in Hk'; [|kept_tac].
    unfold kept in *.
    rewrite (bind_ok _ _ _ _ _ E), store_state_run, Hk by (rewrite ?Hk; lia).
    split; [reflexivity|].
    apply getTitrationState_run; simpl; [lia | rewrite Hk'; lia |].
    apply list_lookup_insert_eq. lia.
  - pose proof E as Hk. apply (respects_run (kept titrationStates)) in Hk; [|kept_tac].
    pose proof E as Hk'. apply (respects_run (kept titrationGroups)) in Hk'; [|kept_tac].
    unfold kept in *.
    rewrite (bind_raise _ _ _ _ _ E). split; [reflexivity|]. split; [exact Hk|].
    unfold getTitrationState, bind, getNumTitratableGroups, gets, lift_result. simpl.
    rewrite Hk'. destruct in_range; simpl; [|reflexivity]. now rewrite Hk.
Qed.
End Trials.

(** ** Well-formedness is an invariant

    A driver without groups is well-formed, and the setup calls, [setTitrationState]
    and [update] keep a well-formed driver well-formed, whether they return
    or raise: the hypothesis of the theorems above holds of every driver
    built through the methods. *)

Section WellFormed.
Context {num ctx rng : Type}.
Context `{FO : FloatOps num} `{EO : EnergyOracle num ctx} `{RS : RandomSource num rng}.
Local Abbreviation World := (World num ctx rng).
Local Abbreviation keeps_well_formed :=
  (keeps_well_formed (num:=num) (ctx:=ctx) (rng:=rng)).
Local Abbreviation ensemble := (ensemble (num:=num) (ctx:=ctx) (rng:=rng)).

Lemma well_formed_iff (w : World) :
  well_formed w = true
  <-> length (titrationStates w) = length (titrationGroups w)
      /\ (forall i group active,
            titrationGroups w !! i = Some group ->
            titrationStates w !! i = Some active ->
            group_ok group active = true).
Proof.
  split.
  - intros H. split; [now apply well_formed_length|].
    intros i group active. now apply well_formed_group.
  - intros [Hlen Hall]. unfold well_formed. apply andb_true_iff. split.
    + now apply Nat.eqb_eq.
    + apply forallb_forall. intros [group active] Hin.
      apply list_elem_of_In, list_elem_of_lookup in Hin as [i Hi].
      change (combine ?l ?k) with (zip l k) in Hi.
      apply lookup_zip_with_Some in Hi as (g & a & E & Hg & Ha).
      inversion E; subst. eauto.
Qed.

#[export] Instance keeps_well_formed_preorder : PreOrder keeps_well_formed.
Proof. split; [intros w; unfold keeps_well_formed; tauto | intros x y z; unfold keeps_well_formed; tauto]. Qed.

#[export] Instance framed_ensemble : Framed ensemble.
Proof. split; reflexivity. Qed.
#[export] Instance framed_history_ensemble : FramedHistory ensemble.
Proof. intros v w. reflexivity. Qed.
#[export] Instance framed_counters_ensemble : FramedCounters ensemble.
Proof. split; reflexivity. Qed.

Lemma respects_ensemble {A} (c : M World A) :
  respects (kept ensemble) c -> respects keeps_well_formed c.
Proof.
  intros H w Hw. specialize (H w). unfold kept, ensemble in H.
  unfold well_formed in *. inversion H as [[Hg Hs]]. now rewrite Hg, Hs.
Qed.

Lemma group_ok_set_active (group : TitrationGroup num) active s state :
  group_ok group active = true ->
  0 <= s -> titration_states group !! Z.to_nat s = Some state ->
  group_ok group (Some s) = true.
Proof.
  unfold group_ok. intros H Hs Hst. apply andb_true_iff in H as [H _]. rewrite H. simpl.
  apply in_range_spec. apply lookup_lt_Some in Hst. lia.
Qed.

Lemma getNumTitrationStates_state (w : World) g :
  snd (getNumTitrationStates g w) = w.
Proof.
  unfold getNumTitrationStates, bind, getNumTitratableGroups, gets, lift_result. simpl.
  destruct in_range; [|reflexivity]. simpl. now destruct py_getitem.
Qed.

Lemma well_formed_setTitrationState g s uc dbg :
  respects keeps_well_formed (setTitrationState g s uc dbg).
Proof.
  intros w Hw.
  destruct (setTitrationState g s uc dbg w) as [r w1] eqn:E. simpl.
  assert (Hgroups : titrationGroups w1 = titrationGroups w).
  { eapply (respects_run (kept titrationGroups)); [|exact E].
    apply kept_setTitrationState; try typeclasses eauto.
    intros v w0 _. reflexivity. }
  destruct r as [[]|e].
  - destruct (setTitrationState_ok _ _ _ _ _ _ E) as (group & state & Hg & Hl & Hs & Hst).
    destruct (setTitrationState_states _ _ _ _ _ _ E) as (_ & Hlt & Hstates).
    apply well_formed_iff in Hw as [Hlen Hall]. apply well_formed_iff.
    rewrite Hgroups, Hstates, length_insert. split; [exact Hlen|].
    intros i group' active Hg' Ha.
    destruct (decide (i = Z.to_nat g)) as [->|Hne].
    + rewrite list_lookup_insert_eq in Ha by lia. inversion Ha; subst.
      rewrite Hl in Hg'. inversion Hg'; subst.
      destruct (lookup_lt_is_Some_2 _ _ Hlt) as (old & Hold).
      eapply group_ok_set_active; eauto.
    + rewrite list_lookup_insert_ne in Ha by congruence. eauto.
  - (* an exception: the active states are as before *)
    assert (Hstates : titrationStates w1 = titrationStates w).
    { unfold setTitrationState in E.
      unfold bind at 1, getNumTitratableGroups at 1, gets at 1 in E.
      destruct (in_range g (Z.of_nat (length (titrationGroups w)))) eqn:Hr;
        [|now inversion E].
      simpl in E. unfold bind at 1 in E.
      pose proof (getNumTitrationStates_state w g) as Hn.
      destruct (getNumTitrationStates g w) as [[n|e'] w0]; simpl in Hn; subst w0;
        [|now inversion E].
      destruct (in_range s n); [|now inversion E]. simpl in E.
      unfold bind at 1, gets at 1 in E. unfold bind at 1, lift_result at 1 in E.
      destruct (py_getitem (titrationGroups w) g) as [group|]; [|now inversion E].
      unfold bind at 1, lift_result at 1 in E.
      destruct (py_getitem (titration_states group) s) as [state|]; [|now inversion E].
      apply bind_inv in E as [([] & w2 & E1 & E2) | (e' & E1 & _)].
      - apply (respects_run (kept titrationStates)) in E1; [|kept_tac].
        unfold store_state, bind, gets, lift_result in E2.
        destruct py_setitem; [discriminate|]. inversion E2; subst. exact E1.
      - eapply (respects_run (kept titrationStates)); [|exact E1]. kept_tac. }
    unfold well_formed in *. now rewrite Hgroups, Hstates.
Qed.

Ltac well_formed_tac :=
  repeat first
    [ apply well_formed_setTitrationState
    | apply respects_ensemble; solve [kept_tac]
    | respects_step ].

Lemma well_formed_update : respects keeps_well_formed update.
Proof.
  unfold update, update_attempt, propose_trial, propose_states, restore_titration_states,
    metropolis_accepts, getTitrationStates.
  well_formed_tac.
  all: intros Hw; exact Hw.
Qed.

Lemma well_formed_no_groups (w : World) :
  titrationGroups w = [] -> titrationStates w = [] -> well_formed w = true.
Proof. intros Hg Hs. unfold well_formed. now rewrite Hg, Hs. Qed.

Lemma well_formed_addTitratableGroup atoms (w w' : World) r :
  addTitratableGroup atoms w = (Ok r, w') -> well_formed w = true -> well_formed w' = true.
Proof.
  intros E Hw. destruct (addTitratableGroup_ok _ _ _ _ E) as (_ & (exceptions & Hg) & _).
  assert (Hs : titrationStates w' = titrationStates w ++ [None]).
  { unfold addTitratableGroup in E.
    apply bind_inv_ok in E as (groups & w0 & H0 & E). inversion H0; subst groups w0.
    apply bind_inv_ok in E as ([] & w1 & H1 & E).
    apply bind_inv_ok in E as (n & w1' & H1' & E). inversion H1'; subst n w1'.
    apply bind_inv_ok in E as (system & w2 & H2 & E).
    apply bind_inv_ok in E as (exceptions' & w3 & H3 & E).
    apply (respects_run (kept titrationStates)) in H1.
    2: { apply respects_forM_; [typeclasses eauto|]. intros group.
         destruct existsb; [apply respects_raise | apply respects_ret]; typeclasses eauto. }
    apply (respects_run (kept titrationStates)) in H2;
      [|apply kept_load_global; typeclasses eauto].
    apply (respects_run (kept titrationStates)) in H3;
      [|apply kept_get14exceptions; typeclasses eauto].
    unfold kept in *. unfold bind, modify, ret in E. simpl in E. inversion E; subst. simpl.
    congruence. }
  apply well_formed_iff in Hw as [Hlen Hall]. apply well_formed_iff.
  rewrite Hg, Hs, !length_app, Hlen. split; [reflexivity|].
  intros i group active Hgi Hai.
  destruct (decide (i < length (titrationGroups w))%nat) as [Hlt|Hge].
  - rewrite lookup_app_l in Hgi by lia. rewrite lookup_app_l in Hai by lia. eauto.
  - rewrite lookup_app_r in Hgi by lia. rewrite lookup_app_r in Hai by lia.
    rewrite Hlen in Hai.
    destruct (i - length (titrationGroups w))%nat; simpl in *; [|discriminate].
    inversion Hgi; inversion Hai; subst. reflexivity.
Qed.

Lemma well_formed_addTitrationState (w w' : World) g pK e ch pc :
  addTitrationState g pK e ch pc w = (Ok tt, w') ->
  well_formed w = true -> well_formed w' = true.
Proof.
  intros E Hw. apply addTitrationState_ok in E as (group & Hg & Hl & Hch & Hlt & ->).
  apply well_formed_iff in Hw as [Hlen Hall]. apply well_formed_iff. simpl.
  rewrite !length_insert. split; [exact Hlen|].
  intros i group' active Hgi Hai.
  destruct (decide (i = Z.to_nat g)) as [->|Hne].
  - rewrite list_lookup_insert_eq in Hgi by (apply lookup_lt_Some in Hl; lia).
    rewrite list_lookup_insert_eq in Hai by lia.
    inversion Hgi; inversion Hai; subst. clear Hgi Hai.
    destruct (lookup_lt_is_Some_2 _ _ Hlt) as (old & Hold).
    pose proof (Hall _ _ _ Hl Hold) as Hok.
    unfold group_ok in *. simpl.
    apply andb_true_iff in Hok as [Hok _]. apply andb_true_iff in Hok as [Hn Hc].
    apply Z.eqb_eq in Hn. rewrite length_app. simpl.
    apply andb_true_iff; split; [apply andb_true_iff; split|].
    + apply Z.eqb_eq. lia.
    + rewrite forallb_app, Hc. simpl. rewrite Hch, Nat.eqb_refl. reflexivity.
    + apply in_range_spec. lia.
  - rewrite list_lookup_insert_ne in Hgi by congruence.
    rewrite list_lookup_insert_ne in Hai by congruence. eauto.
Qed.
(** In a well-formed driver the state counter of every group agrees with
    its list of states. *)
Lemma well_formed_counter_ok (w : World) i group :
  well_formed w = true -> titrationGroups w !! i = Some group -> counter_ok group.
Proof.
  intros Hw Hl. apply well_formed_iff in Hw as [Hlen Hall].
  pose proof (lookup_lt_Some _ _ _ Hl) as Hlt. rewrite <- Hlen in Hlt.
  destruct (lookup_lt_is_Some_2 _ _ Hlt) as (active & Ha).
  specialize (Hall _ _ _ Hl Ha). unfold group_ok in Hall.
  apply andb_true_iff in Hall as [Hall _]. apply andb_true_iff in Hall as [Hn _].
  now apply Z.eqb_eq in Hn.
Qed.
End WellFormed.

(** ** What [update] keeps, counts and records *)

Section Updates.
Context {num ctx rng : Type}.
Context `{FO : FloatOps num} `{EO : EnergyOracle num ctx} `{RS : RandomSource num rng}.
Local Abbreviation World := (World num ctx rng).

#[export] Instance framed_configuration : Framed (@configuration num ctx rng).
Proof.
  split; try reflexivity.
  intros v w Hv. unfold configuration, skeleton. simpl. now rewrite Hv.
Qed.
#[export] Instance framed_states_configuration : FramedStates (@configuration num ctx rng).
Proof. intros v w Hv. unfold configuration, skeleton. simpl. now rewrite Hv. Qed.
#[export] Instance framed_history_configuration : FramedHistory (@configuration num ctx rng).
Proof. intros v w. reflexivity. Qed.
#[export] Instance framed_counters_configuration : FramedCounters (@configuration num ctx rng).
Proof. split; reflexivity. Qed.

#[export] Instance framed_work_history : Framed (@work_history num ctx rng).
Proof. split; reflexivity. Qed.
#[export] Instance framed_states_work_history : FramedStates (@work_history num ctx rng).
Proof. intros v w _. reflexivity. Qed.
#[export] Instance framed_counters_work_history : FramedCounters (@work_history num ctx rng).
Proof. split; reflexivity. Qed.

#[export] Instance history_grows_preorder : PreOrder (@history_grows num ctx rng).
Proof.
  split.
  - intros w. exists []. now rewrite app_nil_r.
  - intros w1 w2 w3 [l1 H1] [l2 H2]. exists (l1 ++ l2). now rewrite H2, H1, app_assoc.
Qed.

Lemma history_grows_of_kept {A} (c : M World A) :
  respects (kept work_history) c -> respects history_grows c.
Proof.
  intros H w. specialize (H w). unfold kept in H. exists []. now rewrite app_nil_r.
Qed.

(** X1: whether it returns or raises, [update] leaves the configuration of
    the driver as it was: the groups with their atoms, states and exception
    indices, the number of active-state entries, temperature, pH, the
    proposal probability, the debug flag, the 1-4 table and scaling factor,
    the number of attempts per update, the forces to update, and the class,
    the numbers of particles and exceptions and the particles of every
    exception of each force of the System. *)
Theorem update_keeps_configuration (w : World) :
  configuration (snd (update w)) = configuration w.
Proof. apply (kept_update configuration). Qed.

Lemma history_grows_propose_trial : respects history_grows propose_trial.
Proof.
  unfold propose_trial, getTitrationStates.
  repeat first
    [ apply history_grows_of_kept; solve [kept_tac]
    | respects_step ].
  all: try (apply history_grows_of_kept; solve [kept_tac]).
  all: try (eexists; reflexivity).
Qed.

Lemma history_grows_update_attempt : respects history_grows update_attempt.
Proof.
  unfold update_attempt.
  repeat first
    [ apply history_grows_propose_trial
    | apply history_grows_of_kept;
      solve [ apply kept_metropolis_accepts; typeclasses eauto
            | apply kept_restore_titration_states; typeclasses eauto ]
    | respects_step ].
  all: exists []; simpl; now rewrite app_nil_r.
Qed.

(** X2: [update] only appends to [work_history], also when it raises half
    way: the history before the call is a prefix of the history after. *)
Theorem update_history_append_only (w : World) :
  exists entries, work_history (snd (update w)) = work_history w ++ entries.
Proof.
  revert w. change (respects history_grows update). unfold update.
  apply respects_bind; [typeclasses eauto | apply respects_gets; typeclasses eauto |].
  intros n. apply respects_repeatM; [typeclasses eauto|].
  apply history_grows_update_attempt.
Qed.

Lemma propose_trial_history (w w1 : World) indices initial log_P_accept :
  propose_trial w = (Ok (indices, initial, log_P_accept), w1) ->
  exists work,
    work_history w1 = work_history w ++ [(titrationStates w, titrationStates w1, work)]
    /\ log_P_accept = fneg work
    /\ length (titrationStates w1) = length (titrationStates w).
Proof.
  intros E. unfold propose_trial, getTitrationStates in E.
  apply bind_inv_ok in E as (ngroups & w_1 & E1 & E).
  apply bind_inv_ok in E as (ndraw & w_2 & E2 & E).
  apply bind_inv_ok in E as (idxs & w_3 & E3 & E).
  apply bind_inv_ok in E as (lpi & w_4 & E4 & E).
  apply bind_inv_ok in E as (dbg & w_5 & E5 & E).
  apply bind_inv_ok in E as ([] & w_6 & E6 & E).
  apply bind_inv_ok in E as (init & w_7 & E7 & E).
  apply bind_inv_ok in E as ([] & w_8 & E8 & E).
  apply bind_inv_ok in E as (final & w_9 & E9 & E).
  apply bind_inv_ok in E as (lpf & w_10 & E10 & E).
  apply bind_inv_ok in E as ([] & w_11 & E11 & E).
  apply bind_inv_ok in E as ([] & w_12 & E12 & E).
  inversion E; subst idxs init log_P_accept w_12. clear E.
  inversion E7; subst initial w_7. clear E7.
  inversion E9; subst final w_9. clear E9.
  inversion E5; subst dbg w_5. clear E5.
  inversion E1; subst ngroups w_1. clear E1.
  inversion E11; subst w_11. clear E11.
  pose proof E2 as S2. pose proof E3 as S3. pose proof E4 as S4. pose proof E6 as S6.
  pose proof E8 as S8. pose proof E10 as S10. pose proof E12 as S12.
  pose proof E2 as T2. pose proof E3 as T3. pose proof E4 as T4. pose proof E6 as T6.
  pose proof E8 as T8. pose proof E10 as T10. pose proof E12 as T12.
  apply (respects_run (kept skeleton)) in S2; [|kept_tac].
  apply (respects_run (kept skeleton)) in S3; [|kept_tac].
  apply (respects_run (kept skeleton)) in S4; [|kept_tac].
  apply (respects_run (kept skeleton)) in S6; [|kept_tac].
  apply (respects_run (kept skeleton)) in S8; [|kept_tac].
  apply (respects_run (kept work_history)) in T2; [|kept_tac].
  apply (respects_run (kept work_history)) in T3; [|kept_tac].
  apply (respects_run (kept work_history)) in T4; [|kept_tac].
  apply (respects_run (kept work_history)) in T6; [|kept_tac].
  apply (respects_run (kept work_history)) in T8; [|kept_tac].
  apply (respects_run (kept work_history)) in T10; [|kept_tac].
  apply (respects_run (kept work_history)) in T12; [|kept_tac].
  apply (respects_run (kept titrationStates)) in E2; [|kept_tac].
  apply (respects_run (kept titrationStates)) in E3; [|kept_tac].
  apply (respects_run (kept titrationStates)) in E4; [|kept_tac].
  apply (respects_run (kept titrationStates)) in E6; [|kept_tac].
  apply (respects_run (kept titrationStates)) in E10; [|kept_tac].
  apply (respects_run (kept titrationStates)) in E12; [|kept_tac].
  unfold kept in *. simpl in *.
  eexists. split; [|split; [reflexivity|]].
  - rewrite T12. simpl. rewrite T10, T8, T6, T4, T3, T2.
    do 3 f_equal; congruence.
  - rewrite E12, E10.
    assert (H : forall a b : World, skeleton a = skeleton b ->
                length (titrationStates a) = length (titrationStates b)).
    { intros a b Hab. unfold skeleton in Hab. now inversion Hab. }
    rewrite (H _ _ S8), (H _ _ S6), (H _ _ S4), (H _ _ S3), (H _ _ S2). reflexivity.
Qed.

(** What a trial that runs to its end has done to the statistics. *)
Lemma update_attempt_ok (w w' : World) :
  update_attempt w = (Ok tt, w') ->
  nattempted w' = nattempted w + 1
  /\ naccepted w <= naccepted w' <= naccepted w + 1
  /\ exists proposed work,
       work_history w' = work_history w ++ [(titrationStates w, proposed, work)]
       /\ length proposed = length (titrationStates w).
Proof.
  intros E. unfold update_attempt in E.
  apply bind_inv_ok in E as ([[indices initial] lpa] & w1 & E1 & E).
  apply bind_inv_ok in E as ([] & w2 & E2 & E). inversion E2; subst w2. clear E2.
  apply bind_inv_ok in E as (accept & w3 & E3 & E).
  destruct (propose_trial_history _ _ _ _ _ E1) as (work & Hh & _ & Hlen).
  apply (respects_run (kept counters)) in E1; [|apply kept_propose_trial; typeclasses eauto].
  pose proof E3 as H3. apply (respects_run (kept work_history)) in H3;
    [|apply kept_metropolis_accepts; typeclasses eauto].
  apply (respects_run (kept counters)) in E3;
    [|apply kept_metropolis_accepts; typeclasses eauto].
  unfold kept, counters in *. simpl in *.
  inversion E1 as [[Ha1 Hn1]]. inversion E3 as [[Ha3 Hn3]].
  destruct accept.
  - inversion E; subst w'. simpl. split; [congruence|]. split; [lia|].
    exists (titrationStates w1), work. split; [congruence | exact Hlen].
  - pose proof E as Hh4. apply (respects_run (kept work_history)) in Hh4;
      [|apply kept_restore_titration_states; typeclasses eauto].
    apply (respects_run (kept counters)) in E;
      [|apply kept_restore_titration_states; typeclasses eauto].
    unfold kept, counters in *. inversion E as [[Ha4 Hn4]].
    split; [congruence|]. split; [lia|].
    exists (titrationStates w1), work. split; [congruence | exact Hlen].
Qed.

Lemma repeat_update_attempt_ok (n : nat) :
  forall w w' : World,
    repeatM n update_attempt w = (Ok tt, w') ->
    nattempted w' = nattempted w + Z.of_nat n
    /\ naccepted w <= naccepted w' <= naccepted w + Z.of_nat n
    /\ exists entries,
         work_history w' = work_history w ++ entries
         /\ length entries = n
         /\ Forall (fun '(before, proposed, _) =>
                      length before = length (titrationStates w)
                      /\ length proposed = length (titrationStates w)) entries.
Proof.
  induction n as [|n IH]; intros w w' E.
  - inversion E; subst. split; [lia|]. split; [lia|].
    exists []. rewrite app_nil_r. repeat split. constructor.
  - simpl in E. apply bind_inv_ok in E as ([] & w1 & E1 & E).
    destruct (update_attempt_ok _ _ E1) as (Ha & Hc & proposed & work & Hh & Hlen).
    destruct (IH _ _ E) as (Ha' & Hc' & entries & Hh' & Hn & Hall).
    assert (Hk : length (titrationStates w1) = length (titrationStates w)).
    { apply (respects_run (kept skeleton)) in E1;
        [|apply kept_update_attempt; typeclasses eauto].
      unfold kept, skeleton in E1. now inversion E1. }
    split; [lia|]. split; [lia|].
    exists ((titrationStates w, proposed, work) :: entries).
    split; [rewrite Hh', Hh, <- app_assoc; reflexivity|].
    split; [simpl; congruence|].
    constructor; [auto|].
    eapply Forall_impl; [exact Hall|]. intros [[b p] x]. simpl. rewrite Hk. auto.
Qed.

(** X3: when [update] returns it has run [nattempts_per_update] trials
    (none for a negative number): [nattempted] has grown by that number,
    [naccepted] by at most that number, and the history has one new entry
    per trial, each with two state vectors as long as the vector of active
    states. *)
Theorem update_runs_every_attempt (w w' : World) :
  update w = (Ok tt, w') ->
  let n := Z.max 0 (nattempts_per_update w) in
  nattempted w' = nattempted w + n
  /\ naccepted w <= naccepted w' <= naccepted w + n
  /\ exists entries,
       work_history w' = work_history w ++ entries
       /\ Z.of_nat (length entries) = n
       /\ Forall (fun '(before, proposed, _) =>
                    length before = length (titrationStates w)
                    /\ length proposed = length (titrationStates w)) entries.
Proof.
  intros E n. unfold update in E. apply bind_inv_ok in E as (k & w0 & E0 & E).
  inversion E0; subst k w0. clear E0.
  destruct (repeat_update_attempt_ok _ _ _ E) as (Ha & Hc & entries & Hh & Hn & Hall).
  subst n. replace (Z.max 0 (nattempts_per_update w))
    with (Z.of_nat (Z.to_nat (nattempts_per_update w))) by lia.
  split; [exact Ha|]. split; [exact Hc|].
  exists entries. split; [exact Hh|]. split; [now rewrite Hn | exact Hall].
Qed.

(** X4: a trial whose proposal goes through and whose Metropolis test
    accepts ([log_P_accept > 0], or the draw is below [exp log_P_accept])
    returns with the proposed states, the forces and the Context as the
    proposal left them, one more attempt and one more acceptance.  With
    [nattempts_per_update = 1] this trial is the whole of [update]. *)
Theorem accepted_trial_keeps_proposal (w w1 : World) indices initial log_P_accept :
  propose_trial w = (Ok (indices, initial, log_P_accept), w1) ->
  fltb (of_int 0) log_P_accept = true
  \/ fltb (fst (random_random (random_state w1))) (fexp log_P_accept) = true ->
  exists w',
    update_attempt w = (Ok tt, w')
    /\ titrationStates w' = titrationStates w1
    /\ system_forces w' = system_forces w1
    /\ context w' = context w1
    /\ naccepted w' = naccepted w + 1
    /\ nattempted w' = nattempted w + 1
    /\ (nattempts_per_update w = 1 -> update w = (Ok tt, w')).
Proof.
  intros E Hacc.
  pose proof E as Hc. apply (respects_run (kept counters)) in Hc;
    [|apply kept_propose_trial; typeclasses eauto].
  unfold kept, counters in Hc. inversion Hc as [[Hatt Hnacc]].
  assert (exists w', update_attempt w = (Ok tt, w')
            /\ ((exists r, w' = set_naccepted (naccepted w1 + 1)
                                 (set_random_state r (set_nattempted (nattempted w1 + 1) w1)))
                          \/ w' = set_naccepted (naccepted w1 + 1)
                                    (set_nattempted (nattempted w1 + 1) w1)))
    as (w' & Ew' & Hw').
  { unfold update_attempt. rewrite (bind_ok _ _ _ _ _ E).
    unfold bind at 1, modify at 1. unfold bind at 1, metropolis_accepts.
    destruct (fltb (of_int 0) log_P_accept) eqn:Hpos.
    - simpl. eexists. split; [reflexivity|]. right. reflexivity.
    - destruct Hacc as [Hacc|Hacc]; [discriminate|].
      unfold bind at 1, py_random. simpl.
      destruct (random_random (random_state w1)) as [r rs] eqn:Hr. simpl in *.
      rewrite Hacc. simpl. eexists. split; [reflexivity|]. left. eexists. reflexivity. }
  exists w'. split; [exact Ew'|].
  assert (titrationStates w' = titrationStates w1 /\ system_forces w' = system_forces w1
          /\ context w' = context w1 /\ naccepted w' = naccepted w1 + 1
          /\ nattempted w' = nattempted w1 + 1) as (H1 & H2 & H3 & H4 & H5).
  { destruct Hw' as [[r ->]| ->]; simpl; auto. }
  repeat split; try congruence.
  intros Hn. unfold update. unfold bind at 1, gets at 1. rewrite Hn. simpl.
  rewrite (bind_ok _ _ _ _ _ Ew'). reflexivity.
Qed.

(** X5: on a driver without groups, [update] raises [ValueError] (a
    sample of one from an empty population, line 627) and changes nothing
    as soon as one attempt is asked for, and returns at once for zero or
    fewer attempts, which is what [setNumAttemptsPerUpdate(None)] sets. *)
Theorem update_without_groups (w : World) :
  titrationGroups w = [] ->
  (0 < nattempts_per_update w -> update w = (Raise ValueError, w))
  /\ (nattempts_per_update w <= 0 -> update w = (Ok tt, w))
  /\ (setNumAttemptsPerUpdate None ;; update) w = (Ok tt, set_nattempts_per_update 0 w).
Proof.
  intros Hg. split; [|split].
  - intros Hn. unfold update. unfold bind at 1, gets at 1.
    destruct (Z.to_nat (nattempts_per_update w)) as [|n] eqn:En; [lia|].
    simpl. unfold update_attempt, propose_trial.
    unfold bind, getNumTitratableGroups, gets, ret, py_sample. simpl.
    rewrite Hg. simpl. reflexivity.
  - intros Hn. unfold update. unfold bind at 1, gets at 1.
    replace (Z.to_nat (nattempts_per_update w)) with 0%nat by lia. reflexivity.
  - unfold setNumAttemptsPerUpdate, update, bind, getNumTitratableGroups, gets, modify.
    simpl. now rewrite Hg.
Qed.
End Updates.

(** ** Edge cases: groups without states, unbound names, indices out of range *)

Section Edges.
Context {num ctx rng : Type}.
Context `{FO : FloatOps num} `{EO : EnergyOracle num ctx} `{RS : RandomSource num rng}.
Local Abbreviation World := (World num ctx rng).

Lemma reference_loop_stateless beta total_energy pH_value
    (pairs : list (TitrationGroup num * option Z)) :
  forall log_P,
    Forall (fun '(group, active) => group_ok group active = true) pairs ->
    Exists (fun '(group, _) => titration_states group = []) pairs ->
    fst (reference_loop beta total_energy pH_value pairs log_P) = Raise TypeError.
Proof.
  induction pairs as [|[group active] pairs IH]; intros log_P Hok Hex.
  - inversion Hex.
  - inversion Hok as [|? ? Hhead Htail]; subst. simpl.
    destruct active as [s|]; [|reflexivity].
    unfold group_ok in Hhead. apply andb_true_iff in Hhead as [_ Hr].
    destruct (py_getitem_in_range _ _ Hr) as (state & Hl & ->).
    inversion Hex as [? ? Hnil|? ? Hex']; subst.
    + rewrite Hnil in Hl. now rewrite lookup_nil in Hl.
    + specialize (IH (fadd log_P (reference_term beta pH_value state)) Htail Hex').
      destruct reference_loop as [r lines]. exact IH.
Qed.

Lemma log_probability_stateless (w : World) :
  well_formed w = true ->
  feqb (fmul kB (temperature w)) (of_int 0) = false ->
  (exists group, In group (titrationGroups w) /\ titration_states group = []) ->
  fst (log_probability_of w) = Raise TypeError.
Proof.
  intros Hw HkT (group & Hin & Hnil).
  unfold log_probability_of, py_truediv. rewrite HkT.
  apply reference_loop_stateless.
  - unfold well_formed in Hw. apply andb_true_iff in Hw as [_ Hw].
    rewrite forallb_forall in Hw. apply Forall_forall. intros [g a] Hga.
    apply (Hw (g, a)). now apply list_elem_of_In.
  - apply well_formed_length in Hw.
    apply list_elem_of_In, list_elem_of_lookup in Hin as [i Hi].
    pose proof (lookup_lt_Some _ _ _ Hi) as Hlt. rewrite <- Hw in Hlt.
    destruct (lookup_lt_is_Some_2 _ _ Hlt) as (active & Ha).
    apply Exists_exists. exists (group, active). split; [|exact Hnil].
    apply (list_elem_of_lookup_2 _ i).
    change (combine ?l ?k) with (zip l k). rewrite lookup_zip_with, Hi. simpl. now rewrite Ha.
Qed.

(** X6: in a well-formed driver at a nonzero thermal energy, a group
    without titration states (added, no state added yet) makes
    [_compute_log_probability] raise [TypeError] (its active state is
    [None], line 701), and with it every [update] of at least one attempt;
    the failed [update] has drawn random numbers and printed, nothing else. *)
Theorem update_needs_a_state_in_every_group (w : World) :
  well_formed w = true ->
  feqb (fmul kB (temperature w)) (of_int 0) = false ->
  (exists group, In group (titrationGroups w) /\ titration_states group = []) ->
  0 < nattempts_per_update w ->
  fst (_compute_log_probability w) = Raise TypeError
  /\ fst (update w) = Raise TypeError
  /\ only_drew_and_printed w (snd (update w)).
Proof.
  intros Hw HkT Hex Hn.
  pose proof (log_probability_stateless w Hw HkT Hex) as Hlp.
  split; [now rewrite compute_log_probability_run|].
  assert (Hgroups : 1 <= Z.of_nat (length (titrationGroups w))).
  { destruct Hex as (group & Hin & _). destruct (titrationGroups w); [destruct Hin|].
    simpl. lia. }
  assert (Htrial : exists r out,
            propose_trial w = (Raise TypeError, set_stdout out (set_random_state r w))).
  { unfold propose_trial. unfold bind at 1, getNumTitratableGroups at 1, gets at 1.
    destruct (1 <? Z.of_nat (length (titrationGroups w))) eqn:Hmany.
    - apply Z.ltb_lt in Hmany.
      unfold bind at 1. unfold bind at 1, py_random at 1.
      destruct (random_random (random_state w)) as [x r] eqn:Hx.
      unfold bind at 1, gets at 1, ret at 1.
      set (ndraw := if fltb x _ then 2 else 1).
      assert (Hdraw : (Z.of_nat (length (titrationGroups w)) <? ndraw) = false).
      { apply Z.ltb_ge. subst ndraw. destruct fltb; lia. }
      unfold bind at 1, py_sample at 1. cbn [titrationGroups set_random_state].
      rewrite Hdraw. cbn [random_state set_random_state].
      destruct random_sample as [l r'].
      unfold bind at 1. rewrite compute_log_probability_run.
      change (log_probability_of (set_random_state r' (set_random_state r w)))
        with (log_probability_of w).
      rewrite Hlp. eexists r', _. reflexivity.
    - unfold bind at 1, ret at 1.
      unfold bind at 1, py_sample at 1.
      replace (Z.of_nat (length (titrationGroups w)) <? 1) with false
        by (symmetry; apply Z.ltb_ge; lia).
      destruct random_sample as [l r'].
      unfold bind at 1. rewrite compute_log_probability_run.
      change (log_probability_of (set_random_state r' w)) with (log_probability_of w).
      rewrite Hlp. eexists r', _. reflexivity. }
  destruct Htrial as (r & out & Htrial).
  assert (Hupdate : update w = (Raise TypeError, set_stdout out (set_random_state r w))).
  { unfold update. unfold bind at 1, gets at 1.
    destruct (Z.to_nat (nattempts_per_update w)) as [|n] eqn:En; [lia|].
    simpl. unfold update_attempt.
    erewrite bind_raise; [reflexivity|].
    erewrite bind_raise; [reflexivity|]. exact Htrial. }
  rewrite Hupdate. split; [reflexivity|]. exists r, out. reflexivity.
Qed.

Lemma overlap_check_passes atoms (groups : list (TitrationGroup num)) (w : World) :
  ~ (exists a group, In group groups /\ In a atoms /\ In a (atom_indices group)) ->
  forM_ groups (fun group =>
    if existsb (fun a => mem_Z a (atom_indices group)) atoms
    then raise OverlapError else ret tt) w = (Ok tt, w).
Proof.
  induction groups as [|g groups IH]; intros Hno; [reflexivity|].
  simpl. unfold bind.
  destruct (existsb (fun a => mem_Z a (atom_indices g)) atoms) eqn:Hex.
  - exfalso. apply Hno. apply existsb_exists in Hex as (a & Ha & Hm).
    apply mem_Z_In in Hm. exists a, g. simpl. auto.
  - simpl. apply IH. intros (a & group & Hin & Ha & Hg). apply Hno.
    exists a, group. simpl. auto.
Qed.

Lemma last_nonbonded_none (fs : list (Force num)) :
  forall position,
    (forall ps es, ~ In (NonbondedForce ps es) fs) ->
    last_nonbonded fs position None = None.
Proof.
  induction fs as [|f fs IH]; intros position Hno; [reflexivity|].
  destruct f as [ps es|ps|name flag]; simpl.
  - exfalso. apply (Hno ps es). now left.
  - apply IH. intros ps' es' Hin. apply (Hno ps' es'). now right.
  - apply IH. intros ps' es' Hin. apply (Hno ps' es'). now right.
Qed.

(** X7: [addTitratableGroup] reads the module-level name [system] (line
    411).  For atoms that overlap no group it raises [NameError] when the
    module was imported, not run as a script, and [KeyError] when the
    script's System has no NonbondedForce; the world is left as it was. *)
Theorem addTitratableGroup_needs_the_script_system (w : World) atoms :
  ~ overlaps atoms w ->
  (run_as_script w = false ->
     addTitratableGroup atoms w = (Raise (NameError "system"), w))
  /\ (run_as_script w = true ->
      (forall ps es, ~ In (NonbondedForce ps es) (system_forces w)) ->
      addTitratableGroup atoms w = (Raise (KeyError "NonbondedForce"), w)).
Proof.
  intros Hno.
  pose proof (overlap_check_passes atoms (titrationGroups w) w Hno) as Hcheck.
  split.
  - intros Hscript. unfold addTitratableGroup.
    unfold bind at 1, gets at 1. unfold bind at 1. rewrite Hcheck.
    unfold bind at 1, gets at 1. unfold bind at 1, load_global. rewrite Hscript.
    reflexivity.
  - intros Hscript Hnb. unfold addTitratableGroup.
    unfold bind at 1, gets at 1. unfold bind at 1. rewrite Hcheck.
    unfold bind at 1, gets at 1. unfold bind at 1, load_global. rewrite Hscript.
    simpl. unfold bind at 1, get14exceptions.
    unfold bind at 1, nonbonded_force_of_system.
    rewrite (last_nonbonded_none _ _ Hnb). reflexivity.
Qed.

(** X8: a group index outside [range(ngroups)], negative ones included
    (no counting from the end), makes [getNumTitrationStates],
    [getTitrationState] and [setTitrationState] raise the invalid-group
    error; a state index outside the states of a valid group makes
    [setTitrationState] raise the invalid-state error.  The checks come
    before any change: the world is left as it was. *)
Theorem invalid_indices_are_rejected (w : World) (g : Z) :
  (~ (0 <= g < Z.of_nat (length (titrationGroups w))) ->
     getNumTitrationStates g w = (Raise InvalidGroupError, w)
     /\ getTitrationState g w = (Raise InvalidGroupError, w)
     /\ forall s uc dbg, setTitrationState g s uc dbg w = (Raise InvalidGroupError, w))
  /\ (forall group s uc dbg,
        0 <= g -> titrationGroups w !! Z.to_nat g = Some group ->
        ~ (0 <= s < Z.of_nat (length (titration_states group))) ->
        setTitrationState g s uc dbg w = (Raise InvalidStateError, w)).
Proof.
  split.
  - intros Hg. apply in_range_false in Hg.
    unfold getNumTitrationStates, getTitrationState, setTitrationState, bind,
      getNumTitratableGroups, gets.
    rewrite Hg. simpl. auto.
  - intros group s uc dbg Hg Hl Hs. apply in_range_false in Hs.
    unfold setTitrationState. unfold bind at 1, getNumTitratableGroups at 1, gets at 1.
    rewrite (lookup_in_range _ _ _ Hg Hl). simpl.
    unfold bind at 1. rewrite (getNumTitrationStates_run _ _ _ Hg Hl).
    rewrite Hs. reflexivity.
Qed.
End Edges.

(** ** Well-formedness through every method *)

Section Invariant.
Context {num ctx rng : Type}.
Context `{FO : FloatOps num} `{EO : EnergyOracle num ctx} `{RS : RandomSource num rng}.
Local Abbreviation World := (World num ctx rng).
Local Abbreviation keeps_well_formed :=
  (keeps_well_formed (num:=num) (ctx:=ctx) (rng:=rng)).
Local Abbreviation ensemble := (ensemble (num:=num) (ctx:=ctx) (rng:=rng)).

Lemma addTitratableGroup_raise atoms (w w' : World) e :
  addTitratableGroup atoms w = (Raise e, w') -> ensemble w' = ensemble w.
Proof.
  intros E. unfold addTitratableGroup in E.
  apply bind_inv in E as [(groups & w0 & E0 & E) | (e' & E0 & _)]; [|now inversion E0].
  inversion E0; subst groups w0. clear E0.
  assert (Hcheck : respects (kept ensemble)
            (forM_ (titrationGroups w) (fun group : TitrationGroup num =>
               if existsb (fun a => mem_Z a (atom_indices group)) atoms
               then raise OverlapError else ret tt))).
  { apply respects_forM_; [typeclasses eauto|]. intros group.
    destruct existsb; [apply respects_raise | apply respects_ret]; typeclasses eauto. }
  apply bind_inv in E as [([] & w1 & E1 & E) | (e' & E1 & _)];
    [|exact (respects_run _ _ _ _ _ Hcheck E1)].
  apply (respects_run _ _ _ _ _ Hcheck) in E1.
  apply bind_inv in E as [(n & w1' & E1' & E) | (e' & E1' & _)]; [|now inversion E1'].
  inversion E1'; subst n w1'. clear E1'.
  apply bind_inv in E as [(system & w2 & E2 & E) | (e' & E2 & _)].
  2: { apply (respects_run (kept ensemble)) in E2;
         [|apply kept_load_global; typeclasses eauto].
       unfold kept in *. congruence. }
  apply (respects_run (kept ensemble)) in E2; [|apply kept_load_global; typeclasses eauto].
  apply bind_inv in E as [(exceptions & w3 & E3 & E) | (e' & E3 & _)].
  - unfold bind, modify, ret in E. discriminate.
  - apply (respects_run (kept ensemble)) in E3;
      [|apply kept_get14exceptions; typeclasses eauto].
    unfold kept in *. congruence.
Qed.

Lemma addTitrationState_raise (w w' : World) g pK e ch pc err :
  length (titrationStates w) = length (titrationGroups w) ->
  addTitrationState g pK e ch pc w = (Raise err, w') -> w' = w.
Proof.
  intros Hlen H. unfold addTitrationState, update_group, getNumTitratableGroups in H.
  unfold bind, gets, lift_result, modify in H. simpl in H.
  destruct (in_range g (Z.of_nat (length (titrationGroups w)))) eqn:Hr; simpl in H;
    [|now inversion H].
  destruct (py_getitem_in_range _ _ Hr) as (group & Hl & Hg). rewrite Hg in H.
  destruct (Z.of_nat (length ch) =? Z.of_nat (length (atom_indices group))) eqn:Ec;
    simpl in H; [|now inversion H].
  rewrite Hg, (py_setitem_in_range _ _ _ Hr) in H. simpl in H.
  rewrite py_getitem_insert in H by exact Hr. simpl in H.
  rewrite py_setitem_in_range in H by now rewrite Hlen.
  rewrite py_setitem_in_range in H by now rewrite length_insert.
  discriminate.
Qed.

(** X9: a well-formed driver (as many active-state entries as groups, per
    group a state counter equal to the number of states, one charge per
    atom in every state, and an active state that is a valid index, or
    [None] without states) stays well-formed through [addTitratableGroup],
    [addTitrationState], [setTitrationState] and [update], whether they
    return or raise. *)
Theorem well_formedness_is_invariant (w : World) :
  well_formed w = true ->
  (forall atoms, well_formed (snd (addTitratableGroup atoms w)) = true)
  /\ (forall g pK e ch pc, well_formed (snd (addTitrationState g pK e ch pc w)) = true)
  /\ (forall g s uc dbg, well_formed (snd (setTitrationState g s uc dbg w)) = true)
  /\ well_formed (snd (update w)) = true.
Proof.
  intros Hw. split; [|split; [|split]].
  - intros atoms. destruct (addTitratableGroup atoms w) as [[r|e] w'] eqn:E; simpl.
    + eapply well_formed_addTitratableGroup; eauto.
    + apply addTitratableGroup_raise in E. unfold ensemble in E. inversion E as [[Hg Hs]].
      unfold well_formed in *. now rewrite Hg, Hs.
  - intros g pK e ch pc.
    destruct (addTitrationState g pK e ch pc w) as [[[]|err] w'] eqn:E; simpl.
    + eapply well_formed_addTitrationState; eauto.
    + apply addTitrationState_raise in E; [now subst | now apply well_formed_length].
  - intros g s uc dbg. now apply well_formed_setTitrationState.
  - now apply well_formed_update.
Qed.
End Invariant.

(** ** What [setTitrationState] writes to the forces *)

Section Push.
Context {num ctx rng : Type}.
Context `{FO : FloatOps num} `{EO : EnergyOracle num ctx} `{RS : RandomSource num rng}.
Local Abbreviation World := (World num ctx rng).

Lemma floor_nonzero_idempotent (x : num) :
  floor_nonzero (floor_nonzero x) = floor_nonzero x.
Proof.
  unfold floor_nonzero.
  destruct (feqb (fmul (of_int 2) x) x) eqn:E.
  - now destruct (feqb (fmul (of_int 2) float_epsilon) float_epsilon).
  - now rewrite E.
Qed.

Lemma omm_get_ok {A} (l : list A) i x :
  omm_get l i = Ok x -> 0 <= i /\ l !! Z.to_nat i = Some x.
Proof.
  unfold omm_get. destruct (in_range i (Z.of_nat (length l))) eqn:Hr; [|discriminate].
  apply in_range_spec in Hr. destruct (l !! Z.to_nat i); [|discriminate].
  intros E. inversion E. split; [lia | reflexivity].
Qed.

Lemma omm_get_lookup {A} (l : list A) i x :
  0 <= i -> l !! Z.to_nat i = Some x -> omm_get l i = Ok x.
Proof.
  intros Hi Hl. unfold omm_get. rewrite (lookup_in_range _ _ _ Hi Hl). now rewrite Hl.
Qed.

Lemma omm_set_ok {A} (l l' : list A) i v :
  omm_set l i v = Ok l' ->
  0 <= i /\ (Z.to_nat i < length l)%nat /\ l' = <[Z.to_nat i := v]> l.
Proof.
  unfold omm_set. destruct (in_range i (Z.of_nat (length l))) eqn:Hr; [|discriminate].
  apply in_range_spec in Hr. intros E. inversion E. repeat split; lia.
Qed.

Lemma getParticleParameters_ok force i (w w' : World) r :
  getParticleParameters force i w = (Ok r, w') ->
  w' = w /\ exists f ps,
    system_forces w !! force = Some f /\ particles_of f = Some ps /\ omm_get ps i = Ok r.
Proof.
  unfold getParticleParameters, bind, lookup_force, lift_result.
  destruct (system_forces w !! force) as [[ps es|ps|name flag]|]; try discriminate;
    destruct (omm_get ps i) eqn:Hg; intros E; inversion E; subst;
    (split; [reflexivity|]); eexists _, ps; repeat split; eauto.
Qed.

Lemma getParticleParameters_run force i (w : World) f ps r :
  system_forces w !! force = Some f -> particles_of f = Some ps -> omm_get ps i = Ok r ->
  getParticleParameters force i w = (Ok r, w).
Proof.
  intros Hf Hp Hg. unfold getParticleParameters, bind, lookup_force, lift_result.
  rewrite Hf. destruct f; inversion Hp; subst; now rewrite Hg.
Qed.

(** [setParticleParameters] replaces one particle of one force. *)
Lemma setParticleParameters_ok force i a b c (w w' : World) :
  setParticleParameters force i a b c w = (Ok tt, w') ->
  exists f ps,
    system_forces w !! force = Some f /\ particles_of f = Some ps
    /\ 0 <= i /\ (Z.to_nat i < length ps)%nat
    /\ w' = set_system_forces
              (<[force := with_particles f (<[Z.to_nat i := (a, b, c)]> ps)]>
                 (system_forces w)) w.
Proof.
  unfold setParticleParameters, bind, lookup_force, lift_result, store_force, modify.
  destruct (system_forces w !! force) as [[ps es|ps|name flag]|] eqn:Hf; try discriminate;
    destruct (omm_set ps i (a, b, c)) as [ps'|] eqn:Hs; try discriminate;
    apply omm_set_ok in Hs as (Hi & Hlt & ->);
    intros E; inversion E; subst; eexists _, ps; repeat split; eauto.
Qed.

Lemma with_particles_id (f : Force num) ps : particles_of f = Some ps -> with_particles f ps = f.
Proof. destruct f; simpl; intros E; inversion E; reflexivity. Qed.

Lemma with_particles_twice (f : Force num) ps ps' :
  with_particles (with_particles f ps) ps' = with_particles f ps'.
Proof. now destruct f. Qed.

Lemma particles_of_with_particles (f : Force num) ps ps' :
  particles_of f = Some ps -> particles_of (with_particles f ps') = Some ps'.
Proof. destruct f; simpl; intros E; inversion E; reflexivity. Qed.

Lemma same_shape_with_particles (f0 f : Force num) ps ps' :
  same_shape f0 f -> particles_of f = Some ps -> length ps' = length ps ->
  same_shape f0 (with_particles f ps').
Proof.
  unfold same_shape. intros Hs Hp Hlen. rewrite Hs.
  assert (Hm : forall l l' : list (num * num * num), length l' = length l ->
            map (fun _ => (tt, tt, tt)) l' = map (fun _ => (tt, tt, tt)) l).
  { induction l; intros [|? l'] H; simpl in *; try discriminate; f_equal; auto. }
  destruct f; simpl in *; inversion Hp; subst; f_equal; symmetry; now apply Hm.
Qed.

Lemma update_particle_charge_ok r (f0 fk : Force num) charges dbg k atom (w w1 : World) ps :
  system_forces w !! r = Some fk -> same_shape f0 fk -> particles_of fk = Some ps ->
  update_particle_charge r f0 charges dbg k atom w = (Ok tt, w1) ->
  exists c q sg ep,
    py_getitem charges k = Ok c /\ 0 <= atom
    /\ ps !! Z.to_nat atom = Some (q, sg, ep)
    /\ system_forces w1
       = <[r := with_particles fk (<[Z.to_nat atom := (c, sg, ep)]> ps)]> (system_forces w).
Proof.
  intros Hf Hs Hp E.
  assert (Hget : forall x (wa wb : World),
            system_forces wa = system_forces w ->
            getParticleParameters r atom wa = (Ok x, wb) ->
            wb = wa /\ 0 <= atom /\ ps !! Z.to_nat atom = Some x).
  { intros x wa wb Hwa Eg. apply getParticleParameters_ok in Eg as (-> & f & ps0 & Hf0 & Hp0 & Hg).
    rewrite Hwa, Hf in Hf0. inversion Hf0; subst f. rewrite Hp in Hp0. inversion Hp0; subst ps0.
    apply omm_get_ok in Hg. tauto. }
  assert (Hset : forall a b c (wa wb : World),
            system_forces wa = system_forces w ->
            setParticleParameters r atom a b c wa = (Ok tt, wb) ->
            system_forces wb
            = <[r := with_particles fk (<[Z.to_nat atom := (a, b, c)]> ps)]> (system_forces w)).
  { intros a b c wa wb Hwa Es.
    apply setParticleParameters_ok in Es as (f & ps0 & Hf0 & Hp0 & _ & _ & ->).
    rewrite Hwa, Hf in Hf0. inversion Hf0; subst f. rewrite Hp in Hp0. inversion Hp0; subst ps0.
    simpl. now rewrite Hwa. }
  destruct f0 as [ps0 es0|ps0|name flag]; simpl in E.
  - apply bind_inv_ok in E as ([[q sg] ep] & w2 & E1 & E).
    destruct (Hget _ _ _ eq_refl E1) as (-> & Hatom & Hl).
    apply bind_inv_ok in E as (c & w3 & E2 & E).
    assert (Hc : py_getitem charges k = Ok c /\ w3 = w)
      by (unfold lift_result in E2; inversion E2; auto).
    destruct Hc as [Hc ->].
    apply bind_inv_ok in E as ([] & w4 & E3 & E).
    exists c, q, sg, ep. repeat split; try assumption.
    apply (Hset _ _ _ w4 w1); [|exact E].
    destruct dbg; inversion E3; reflexivity.
  - destruct dbg; [discriminate|].
    apply bind_inv_ok in E as ([[q sg] ep] & w2 & E1 & E).
    destruct (Hget _ _ _ eq_refl E1) as (-> & Hatom & Hl).
    apply bind_inv_ok in E as (c & w3 & E2 & E).
    assert (Hc : py_getitem charges k = Ok c /\ w3 = w)
      by (unfold lift_result in E2; inversion E2; auto).
    destruct Hc as [Hc ->].
    exists c, q, sg, ep. repeat split; try assumption.
    apply (Hset _ _ _ w w1); [reflexivity | exact E].
  - discriminate.
Qed.

Lemma push_charges_loop r (f0 : Force num) charges dbg pairs :
  forall (w w1 : World) fk ps,
    system_forces w !! r = Some fk -> same_shape f0 fk -> particles_of fk = Some ps ->
    NoDup (map snd pairs) ->
    forM_ pairs (fun '(k, atom) => update_particle_charge r f0 charges dbg k atom) w
    = (Ok tt, w1) ->
    exists ps',
      system_forces w1 = <[r := with_particles fk ps']> (system_forces w)
      /\ charges_pushed pairs charges ps ps'.
Proof.
  induction pairs as [|[k atom] pairs IH]; intros w w1 fk ps Hf Hs Hp Hnd E.
  - inversion E; subst w1. exists ps. split.
    + rewrite (with_particles_id _ _ Hp). symmetry. now apply list_insert_id.
    + split; [reflexivity|]. split; [reflexivity|]. intros k atom [].
  - simpl in E. apply bind_inv_ok in E as ([] & w2 & E1 & E).
    destruct (update_particle_charge_ok _ _ _ _ _ _ _ _ _ _ Hf Hs Hp E1)
      as (c & q & sg & ep & Hc & Hatom & Hl & Hw2).
    simpl in Hnd. apply NoDup_cons in Hnd as [Hnotin Hnd].
    pose proof (lookup_lt_Some _ _ _ Hf) as Hr.
    pose proof (lookup_lt_Some _ _ _ Hl) as Hlt.
    set (ps1 := <[Z.to_nat atom := (c, sg, ep)]> ps) in *.
    destruct (IH w2 w1 (with_particles fk ps1) ps1) as (ps' & Hw1 & Hpushed);
      try assumption.
    + rewrite Hw2. now apply list_lookup_insert_eq.
    + eapply same_shape_with_particles; eauto. subst ps1. apply length_insert.
    + eapply particles_of_with_particles; eauto.
    + exists ps'. split.
      * rewrite Hw1, Hw2, list_insert_insert_eq. now rewrite with_particles_twice.
      * destruct Hpushed as (Hlen & Hout & Hin).
        split; [subst ps1; now rewrite Hlen, length_insert|]. split.
        -- intros i Hi. simpl in Hi. rewrite Hout by tauto.
           subst ps1. apply list_lookup_insert_ne. intros Heq. apply Hi. left. lia.
        -- intros k' atom' [Heq|Hin'].
           ++ inversion Heq; subst k' atom'. exists c, q, sg, ep.
              repeat split; try assumption.
              rewrite Hout.
              ** subst ps1. now apply list_lookup_insert_eq.
              ** rewrite Z2Nat.id by lia. intros Hx. apply Hnotin.
                 now apply list_elem_of_In.
           ++ destruct (Hin _ _ Hin') as (c' & q' & sg' & ep' & Hc' & Hatom' & Hl1 & Hl').
              exists c', q', sg', ep'. repeat split; try assumption.
              rewrite <- Hl1. subst ps1. symmetry. apply list_lookup_insert_ne.
              intros Heq. apply Hnotin. apply list_elem_of_In.
              assert (atom = atom') as -> by lia.
              apply in_map_iff. exists (k', atom'). auto.
Qed.

Lemma setExceptionParameters_ok force i p1 p2 a b c (w w' : World) :
  setExceptionParameters force i p1 p2 a b c w = (Ok tt, w') ->
  exists ps es,
    system_forces w !! force = Some (NonbondedForce ps es)
    /\ 0 <= i /\ (Z.to_nat i < length es)%nat
    /\ w' = set_system_forces
              (<[force := NonbondedForce ps (<[Z.to_nat i := (p1, p2, a, b, c)]> es)]>
                 (system_forces w)) w.
Proof.
  unfold setExceptionParameters, bind, lookup_force, lift_result, store_force, modify.
  destruct (system_forces w !! force) as [[ps es|ps|name flag]|] eqn:Hf; try discriminate.
  destruct (omm_set es i (p1, p2, a, b, c)) as [es'|] eqn:Hs; try discriminate.
  apply omm_set_ok in Hs as (Hi & Hlt & ->).
  intros E; inversion E; subst. exists ps, es. auto.
Qed.

(** What [update_exception] does when it returns. *)
Lemma update_exception_ok r e (w w1 : World) ps es :
  system_forces w !! r = Some (NonbondedForce ps es) ->
  update_exception r e w = (Ok tt, w1) ->
  exists c p1 p2 cp sg ep q1 s1 e1 q2 s2 e2,
    coulomb14scale w = Some c /\ 0 <= e
    /\ es !! Z.to_nat e = Some (p1, p2, cp, sg, ep)
    /\ omm_get ps p1 = Ok (q1, s1, e1)
    /\ omm_get ps p2 = Ok (q2, s2, e2)
    /\ w1 = set_system_forces
              (<[r := NonbondedForce ps
                        (<[Z.to_nat e := (p1, p2, floor_nonzero (fmul (fmul c q1) q2), sg,
                                          floor_nonzero ep)]> es)]>
                 (system_forces w)) w.
Proof.
  intros Hf E. unfold update_exception in E.
  apply bind_inv_ok in E as ([[[[p1 p2] cp] sg] ep] & w2 & E1 & E).
  apply getExceptionParameters_ok in E1 as (-> & ps0 & es0 & Hf0 & Hg).
  rewrite Hf in Hf0. inversion Hf0; subst ps0 es0. clear Hf0.
  apply omm_get_ok in Hg as [He Hl].
  apply bind_inv_ok in E as ([[q1 s1] e1] & w2 & E1 & E).
  apply getParticleParameters_ok in E1 as (-> & f & ps0 & Hf0 & Hp0 & Hg1).
  rewrite Hf in Hf0. inversion Hf0; subst f. inversion Hp0; subst ps0. clear Hf0 Hp0.
  apply bind_inv_ok in E as ([[q2 s2] e2] & w2 & E1 & E).
  apply getParticleParameters_ok in E1 as (-> & f & ps0 & Hf0 & Hp0 & Hg2).
  rewrite Hf in Hf0. inversion Hf0; subst f. inversion Hp0; subst ps0. clear Hf0 Hp0.
  apply bind_inv_ok in E as (scale & w2 & E1 & E). inversion E1; subst scale w2. clear E1.
  apply bind_inv_ok in E as (c & w2 & E1 & E).
  destruct (coulomb14scale w) as [c0|] eqn:Hc; [|discriminate].
  inversion E1; subst c0 w2. clear E1.
  apply setExceptionParameters_ok in E as (ps0 & es0 & Hf0 & _ & _ & ->).
  rewrite Hf in Hf0. inversion Hf0; subst ps0 es0.
  exists c, p1, p2, cp, sg, ep, q1, s1, e1, q2, s2, e2. auto 10.
Qed.

Lemma push_exceptions_loop r indices :
  forall (w w1 : World) ps es,
    system_forces w !! r = Some (NonbondedForce ps es) ->
    forM_ indices (update_exception r) w = (Ok tt, w1) ->
    exists es',
      system_forces w1 = <[r := NonbondedForce ps es']> (system_forces w)
      /\ coulomb14scale w1 = coulomb14scale w
      /\ exceptions_pushed (coulomb14scale w) indices ps es es'.
Proof.
  induction indices as [|e indices IH]; intros w w1 ps es Hf E.
  - inversion E; subst w1. exists es. split; [symmetry; now apply list_insert_id|].
    split; [reflexivity|]. split; [reflexivity|]. split; [reflexivity|]. intros e [].
  - simpl in E. apply bind_inv_ok in E as ([] & w2 & E1 & E).
    destruct (update_exception_ok _ _ _ _ _ _ Hf E1)
      as (c & p1 & p2 & cp & sg & ep & q1 & s1 & e1 & q2 & s2 & e2
          & Hc & He & Hl & Hg1 & Hg2 & ->).
    pose proof (lookup_lt_Some _ _ _ Hf) as Hr.
    pose proof (lookup_lt_Some _ _ _ Hl) as Hlt.
    set (new := (p1, p2, floor_nonzero (fmul (fmul c q1) q2), sg, floor_nonzero ep)) in *.
    match type of E with
    | forM_ _ _ ?w2 = _ =>
        destruct (IH w2 w1 ps (<[Z.to_nat e := new]> es))
          as (es' & Hw1 & Hc1 & Hlen & Hout & Hin); [|exact E|]
    end.
    { simpl. now apply list_lookup_insert_eq. }
    simpl in Hw1, Hc1, Hin. rewrite list_insert_insert_eq in Hw1.
    exists es'. split; [exact Hw1|]. split; [exact Hc1|].
    split; [now rewrite Hlen, length_insert|]. split.
    + intros i Hi. simpl in Hi. rewrite Hout by tauto.
      apply list_lookup_insert_ne. intros Heq. apply Hi. left. lia.
    + intros e' He'.
      destruct (In_dec Z.eq_dec e' indices) as [Hin'|Hnotin].
      * destruct (Hin _ Hin')
          as (c' & p1' & p2' & cp' & sg' & ep' & q1' & s1' & e1' & q2' & s2' & e2'
              & Hc' & He0 & Hl' & Hg1' & Hg2' & Hl'').
        rewrite Hc in Hc'. inversion Hc'; subst c'. clear Hc'.
        destruct (decide (Z.to_nat e' = Z.to_nat e)) as [Heq|Hne].
        -- rewrite Heq in *. rewrite list_lookup_insert_eq in Hl' by exact Hlt.
           subst new. inversion Hl'; subst p1' p2' cp' sg' ep'. clear Hl'.
           rewrite Hg1 in Hg1'. rewrite Hg2 in Hg2'.
           inversion Hg1'; inversion Hg2'; subst.
           rewrite floor_nonzero_idempotent in Hl''.
           exists c, p1, p2, cp, sg, ep, q1', s1', e1', q2', s2', e2'. auto 10.
        -- rewrite list_lookup_insert_ne in Hl' by congruence.
           exists c, p1', p2', cp', sg', ep', q1', s1', e1', q2', s2', e2'. auto 10.
      * destruct He' as [<-|?]; [|contradiction].
        exists c, p1, p2, cp, sg, ep, q1, s1, e1, q2, s2, e2.
        repeat split; try assumption.
        rewrite Hout by (rewrite Z2Nat.id by lia; exact Hnotin).
        now apply list_lookup_insert_eq.
Qed.

Lemma map_snd_enumerate {A} (l : list A) : map snd (enumerate l) = l.
Proof.
  unfold enumerate. change (map snd (combine ?a ?b)) with ((zip a b).*2).
  apply snd_zip. now rewrite length_map, length_seq.
Qed.

Lemma force_updateParametersInContext_forces r (w : World) :
  system_forces (snd (force_updateParametersInContext r w)) = system_forces w
  /\ coulomb14scale (snd (force_updateParametersInContext r w)) = coulomb14scale w.
Proof.
  unfold force_updateParametersInContext, bind, lookup_force, modify.
  now destruct (system_forces w !! r).
Qed.

(** What one pass of the loop over [self.forces_to_update] does. *)
Lemma update_force_parameters_ok r group state uc dbg (w w1 : World) :
  NoDup (atom_indices group) ->
  update_force_parameters r group state uc dbg w = (Ok tt, w1) ->
  exists f f',
    system_forces w !! r = Some f
    /\ system_forces w1 = <[r := f']> (system_forces w)
    /\ coulomb14scale w1 = coulomb14scale w
    /\ force_pushed (enumerate (atom_indices group)) (charges state) (coulomb14scale w)
         (exception_indices group) f f'.
Proof.
  intros Hnd E. unfold update_force_parameters in E.
  apply bind_inv_ok in E as (f & w0 & E0 & E).
  assert (Hf : system_forces w !! r = Some f /\ w0 = w).
  { unfold lookup_force in E0. destruct (system_forces w !! r); inversion E0; auto. }
  destruct Hf as [Hf ->]. clear E0.
  apply bind_inv_ok in E as ([] & w2 & E1 & E).
  apply bind_inv_ok in E as ([] & w3 & E2 & E).
  assert (Hlast : system_forces w1 = system_forces w3 /\ coulomb14scale w1 = coulomb14scale w3).
  { destruct (uc && has_updateParametersInContext f).
    - pose proof (force_updateParametersInContext_forces r w3) as H. now rewrite E in H.
    - now inversion E. }
  destruct Hlast as [Hlast Hlastc]. rewrite Hlast, Hlastc. clear E Hlast Hlastc w1.
  assert (Hc2 : coulomb14scale w2 = coulomb14scale w).
  { apply (respects_run (kept skeleton)) in E1.
    - unfold kept, skeleton in E1. now inversion E1.
    - apply respects_forM_; [typeclasses eauto|]. intros [k atom].
      apply kept_update_particle_charge; typeclasses eauto. }
  pose proof (lookup_lt_Some _ _ _ Hf) as Hr.
  destruct f as [ps es|ps|name flag].
  - destruct (push_charges_loop r (NonbondedForce ps es) (charges state) dbg
                (enumerate (atom_indices group)) w w2 _ ps Hf eq_refl eq_refl)
      as (ps' & Hw2 & Hpushed); [now rewrite map_snd_enumerate | exact E1 |].
    simpl in Hw2.
    destruct (push_exceptions_loop r (exception_indices group) w2 w3 ps' es)
      as (es' & Hw3 & Hc3 & Hex);
      [rewrite Hw2; now apply list_lookup_insert_eq | exact E2 |].
    exists (NonbondedForce ps es), (NonbondedForce ps' es').
    split; [exact Hf|]. split; [now rewrite Hw3, Hw2, list_insert_insert_eq|].
    split; [congruence|]. split; [exact Hpushed|]. now rewrite <- Hc2.
  - destruct (push_charges_loop r (GBSAOBCForce ps) (charges state) dbg
                (enumerate (atom_indices group)) w w2 _ ps Hf eq_refl eq_refl)
      as (ps' & Hw2 & Hpushed); [now rewrite map_snd_enumerate | exact E1 |].
    simpl in Hw2. inversion E2; subst w3.
    exists (GBSAOBCForce ps), (GBSAOBCForce ps').
    split; [exact Hf|]. split; [exact Hw2|]. split; [exact Hc2|]. exact Hpushed.
  - inversion E2; subst w3.
    destruct (enumerate (atom_indices group)) as [|[k atom] pairs] eqn:Hpairs.
    + inversion E1; subst w2.
      exists (OtherForce name flag), (OtherForce name flag).
      split; [exact Hf|]. split; [symmetry; now apply list_insert_id|].
      split; [reflexivity|]. split; reflexivity.
    + discriminate.
Qed.

Lemma charges_pushed_trans pairs charges (ps ps1 ps2 : list (num * num * num)) :
  charges_pushed pairs charges ps ps1 -> charges_pushed pairs charges ps1 ps2 ->
  charges_pushed pairs charges ps ps2.
Proof.
  intros (Hlen & Hout & Hin) (Hlen' & Hout' & Hin').
  split; [congruence|]. split.
  - intros i Hi. now rewrite Hout', Hout.
  - intros k atom Hka.
    destruct (Hin _ _ Hka) as (c & q & sg & ep & Hc & Hatom & Hl & Hl1).
    destruct (Hin' _ _ Hka) as (c' & q' & sg' & ep' & Hc' & _ & Hl1' & Hl2).
    rewrite Hl1 in Hl1'. inversion Hl1'; subst. rewrite Hc in Hc'. inversion Hc'; subst.
    exists c', q, sg', ep'. auto.
Qed.

Lemma exceptions_pushed_trans scale indices (ps1 ps2 : list (num * num * num))
    (es es1 es2 : list (Z * Z * num * num * num)) :
  exceptions_pushed scale indices ps1 es es1 -> exceptions_pushed scale indices ps2 es1 es2 ->
  exceptions_pushed scale indices ps2 es es2.
Proof.
  intros (Hlen & Hout & Hin) (Hlen' & Hout' & Hin').
  split; [congruence|]. split.
  - intros i Hi. now rewrite Hout', Hout.
  - intros e He.
    destruct (Hin _ He)
      as (c & p1 & p2 & cp & sg & ep & q1 & s1 & e1 & q2 & s2 & e2
          & Hc & He0 & Hl & Hg1 & Hg2 & Hl1).
    destruct (Hin' _ He)
      as (c' & p1' & p2' & cp' & sg' & ep' & q1' & s1' & e1' & q2' & s2' & e2'
          & Hc' & _ & Hl1' & Hg1' & Hg2' & Hl2).
    rewrite Hl1 in Hl1'. inversion Hl1'; subst p1' p2' cp' sg' ep'.
    rewrite floor_nonzero_idempotent in Hl2.
    exists c', p1, p2, cp, sg, ep, q1', s1', e1', q2', s2', e2'. auto 10.
Qed.

Lemma force_pushed_trans pairs charges scale indices (f f1 f2 : Force num) :
  force_pushed pairs charges scale indices f f1 ->
  force_pushed pairs charges scale indices f1 f2 ->
  force_pushed pairs charges scale indices f f2.
Proof.
  destruct f as [ps es|ps|name flag], f1 as [ps1 es1|ps1|name1 flag1]; simpl; try tauto.
  - destruct f2 as [ps2 es2|ps2|name2 flag2]; try tauto.
    intros [H1 H2] [H1' H2']. split.
    + eapply charges_pushed_trans; eauto.
    + eapply exceptions_pushed_trans; eauto.
  - destruct f2 as [ps2 es2|ps2|name2 flag2]; try tauto.
    apply charges_pushed_trans.
  - intros [_ E]. discriminate.
  - intros [_ E]. discriminate.
  - intros [Hp E] [_ ->]. split; [exact Hp|]. exact E.
Qed.

(** What the loop over [self.forces_to_update] does when it returns. *)
Lemma update_forces_loop group state uc dbg refs :
  NoDup (atom_indices group) ->
  forall w w1 : World,
    forM_ refs (fun force => update_force_parameters force group state uc dbg) w
    = (Ok tt, w1) ->
    forces_pushed (enumerate (atom_indices group)) (charges state) (coulomb14scale w)
      (exception_indices group) refs (system_forces w) (system_forces w1).
Proof.
  intros Hnd. induction refs as [|r refs IH]; intros w w1 E.
  - inversion E; subst w1. intros r. split; [reflexivity | intros []].
  - simpl in E. apply bind_inv_ok in E as ([] & w2 & E1 & E).
    destruct (update_force_parameters_ok _ _ _ _ _ _ _ Hnd E1) as (f & f1 & Hf & Hw2 & Hc & Hp).
    specialize (IH _ _ E). rewrite Hc in IH.
    pose proof (lookup_lt_Some _ _ _ Hf) as Hr.
    intros r'. destruct (IH r') as [IHout IHin]. split.
    + intros Hnot. rewrite IHout by (intros ?; apply Hnot; now right).
      rewrite Hw2. apply list_lookup_insert_ne. intros ->. apply Hnot. now left.
    + intros Hin'.
      destruct (In_dec Nat.eq_dec r' refs) as [Hrest|Hnot].
      * destruct (IHin Hrest) as (f1' & f' & Hl1 & Hl' & Hp').
        destruct (decide (r' = r)) as [->|Hne].
        -- rewrite Hw2, list_lookup_insert_eq in Hl1 by exact Hr.
           inversion Hl1; subst f1'.
           exists f, f'. split; [exact Hf|]. split; [exact Hl'|].
           eapply force_pushed_trans; eauto.
        -- rewrite Hw2, list_lookup_insert_ne in Hl1 by congruence.
           exists f1', f'. auto.
      * destruct Hin' as [<-|?]; [|contradiction].
        exists f, f1. split; [exact Hf|]. split; [|exact Hp].
        rewrite (IHout Hnot), Hw2. now apply list_lookup_insert_eq.
Qed.

Lemma setTitrationState_forces_pushed (w w' : World) g s uc dbg group state :
  0 <= g -> titrationGroups w !! Z.to_nat g = Some group ->
  0 <= s -> titration_states group !! Z.to_nat s = Some state ->
  NoDup (atom_indices group) ->
  setTitrationState g s uc dbg w = (Ok tt, w') ->
  forces_pushed (enumerate (atom_indices group)) (charges state) (coulomb14scale w)
    (exception_indices group) (forces_to_update w) (system_forces w) (system_forces w').
Proof.
  intros Hg Hl Hs Hst Hnd E.
  rewrite (setTitrationState_run _ _ _ _ _ _ _ Hg Hl Hs Hst) in E.
  apply bind_inv_ok in E as ([] & w1 & E1 & E).
  assert (Hw' : system_forces w' = system_forces w1).
  { unfold store_state, bind, gets, lift_result, modify in E.
    destruct py_setitem; inversion E; reflexivity. }
  rewrite Hw'. unfold update_forces in E1.
  apply bind_inv_ok in E1 as (refs & w0 & E0 & E1). inversion E0; subst refs w0.
  now apply (update_forces_loop group state uc dbg).
Qed.

Lemma getExceptionParameters_run force e (w : World) ps es x :
  system_forces w !! force = Some (NonbondedForce ps es) -> omm_get es e = Ok x ->
  getExceptionParameters force e w = (Ok x, w).
Proof.
  intros Hf Hg. unfold getExceptionParameters, bind, lookup_force, lift_result.
  now rewrite Hf, Hg.
Qed.

Lemma omm_get_same {A} (l l' : list A) i :
  length l' = length l ->
  (0 <= i -> l' !! Z.to_nat i = l !! Z.to_nat i) ->
  omm_get l' i = omm_get l i.
Proof.
  intros Hlen Hl. unfold omm_get. rewrite Hlen.
  destruct (in_range i (Z.of_nat (length l))) eqn:Hr; [|reflexivity].
  apply in_range_spec in Hr. rewrite Hl by lia. reflexivity.
Qed.

Lemma In_enumerate {A} (l : list A) k x : l !! k = Some x -> In (Z.of_nat k, x) (enumerate l).
Proof.
  intros Hl. unfold enumerate. apply list_elem_of_In, (list_elem_of_lookup_2 _ k).
  change (combine ?a ?b) with (zip a b). rewrite lookup_zip_with.
  change (map ?f ?a) with (f <$> a). rewrite list_lookup_fmap.
  rewrite lookup_seq_lt by (apply lookup_lt_Some in Hl; exact Hl). simpl. now rewrite Hl.
Qed.

(** X10: when [setTitrationState] returns for a group with distinct
    atoms, every force of [forces_to_update] answers
    [getParticleParameters] for the k-th atom of the group with the k-th
    charge of the new state and the second and third parameter it had
    before; for every other atom it answers as before; forces outside
    [forces_to_update] are untouched. *)
Theorem setTitrationState_pushes_charges (w w' : World) g s uc dbg group state :
  0 <= g -> titrationGroups w !! Z.to_nat g = Some group ->
  0 <= s -> titration_states group !! Z.to_nat s = Some state ->
  NoDup (atom_indices group) ->
  setTitrationState g s uc dbg w = (Ok tt, w') ->
  (forall force, In force (forces_to_update w) ->
     (forall k atom, atom_indices group !! k = Some atom ->
        exists charge old sigma epsilon,
          charges state !! k = Some charge
          /\ getParticleParameters force atom w = (Ok (old, sigma, epsilon), w)
          /\ getParticleParameters force atom w' = (Ok (charge, sigma, epsilon), w'))
     /\ (forall atom, ~ In atom (atom_indices group) ->
           fst (getParticleParameters force atom w')
           = fst (getParticleParameters force atom w)))
  /\ (forall force, ~ In force (forces_to_update w) ->
        system_forces w' !! force = system_forces w !! force).
Proof.
  intros Hg Hl Hs Hst Hnd E.
  pose proof (setTitrationState_forces_pushed _ _ _ _ _ _ _ _ Hg Hl Hs Hst Hnd E) as Hp.
  split; [|intros force; apply (Hp force)].
  intros force Hin. destruct (Hp force) as [_ H].
  destruct (H Hin) as (f & f' & Hf & Hf' & Hpushed). clear H.
  assert (Hcases : (exists ps ps', particles_of f = Some ps /\ particles_of f' = Some ps'
                      /\ charges_pushed (enumerate (atom_indices group)) (charges state) ps ps')
                   \/ (atom_indices group = [] /\ f' = f)).
  { destruct f as [ps es|ps|name flag], f' as [ps' es'|ps'|name' flag'];
      simpl in Hpushed; try contradiction.
    - left. exists ps, ps'. tauto.
    - left. exists ps, ps'. tauto.
    - destruct Hpushed as [_ ?]. discriminate.
    - destruct Hpushed as [_ ?]. discriminate.
    - right. destruct Hpushed as [Hnil ->]. split; [|reflexivity].
      apply (f_equal (map snd)) in Hnil. now rewrite map_snd_enumerate in Hnil. }
  destruct Hcases as [(ps & ps' & Hps & Hps' & Hlen & Hout & Hin')|[Hnil ->]].
  - split.
    + intros k atom Hk.
      destruct (Hin' _ _ (In_enumerate _ _ _ Hk)) as (c & q & sg & ep & Hc & Hatom & Hq & Hq').
      exists c, q, sg, ep. split; [|split].
      * unfold py_getitem in Hc.
        destruct (py_index (charges state) (Z.of_nat k)) as [n|] eqn:Hn; [|discriminate].
        apply py_index_nonneg in Hn as [-> _]; [|lia].
        rewrite Nat2Z.id in Hc. destruct (charges state !! k); [|discriminate].
        now inversion Hc.
      * eapply getParticleParameters_run; eauto. now apply omm_get_lookup.
      * eapply getParticleParameters_run; eauto. now apply omm_get_lookup.
    + intros atom Hnot.
      unfold getParticleParameters, bind, lookup_force, lift_result. rewrite Hf, Hf'.
      assert (Hsame : omm_get ps' atom = omm_get ps atom).
      { apply omm_get_same; [exact Hlen|]. intros Hatom. apply Hout.
        rewrite map_snd_enumerate, Z2Nat.id by lia. exact Hnot. }
      destruct f, f'; simpl in Hps, Hps'; inversion Hps; inversion Hps'; subst;
        try (now rewrite Hsame); simpl in Hpushed; try contradiction;
        destruct Hpushed; discriminate.
  - split.
    + intros k atom Hk. rewrite Hnil in Hk. now rewrite lookup_nil in Hk.
    + intros atom _. unfold getParticleParameters, bind, lookup_force. rewrite Hf, Hf'.
      now destruct f.
Qed.

(** X11: when [setTitrationState] returns, every exception of the group
    in a NonbondedForce of [forces_to_update] joins the same particles with
    the same sigma as before, has [coulomb14scale * charge1 * charge2] of the
    new charges of its particles as charge product, and both charge product
    and epsilon replaced by [sys.float_info.epsilon] when zero ([2*x == x]);
    every other exception is as before. *)
Theorem setTitrationState_rescales_exceptions (w w' : World) g s uc dbg group state :
  0 <= g -> titrationGroups w !! Z.to_nat g = Some group ->
  0 <= s -> titration_states group !! Z.to_nat s = Some state ->
  NoDup (atom_indices group) ->
  setTitrationState g s uc dbg w = (Ok tt, w') ->
  forall force ps es,
    In force (forces_to_update w) ->
    system_forces w !! force = Some (NonbondedForce ps es) ->
    (forall e, In e (exception_indices group) ->
       exists scale p1 p2 cp sg ep q1 s1 e1 q2 s2 e2,
         coulomb14scale w = Some scale
         /\ getExceptionParameters force e w = (Ok (p1, p2, cp, sg, ep), w)
         /\ getParticleParameters force p1 w' = (Ok (q1, s1, e1), w')
         /\ getParticleParameters force p2 w' = (Ok (q2, s2, e2), w')
         /\ getExceptionParameters force e w'
            = (Ok (p1, p2, floor_nonzero (fmul (fmul scale q1) q2), sg, floor_nonzero ep), w'))
    /\ (forall e, ~ In e (exception_indices group) ->
          fst (getExceptionParameters force e w')
          = fst (getExceptionParameters force e w)).
Proof.
  intros Hg Hl Hs Hst Hnd E force ps es Hin Hf.
  pose proof (setTitrationState_forces_pushed _ _ _ _ _ _ _ _ Hg Hl Hs Hst Hnd E) as Hp.
  destruct (Hp force) as [_ H].
  destruct (H Hin) as (f & f' & Hf0 & Hf' & Hpushed). clear H.
  rewrite Hf in Hf0. inversion Hf0; subst f. clear Hf0.
  destruct f' as [ps' es'|ps'|name' flag']; simpl in Hpushed; try contradiction.
  destruct Hpushed as [_ (Hlen & Hout & Hin')].
  split.
  - intros e He.
    destruct (Hin' _ He)
      as (c & p1 & p2 & cp & sg & ep & q1 & s1 & e1 & q2 & s2 & e2
          & Hc & He0 & Hl0 & Hg1 & Hg2 & Hl').
    exists c, p1, p2, cp, sg, ep, q1, s1, e1, q2, s2, e2.
    split; [exact Hc|]. split; [|split; [|split]].
    + eapply getExceptionParameters_run; eauto. now apply omm_get_lookup.
    + eapply getParticleParameters_run; eauto.
    + eapply getParticleParameters_run; eauto.
    + eapply getExceptionParameters_run; eauto. now apply omm_get_lookup.
  - intros e Hnot.
    unfold getExceptionParameters, bind, lookup_force, lift_result. rewrite Hf, Hf'.
    rewrite (omm_get_same es es' e Hlen); [reflexivity|].
    intros He. apply Hout. rewrite Z2Nat.id by lia. exact Hnot.
Qed.
End Push.

(** ** The exceptions selected by [get14exceptions] *)

Section Exceptions.
Context {num ctx rng : Type}.
Context `{FO : FloatOps num} `{EO : EnergyOracle num ctx} `{RS : RandomSource num rng}.
Local Abbreviation World := (World num ctx rng).

Lemma set_system_forces_id (w : World) : set_system_forces (system_forces w) w = w.
Proof. now destruct w. Qed.

(** The body of the loop of lines 258-271. *)
Local Abbreviation select_exception force particle_indices :=
  (fun (exception_indices : list Z) (exception_index : Z) =>
     let* '(particle1, particle2, chargeProd, sigma, epsilon) :=
       getExceptionParameters force exception_index in
     if mem_Z particle1 particle_indices || mem_Z particle2 particle_indices then
       let* atomExceptions := gets atomExceptions in
       let* of_particle1 := lift_result (py_getitem atomExceptions particle1) in
       let* listed :=
         (if mem_Z particle2 of_particle1 then ret true
          else let* of_particle2 := lift_result (py_getitem atomExceptions particle2) in
               ret (mem_Z particle1 of_particle2)) in
       if (listed : bool) then
         let exception_indices := exception_indices ++ [exception_index] in
         floor_exception force exception_index ;;
         ret exception_indices
       else ret exception_indices
     else ret exception_indices).

Lemma floor_exception_ok force i (w w' : World) ps es :
  system_forces w !! force = Some (NonbondedForce ps es) ->
  floor_exception force i w = (Ok tt, w') ->
  exists e, 0 <= i /\ es !! Z.to_nat i = Some e
    /\ w' = set_system_forces
              (<[force := NonbondedForce ps (<[Z.to_nat i := floored e]> es)]>
                 (system_forces w)) w.
Proof.
  intros Hf E. unfold floor_exception in E.
  apply bind_inv_ok in E as ([[[[p1 p2] cp] sg] ep] & w2 & E1 & E).
  apply getExceptionParameters_ok in E1 as (-> & ps0 & es0 & Hf0 & Hg).
  rewrite Hf in Hf0. inversion Hf0; subst ps0 es0. clear Hf0.
  apply omm_get_ok in Hg as [Hi Hl].
  apply setExceptionParameters_ok in E as (ps0 & es0 & Hf0 & _ & _ & ->).
  rewrite Hf in Hf0. inversion Hf0; subst ps0 es0.
  exists (p1, p2, cp, sg, ep). auto.
Qed.

Lemma select_exception_ok force particles acc i (w w' : World) acc' ps es :
  system_forces w !! force = Some (NonbondedForce ps es) ->
  select_exception force particles acc i w = (Ok acc', w') ->
  exists p1 p2 cp sg ep,
    0 <= i /\ es !! Z.to_nat i = Some (p1, p2, cp, sg, ep)
    /\ ((acc' = acc ++ [i]
         /\ w' = set_system_forces
                   (<[force := NonbondedForce ps
                                 (<[Z.to_nat i := floored (p1, p2, cp, sg, ep)]> es)]>
                      (system_forces w)) w
         /\ (In p1 particles \/ In p2 particles)
         /\ listed_14 (atomExceptions w) p1 p2)
        \/ (acc' = acc /\ w' = w
            /\ ~ ((In p1 particles \/ In p2 particles)
                  /\ listed_14 (atomExceptions w) p1 p2))).
Proof.
  intros Hf E.
  apply bind_inv_ok in E as ([[[[p1 p2] cp] sg] ep] & w2 & E1 & E).
  apply getExceptionParameters_ok in E1 as (-> & ps0 & es0 & Hf0 & Hg).
  rewrite Hf in Hf0. inversion Hf0; subst ps0 es0. clear Hf0.
  apply omm_get_ok in Hg as [Hi Hl].
  exists p1, p2, cp, sg, ep. split; [exact Hi|]. split; [exact Hl|].
  destruct (mem_Z p1 particles || mem_Z p2 particles) eqn:Hinv.
  - assert (Hinvolved : In p1 particles \/ In p2 particles).
    { apply orb_true_iff in Hinv. rewrite !mem_Z_In in Hinv. exact Hinv. }
    apply bind_inv_ok in E as (A & w2 & E1 & E). inversion E1; subst A w2. clear E1.
    apply bind_inv_ok in E as (of1 & w2 & E1 & E).
    assert (H1 : py_getitem (atomExceptions w) p1 = Ok of1 /\ w2 = w)
      by (unfold lift_result in E1; inversion E1; auto).
    destruct H1 as [H1 ->]. clear E1.
    apply bind_inv_ok in E as (listed & w2 & E1 & E).
    assert (Hlisted : w2 = w
              /\ (listed = true -> listed_14 (atomExceptions w) p1 p2)
              /\ (listed = false -> ~ listed_14 (atomExceptions w) p1 p2)).
    { destruct (mem_Z p2 of1) eqn:Hm.
      - inversion E1; subst. split; [reflexivity|]. split; [|discriminate].
        intros _. left. exists of1. split; [exact H1 | now apply mem_Z_In].
      - apply bind_inv_ok in E1 as (of2 & w3 & E2 & E1).
        assert (H2 : py_getitem (atomExceptions w) p2 = Ok of2 /\ w3 = w)
          by (unfold lift_result in E2; inversion E2; auto).
        destruct H2 as [H2 ->]. inversion E1; subst. split; [reflexivity|].
        split.
        + intros Hm2. right. exists of2. split; [exact H2 | now apply mem_Z_In].
        + intros Hm2 [(l & Hl1 & Hin)|(l & Hl2 & Hin)].
          * rewrite H1 in Hl1. inversion Hl1; subst l.
            apply mem_Z_In in Hin. congruence.
          * rewrite H2 in Hl2. inversion Hl2; subst l.
            apply mem_Z_In in Hin. congruence. }
    destruct Hlisted as (-> & Hyes & Hno). clear E1.
    destruct listed.
    + left. apply bind_inv_ok in E as ([] & w2 & E1 & E). inversion E; subst. clear E.
      destruct (floor_exception_ok _ _ _ _ _ _ Hf E1) as (e & _ & Hl' & ->).
      rewrite Hl in Hl'. inversion Hl'; subst e. auto.
    + right. inversion E; subst. split; [reflexivity|]. split; [reflexivity|].
      intros [_ H]. now apply Hno.
  - right. inversion E; subst. split; [reflexivity|]. split; [reflexivity|].
    intros [H _]. apply orb_false_iff in Hinv as [Hm1 Hm2].
    destruct H as [H|H]; apply mem_Z_In in H; congruence.
Qed.

Lemma get14exceptions_loop force particles ps (es : list (Z * Z * num * num * num)) m :
  forall (k : nat) acc (wk w' : World) esk l,
    system_forces wk !! force = Some (NonbondedForce ps esk) ->
    length esk = length es ->
    (forall i, (k <= i)%nat -> esk !! i = es !! i) ->
    foldM (map Z.of_nat (seq k m)) acc (select_exception force particles) wk = (Ok l, w') ->
    exists sel es',
      l = acc ++ sel
      /\ w' = set_system_forces (<[force := NonbondedForce ps es']> (system_forces wk)) wk
      /\ length es' = length es
      /\ StronglySorted Z.lt sel
      /\ (forall i, In i sel <->
            exists p1 p2 cp sg ep,
              Z.of_nat k <= i < Z.of_nat (k + m)
              /\ es !! Z.to_nat i = Some (p1, p2, cp, sg, ep)
              /\ (In p1 particles \/ In p2 particles)
              /\ listed_14 (atomExceptions wk) p1 p2)
      /\ (forall i e, esk !! i = Some e ->
            es' !! i = Some (if mem_Z (Z.of_nat i) sel then floored e else e)).
Proof.
  induction m as [|m IH]; intros k acc wk w' esk l Hf Hlen Hrest E.
  - inversion E; subst. exists [], esk. split; [now rewrite app_nil_r|]. split.
    { rewrite list_insert_id by exact Hf. now rewrite set_system_forces_id. }
    split; [exact Hlen|]. split; [constructor|]. split.
    + intros i. split; [intros []|]. intros (? & ? & ? & ? & ? & H & _). lia.
    + intros i e Hi. exact Hi.
  - simpl in E. apply bind_inv_ok in E as (acc1 & w1 & E1 & E).
    destruct (select_exception_ok _ _ _ _ _ _ _ _ _ Hf E1)
      as (p1 & p2 & cp & sg & ep & _ & Hl & Hcase).
    rewrite Nat2Z.id in Hl, Hcase.
    pose proof (lookup_lt_Some _ _ _ Hf) as Hr.
    pose proof (lookup_lt_Some _ _ _ Hl) as Hk.
    assert (Hes : es !! k = Some (p1, p2, cp, sg, ep)) by (rewrite <- Hrest by lia; exact Hl).
    destruct Hcase as [(-> & -> & Hinv & Hlisted)|(-> & -> & Hnot)].
    + set (es1 := <[k := floored (p1, p2, cp, sg, ep)]> esk) in *.
      match type of E with
      | foldM _ _ _ ?w1 = _ =>
          destruct (IH (S k) (acc ++ [Z.of_nat k]) w1 w' es1 l)
            as (sel & es' & Hl' & Hw' & Hlen' & Hsorted & Hsel & Hfloor);
            [| | |exact E|]
      end.
      { simpl. now apply list_lookup_insert_eq. }
      { subst es1. now rewrite length_insert. }
      { intros i Hi. subst es1. rewrite list_lookup_insert_ne by lia. apply Hrest. lia. }
      simpl in Hw', Hsel. rewrite list_insert_insert_eq in Hw'.
      exists (Z.of_nat k :: sel), es'.
      split; [now rewrite Hl', <- app_assoc|]. split; [exact Hw'|].
      split; [exact Hlen'|]. split; [|split].
      * constructor; [exact Hsorted|]. apply Forall_forall. intros i Hi.
        apply list_elem_of_In, Hsel in Hi as (? & ? & ? & ? & ? & H & _). lia.
      * intros i. simpl. rewrite Hsel. split.
        -- intros [<-|(q1 & q2 & c & s & e & H & H')].
           ++ exists p1, p2, cp, sg, ep. rewrite Nat2Z.id. repeat split; try assumption; lia.
           ++ exists q1, q2, c, s, e. split; [lia | exact H'].
        -- intros (q1 & q2 & c & s & e & H & H').
           destruct (decide (i = Z.of_nat k)) as [->|Hne]; [now left|]. right.
           exists q1, q2, c, s, e. split; [lia | exact H'].
      * intros i e Hi.
        assert (Hnotin : mem_Z (Z.of_nat k) sel = false).
        { apply not_true_iff_false. intros Hm. apply mem_Z_In, Hsel in Hm
            as (? & ? & ? & ? & ? & H & _). lia. }
        destruct (decide (i = k)) as [->|Hne].
        -- rewrite Hl in Hi. inversion Hi; subst e.
           rewrite (Hfloor k (floored (p1, p2, cp, sg, ep)))
             by (subst es1; now apply list_lookup_insert_eq).
           rewrite Hnotin. simpl. now rewrite Z.eqb_refl.
        -- rewrite (Hfloor i e) by (subst es1; now rewrite list_lookup_insert_ne).
           simpl. replace (Z.of_nat i =? Z.of_nat k) with false
             by (symmetry; apply Z.eqb_neq; lia).
           reflexivity.
    + destruct (IH (S k) acc wk w' esk l Hf Hlen) as
          (sel & es' & Hl' & Hw' & Hlen' & Hsorted & Hsel & Hfloor); [|exact E|].
      { intros i Hi. apply Hrest. lia. }
      exists sel, es'. split; [exact Hl'|]. split; [exact Hw'|]. split; [exact Hlen'|].
      split; [exact Hsorted|]. split; [|exact Hfloor].
      intros i. rewrite Hsel. split.
      * intros (q1 & q2 & c & s & e & H & H'). exists q1, q2, c, s, e. split; [lia | exact H'].
      * intros (q1 & q2 & c & s & e & H & Hi & H').
        exists q1, q2, c, s, e. split; [|auto].
        destruct (decide (i = Z.of_nat k)) as [->|Hne]; [|lia].
        rewrite Nat2Z.id, Hes in Hi. inversion Hi; subst. tauto.
Qed.

(** What a call of [get14exceptions] that returns has done. *)
Lemma get14exceptions_ok (w w' : World) particles l :
  get14exceptions PySystem particles w = (Ok l, w') ->
  exists force ps es es',
    nonbonded_force_of_system w = (Ok force, w)
    /\ system_forces w !! force = Some (NonbondedForce ps es)
    /\ w' = set_system_forces (<[force := NonbondedForce ps es']> (system_forces w)) w
    /\ StronglySorted Z.lt l
    /\ (forall i, In i l <->
          exists p1 p2 cp sg ep,
            0 <= i
            /\ es !! Z.to_nat i = Some (p1, p2, cp, sg, ep)
            /\ (In p1 particles \/ In p2 particles)
            /\ listed_14 (atomExceptions w) p1 p2)
    /\ length es' = length es
    /\ (forall i e, es !! i = Some e ->
          es' !! i = Some (if mem_Z (Z.of_nat i) l then floored e else e)).
Proof.
  intros E. unfold get14exceptions in E.
  apply bind_inv_ok in E as (force & w0 & E0 & E).
  assert (Hforce : nonbonded_force_of_system w = (Ok force, w) /\ w0 = w).
  { unfold nonbonded_force_of_system in *.
    destruct last_nonbonded; inversion E0; subst; auto. }
  destruct Hforce as [Hforce ->]. clear E0.
  apply bind_inv_ok in E as (n & w0 & E0 & E).
  assert (Hn : exists ps es, system_forces w !! force = Some (NonbondedForce ps es)
                 /\ n = Z.of_nat (length es) /\ w0 = w).
  { unfold getNumExceptions, bind, lookup_force in E0.
    destruct (system_forces w !! force) as [[ps es|ps|name flag]|]; try discriminate.
    inversion E0; subst. eauto. }
  destruct Hn as (ps & es & Hf & -> & ->). clear E0.
  unfold py_range in E. rewrite Nat2Z.id in E.
  destruct (get14exceptions_loop force particles ps es _ _ _ _ _ es _ Hf eq_refl
              (fun _ _ => eq_refl) E)
    as (sel & es' & Hl & Hw' & Hlen & Hsorted & Hsel & Hfloor).
  simpl in Hl. subst sel.
  exists force, ps, es, es'. repeat split; try assumption.
  - intros Hi. apply Hsel in Hi as (p1 & p2 & cp & sg & ep & H & H').
    exists p1, p2, cp, sg, ep. split; [lia | exact H'].
  - intros (p1 & p2 & cp & sg & ep & H & Hi & H'). apply Hsel.
    exists p1, p2, cp, sg, ep. split; [|auto].
    apply lookup_lt_Some in Hi. lia.
Qed.

End Exceptions.

(** ** What [setTitrationState] sends to the Context *)

Section Upload.
Context {num ctx rng : Type}.
Context `{FO : FloatOps num} `{EO : EnergyOracle num ctx} `{RS : RandomSource num rng}.
Local Abbreviation World := (World num ctx rng).

Lemma context_kept_getParticleParameters r i :
  respects (kept (@context num ctx rng)) (getParticleParameters r i).
Proof. intros w. unfold kept. now rewrite getParticleParameters_state. Qed.

Lemma context_kept_getExceptionParameters r i :
  respects (kept (@context num ctx rng)) (getExceptionParameters r i).
Proof.
  intros w. unfold kept, getExceptionParameters, bind, lookup_force, lift_result.
  now destruct (system_forces w !! r) as [[]|].
Qed.

Lemma context_kept_setParticleParameters r i a b c :
  respects (kept (@context num ctx rng)) (setParticleParameters r i a b c).
Proof.
  intros w. unfold kept, setParticleParameters, bind, lookup_force, lift_result, store_force,
    modify.
  destruct (system_forces w !! r) as [[ps es|ps|name flag]|]; try reflexivity;
    now destruct omm_set.
Qed.

Lemma context_kept_setExceptionParameters r i p1 p2 a b c :
  respects (kept (@context num ctx rng)) (setExceptionParameters r i p1 p2 a b c).
Proof.
  intros w. unfold kept, setExceptionParameters, bind, lookup_force, lift_result, store_force,
    modify.
  destruct (system_forces w !! r) as [[ps es|ps|name flag]|]; try reflexivity;
    now destruct omm_set.
Qed.

Lemma context_kept_update_particle_charge r f0 charges dbg k atom :
  respects (kept (@context num ctx rng)) (update_particle_charge r f0 charges dbg k atom).
Proof.
  unfold update_particle_charge.
  repeat first
    [ apply context_kept_getParticleParameters | apply context_kept_setParticleParameters
    | apply respects_modify; intros ?; reflexivity
    | respects_step ].
Qed.

Lemma context_kept_update_exception r e :
  respects (kept (@context num ctx rng)) (update_exception r e).
Proof.
  unfold update_exception.
  repeat first
    [ apply context_kept_getParticleParameters | apply context_kept_getExceptionParameters
    | apply context_kept_setExceptionParameters
    | respects_step ].
Qed.

Lemma force_pushed_has_update pairs charges scale indices (f f' : Force num) :
  force_pushed pairs charges scale indices f f' ->
  has_updateParametersInContext f' = has_updateParametersInContext f.
Proof.
  destruct f, f'; simpl; try tauto; try reflexivity; intros [_ E]; now inversion E.
Qed.

Lemma update_force_parameters_context r group state uc dbg (w w1 : World) :
  update_force_parameters r group state uc dbg w = (Ok tt, w1) ->
  exists f f',
    system_forces w !! r = Some f /\ system_forces w1 !! r = Some f'
    /\ context w1 = if uc && has_updateParametersInContext f
                    then updateParametersInContext r f' (context w)
                    else context w.
Proof.
  intros E. unfold update_force_parameters in E.
  apply bind_inv_ok in E as (f & w0 & E0 & E).
  assert (Hf : system_forces w !! r = Some f /\ w0 = w).
  { unfold lookup_force in E0. destruct (system_forces w !! r); inversion E0; auto. }
  destruct Hf as [Hf ->]. clear E0.
  apply bind_inv_ok in E as ([] & w2 & E1 & E).
  apply bind_inv_ok in E as ([] & w3 & E2 & E).
  assert (H2 : context w2 = context w).
  { eapply (respects_run (kept context)); [|exact E1].
    apply respects_forM_; [typeclasses eauto|]. intros [k atom].
    apply context_kept_update_particle_charge. }
  assert (H3 : context w3 = context w2).
  { eapply (respects_run (kept context)); [|exact E2].
    destruct f; try (apply respects_ret; typeclasses eauto).
    apply respects_forM_; [typeclasses eauto|]. intros e.
    apply context_kept_update_exception. }
  assert (Hr : exists f3, system_forces w3 !! r = Some f3).
  { assert (Hs3 : skeleton w3 = skeleton w).
    { transitivity (skeleton w2).
      - eapply (respects_run (kept skeleton)); [|exact E2].
        destruct f; try (apply respects_ret; typeclasses eauto).
        apply respects_forM_; [typeclasses eauto|]. intros e.
        apply kept_update_exception; typeclasses eauto.
      - eapply (respects_run (kept skeleton)); [|exact E1].
        apply respects_forM_; [typeclasses eauto|]. intros [k atom].
        apply kept_update_particle_charge; typeclasses eauto. }
    symmetry in Hs3. destruct (skeleton_forces _ _ _ _ Hs3 Hf) as (f3 & Hf3 & _). eauto. }
  destruct Hr as (f3 & Hf3). exists f, f3. split; [exact Hf|].
  destruct (uc && has_updateParametersInContext f).
  - unfold force_updateParametersInContext, bind, lookup_force, modify in E.
    rewrite Hf3 in E. inversion E; subst w1. simpl. split; [exact Hf3|]. congruence.
  - inversion E; subst w1. split; [exact Hf3|]. congruence.
Qed.

Lemma update_forces_context group state uc dbg refs :
  NoDup (atom_indices group) -> NoDup refs ->
  forall w w1 : World,
    forM_ refs (fun force => update_force_parameters force group state uc dbg) w
    = (Ok tt, w1) ->
    context w1 = fold_left (upload uc (system_forces w1)) refs (context w).
Proof.
  intros Hnd Hrefs. induction refs as [|r refs IH]; intros w w1 E.
  - now inversion E.
  - simpl in E. apply bind_inv_ok in E as ([] & w2 & E1 & E).
    apply NoDup_cons in Hrefs as [Hnotin Hrefs].
    rewrite (IH Hrefs _ _ E). simpl. f_equal.
    destruct (update_force_parameters_context _ _ _ _ _ _ _ E1) as (f & f' & Hf & Hf' & Hc).
    destruct (update_force_parameters_ok _ _ _ _ _ _ _ Hnd E1)
      as (f0 & f0' & Hf0 & Hw2 & _ & Hp).
    rewrite Hf in Hf0. inversion Hf0; subst f0. clear Hf0.
    assert (f0' = f') as ->.
    { rewrite Hw2, list_lookup_insert_eq in Hf' by (eapply lookup_lt_Some; eauto).
      congruence. }
    pose proof (update_forces_loop group state uc dbg refs Hnd _ _ E r) as [Hout _].
    unfold upload. rewrite Hout, Hf' by (intros Hin; apply Hnotin; now apply list_elem_of_In).
    rewrite (force_pushed_has_update _ _ _ _ _ _ Hp). exact Hc.
Qed.

(** X12: when [setTitrationState] returns for distinct forces in
    [forces_to_update], a Context that was passed has received
    [updateParametersInContext] once per force, in the order of the list,
    each with the parameters the force has when the call returns; without a
    Context argument the Context is not touched. *)
Theorem setTitrationState_uploads_parameters (w w' : World) g s uc dbg group state :
  0 <= g -> titrationGroups w !! Z.to_nat g = Some group ->
  0 <= s -> titration_states group !! Z.to_nat s = Some state ->
  NoDup (atom_indices group) -> NoDup (forces_to_update w) ->
  setTitrationState g s uc dbg w = (Ok tt, w') ->
  context w' = fold_left (upload uc (system_forces w')) (forces_to_update w) (context w)
  /\ (uc = false -> context w' = context w).
Proof.
  intros Hg Hl Hs Hst Hnd Hrefs E.
  rewrite (setTitrationState_run _ _ _ _ _ _ _ Hg Hl Hs Hst) in E.
  apply bind_inv_ok in E as ([] & w1 & E1 & E).
  assert (Hw' : system_forces w' = system_forces w1 /\ context w' = context w1).
  { unfold store_state, bind, gets, lift_result, modify in E.
    destruct py_setitem; inversion E; auto. }
  destruct Hw' as [Hforces Hcontext]. rewrite Hforces, Hcontext.
  unfold update_forces in E1.
  apply bind_inv_ok in E1 as (refs & w0 & E0 & E1). inversion E0; subst refs w0.
  pose proof (update_forces_context group state uc dbg _ Hnd Hrefs _ _ E1) as H.
  split; [exact H|]. intros ->. rewrite H. clear.
  generalize (context w). induction (forces_to_update w) as [|r refs IH]; intros c.
  - reflexivity.
  - simpl. rewrite IH. unfold upload. now destruct (system_forces w1 !! r).
Qed.
End Upload.

(** ** What [addTitratableGroup] appends *)

Section Groups.
Context {num ctx rng : Type}.
Context `{FO : FloatOps num} `{EO : EnergyOracle num ctx} `{RS : RandomSource num rng}.
Local Abbreviation World := (World num ctx rng).

Lemma overlap_check_state atoms (groups : list (TitrationGroup num)) (w : World) :
  snd (forM_ groups (fun group =>
         if existsb (fun a => mem_Z a (atom_indices group)) atoms
         then raise OverlapError else ret tt) w) = w.
Proof.
  induction groups as [|g groups IH]; [reflexivity|].
  simpl. unfold bind. destruct existsb; [reflexivity|]. simpl. exact IH.
Qed.

(** What a call of [addTitratableGroup] that returns has gone through. *)
Lemma addTitratableGroup_inv atoms (w w' : World) r :
  addTitratableGroup atoms w = (Ok r, w') ->
  ~ overlaps atoms w
  /\ run_as_script w = true
  /\ exists exceptions w3,
       get14exceptions PySystem atoms w = (Ok exceptions, w3)
       /\ w' = set_titrationStates (titrationStates w3 ++ [None])
                 (set_titrationGroups
                    (titrationGroups w3
                     ++ [{| atom_indices := atoms; titration_states := [];
                            index := Z.of_nat (length (titrationGroups w)) + 1;
                            nstates := 0; exception_indices := exceptions |}]) w3).
Proof.
  intros E. split.
  { intros Hov. unfold addTitratableGroup in E.
    unfold bind at 1, gets at 1 in E. unfold bind at 1 in E.
    rewrite (overlap_check_raises atoms (titrationGroups w) w Hov) in E. discriminate. }
  unfold addTitratableGroup in E.
  apply bind_inv_ok in E as (groups & w0 & H0 & E). inversion H0; subst groups w0. clear H0.
  apply bind_inv_ok in E as ([] & w1 & H1 & E).
  pose proof (overlap_check_state atoms (titrationGroups w) w) as Hw1.
  rewrite H1 in Hw1. simpl in Hw1. subst w1. clear H1.
  apply bind_inv_ok in E as (n & w1 & H1 & E). inversion H1; subst n w1. clear H1.
  apply bind_inv_ok in E as (system & w2 & H2 & E).
  assert (Hscript : run_as_script w = true /\ system = PySystem /\ w2 = w).
  { unfold load_global in H2. destruct (run_as_script w); simpl in H2; inversion H2; auto. }
  destruct Hscript as (Hscript & -> & ->). clear H2. split; [exact Hscript|].
  apply bind_inv_ok in E as (exceptions & w3 & H3 & E).
  exists exceptions, w3. split; [exact H3|].
  unfold bind, modify, ret in E. now inversion E.
Qed.

Lemma last_nonbonded_shape (fs fs' : list (Force num)) :
  map force_shape fs = map force_shape fs' ->
  forall position found, last_nonbonded fs position found = last_nonbonded fs' position found.
Proof.
  revert fs'. induction fs as [|f fs IH]; intros [|f' fs'] Hs position found;
    simpl in Hs; try discriminate; [reflexivity|].
  inversion Hs as [[Hf Hrest]].
  destruct f, f'; simpl in Hf; try discriminate; simpl; now apply IH.
Qed.

(** X14: when [addTitratableGroup] returns, the requested atoms overlap no
    earlier group, the group list has one more entry with these atoms and
    no state, the active states one more [None], every recorded exception
    index is an exception of the NonbondedForce that involves an atom of
    the group, in increasing order, and groups that shared no atom before
    share none after. *)
Theorem addTitratableGroup_appends_a_disjoint_group atoms (w w' : World) r :
  addTitratableGroup atoms w = (Ok r, w') ->
  (exists exceptions,
     titrationGroups w'
     = titrationGroups w
       ++ [{| atom_indices := atoms; titration_states := [];
              index := Z.of_nat (length (titrationGroups w)) + 1;
              nstates := 0; exception_indices := exceptions |}]
     /\ StronglySorted Z.lt exceptions
     /\ exists force,
          nonbonded_force_of_system w' = (Ok force, w')
          /\ forall e, In e exceptions ->
               exists p1 p2 cp sg ep,
                 getExceptionParameters force e w' = (Ok (p1, p2, cp, sg, ep), w')
                 /\ (In p1 atoms \/ In p2 atoms))
  /\ titrationStates w' = titrationStates w ++ [None]
  /\ ~ overlaps atoms w
  /\ (groups_disjoint w -> groups_disjoint w').
Proof.
  intros E. destruct (addTitratableGroup_inv _ _ _ _ E) as (Hno & _ & exceptions & w3 & E3 & ->).
  destruct (get14exceptions_ok _ _ _ _ E3)
    as (force & ps & es & es' & Hforce & Hf & -> & Hsorted & Hsel & Hlen & Hfloor).
  assert (Hlast : last_nonbonded (system_forces w) 0 None = Some force).
  { unfold nonbonded_force_of_system in Hforce.
    destruct (last_nonbonded (system_forces w) 0 None); now inversion Hforce. }
  assert (Hshape : map force_shape (<[force := NonbondedForce ps es']> (system_forces w))
                   = map force_shape (system_forces w)).
  { apply (respects_run (kept skeleton)) in E3;
      [|apply kept_get14exceptions; typeclasses eauto].
    unfold kept, skeleton in E3. simpl in E3. now inversion E3. }
  simpl. pose proof (lookup_lt_Some _ _ _ Hf) as Hr.
  split; [|split; [reflexivity|split; [exact Hno|]]].
  - exists exceptions. split; [reflexivity|]. split; [exact Hsorted|].
    exists force. split.
    + unfold nonbonded_force_of_system. simpl.
      now rewrite (last_nonbonded_shape _ _ Hshape), Hlast.
    + intros e He. pose proof (proj2 (mem_Z_In e exceptions) He) as Hmem.
      apply Hsel in He as (p1 & p2 & cp & sg & ep & Hpos & Hl & Hinv & _).
      exists p1, p2, (floor_nonzero cp), sg, (floor_nonzero ep). split; [|exact Hinv].
      eapply getExceptionParameters_run.
      * simpl. now apply list_lookup_insert_eq.
      * apply omm_get_lookup; [exact Hpos|]. rewrite (Hfloor _ _ Hl).
        rewrite Z2Nat.id by lia. now rewrite Hmem.
  - intros Hd i j gi gj a Hij Hi Hj Ha Ha'.
    assert (Hnew : forall k gk, (titrationGroups w ++ [{| atom_indices := atoms;
                     titration_states := [];
                     index := Z.of_nat (length (titrationGroups w)) + 1;
                     nstates := 0; exception_indices := exceptions |}]) !! k = Some gk ->
                   titrationGroups w !! k = Some gk
                   \/ (k = length (titrationGroups w) /\ atom_indices gk = atoms)).
    { intros k gk Hk. destruct (decide (k < length (titrationGroups w))%nat).
      - left. now rewrite lookup_app_l in Hk.
      - right. rewrite lookup_app_r in Hk by lia.
        destruct (k - length (titrationGroups w))%nat eqn:Hd'; simpl in Hk; [|discriminate].
        inversion Hk; subst. simpl. split; [lia | reflexivity]. }
    destruct (Hnew _ _ Hi) as [Hi'|[-> Hai]], (Hnew _ _ Hj) as [Hj'|[-> Haj]].
    + exact (Hd _ _ _ _ _ Hij Hi' Hj' Ha Ha').
    + apply Hno. exists a, gi. rewrite Haj in Ha'. split; [|auto].
      apply list_elem_of_In. eapply list_elem_of_lookup_2; eauto.
    + apply Hno. exists a, gj. rewrite Hai in Ha. split; [|auto].
      apply list_elem_of_In. eapply list_elem_of_lookup_2; eauto.
    + congruence.
Qed.
End Groups.

(** ** The scaling factor found by [get14scaling] *)

Section Scaling.
Context {num ctx rng : Type}.
Context `{FO : FloatOps num} `{EO : EnergyOracle num ctx} `{RS : RandomSource num rng}.
Local Abbreviation World := (World num ctx rng).
Context `{FA : FloatAbs num}.

Local Abbreviation scaling_body force :=
  (fun index : Z =>
     let* '(particle1, particle2, chargeProd, sigma, epsilon) :=
       getExceptionParameters force index in
     let* '(charge1, sigma1, epsilon1) := getParticleParameters force particle1 in
     let* '(charge2, sigma2, epsilon2) := getParticleParameters force particle2 in
     if fltb (of_int 0) (fabs charge1) && fltb (of_int 0) (fabs charge2) then
       let* coulomb14scale :=
         lift_result (py_truediv chargeProd (fmul charge1 charge2)) in
       ret (Some coulomb14scale)
     else ret None).




Lemma respects_first_returned {S A B} (R : S -> S -> Prop) `{!PreOrder R}
    (l : list A) (body : A -> M S (option B)) :
  (forall x, respects R (body x)) -> respects R (first_returned l body).
Proof.
  intros Hb. induction l as [|x l IH]; simpl.
  - now apply respects_ret.
  - apply respects_bind; [assumption | apply Hb |].
    intros [b|]; [now apply respects_ret | exact IH].
Qed.

Lemma unchanged_of_state {A} (c : M World A) :
  (forall w, snd (c w) = w) -> respects (kept (fun w : World => w)) c.
Proof. intros H w. unfold kept. apply H. Qed.

(** Whatever it does, [get14scaling] leaves the world as it was. *)
Lemma get14scaling_reads_only system (w : World) : snd (get14scaling system w) = w.
Proof.
  revert w. change (respects (kept (fun w : World => w)) (get14scaling system)).
  unfold get14scaling.
  repeat first
    [ apply unchanged_of_state; intros w;
      first [ apply getParticleParameters_state
            | unfold nonbonded_force_of_system; now destruct last_nonbonded
            | unfold getNumExceptions, getExceptionParameters, bind, lookup_force,
                lift_result;
              now destruct (system_forces w !! _) as [[]|] ]
    | apply respects_first_returned; [typeclasses eauto | intros ?]
    | respects_step ].
Qed.


Lemma get14scaling_loop_run force ps scale (rest : list (Z * Z * num * num * num)) :
  forall (before : list (Z * Z * num * num * num)) (w : World),
    exact_quotient scale ->
    system_forces w !! force = Some (NonbondedForce ps (before ++ rest)) ->
    scaled_by scale ps (before ++ rest) ->
    first_returned (map Z.of_nat (seq (length before) (length rest))) (scaling_body force) w
    = (Ok (if existsb (both_charged ps) rest then Some scale else None), w).
Proof.
  induction rest as [|e rest IH]; intros before w Hq Hf Hs; [reflexivity|].
  simpl. destruct e as [[[[p1 p2] cp] sg] ep].
  assert (Hl : (before ++ (p1, p2, cp, sg, ep) :: rest) !! length before
               = Some (p1, p2, cp, sg, ep)) by now apply list_lookup_middle.
  destruct (Hs _ _ _ _ _ _ Hl) as (q1 & s1 & e1 & q2 & s2 & e2 & Hg1 & Hg2 & Hcp).
  unfold bind at 1. unfold bind at 1.
  erewrite getExceptionParameters_run;
    [|exact Hf | apply omm_get_lookup; [lia | rewrite Nat2Z.id; exact Hl]].
  unfold bind at 1. erewrite getParticleParameters_run; [|exact Hf | reflexivity | exact Hg1].
  unfold bind at 1. erewrite getParticleParameters_run; [|exact Hf | reflexivity | exact Hg2].
  simpl in Hcp |- *. rewrite Hg1, Hg2 in Hcp |- *.
  destruct (fltb (of_int 0) (fabs q1) && fltb (of_int 0) (fabs q2)) eqn:Hc.
  - apply andb_true_iff in Hc as [Hc1 Hc2].
    unfold bind, lift_result. rewrite (Hcp eq_refl), (Hq _ _ Hc1 Hc2). reflexivity.
  - simpl.
    specialize (IH (before ++ [(p1, p2, cp, sg, ep)]) w Hq).
    rewrite <- app_assoc, length_app in IH. simpl in IH.
    replace (length before + 1)%nat with (S (length before)) in IH by lia.
    now apply IH.
Qed.

(** X16: in an arithmetic where [(scale * q1 * q2) / (q1 * q2)] is [scale]
    for charged [q1], [q2] (the real numbers), on a NonbondedForce whose
    exceptions between charged particles have the charge product
    [scale * charge1 * charge2], [get14scaling] returns [scale] if such an
    exception exists and [None] otherwise. *)
Theorem get14scaling_recovers_scale (w : World) force ps es scale :
  exact_quotient scale ->
  nonbonded_force_of_system w = (Ok force, w) ->
  system_forces w !! force = Some (NonbondedForce ps es) ->
  scaled_by scale ps es ->
  get14scaling PySystem w
  = (Ok (if existsb (both_charged ps) es then Some scale else None), w).
Proof.
  intros Hq Hforce Hf Hs. unfold get14scaling.
  rewrite (bind_ok _ _ _ _ _ Hforce).
  unfold bind at 1, getNumExceptions, bind, lookup_force. rewrite Hf. simpl.
  unfold py_range. rewrite Nat2Z.id.
  exact (get14scaling_loop_run force ps scale es [] w Hq Hf Hs).
Qed.
End Scaling.

(** ** What the constructor sets up *)

Section Constructor.
Context {num ctx rng : Type}.
Context `{FO : FloatOps num} `{EO : EnergyOracle num ctx} `{RS : RandomSource num rng}.
Local Abbreviation World := (World num ctx rng).
Context `{FA : FloatAbs num} `{EU : EnergyUnits num}.
Local Abbreviation keeps_well_formed :=
  (keeps_well_formed (num:=num) (ctx:=ctx) (rng:=rng)).
Local Abbreviation ensemble := (ensemble (num:=num) (ctx:=ctx) (rng:=rng)).
Local Abbreviation surroundings := (surroundings (num:=num) (ctx:=ctx) (rng:=rng)).
Local Abbreviation reads_forces_only :=
  (reads_forces_only (num:=num) (ctx:=ctx) (rng:=rng)).

#[export] Instance framed_surroundings : Framed surroundings.
Proof.
  split; try reflexivity.
  intros v w Hv. unfold surroundings. simpl. now rewrite Hv.
Qed.
#[export] Instance framed_states_surroundings : FramedStates surroundings.
Proof. intros v w _. reflexivity. Qed.
#[export] Instance framed_ensemble_surroundings : FramedEnsemble surroundings.
Proof. split; reflexivity. Qed.

Section KeptSetup.
Context {X : Type} (f : World -> X) `{!Framed f} `{!FramedStates f} `{!FramedEnsemble f}.

Lemma kept_addTitratableGroup atoms : respects (kept f) (addTitratableGroup atoms).
Proof.
  unfold addTitratableGroup.
  repeat first [ apply kept_load_global | apply kept_get14exceptions | respects_step ];
    try typeclasses eauto.
  - apply framed_groups.
  - apply framed_actives.
Qed.

Lemma kept_addTitrationState g pK e ch pc :
  respects (kept f) (addTitrationState g pK e ch pc).
Proof.
  unfold addTitrationState, update_group, getNumTitratableGroups.
  repeat respects_step; try typeclasses eauto.
  all: first [apply framed_groups | apply framed_actives].
Qed.

Lemma kept_load_cpin namelist : respects (kept f) (load_cpin namelist).
Proof.
  unfold load_cpin, load_group, load_state.
  repeat first [ apply kept_addTitratableGroup | apply kept_addTitrationState
               | apply kept_setTitrationState | respects_step ];
    try typeclasses eauto.
Qed.
End KeptSetup.

Lemma py_getitem_nonneg {A} (l : list A) i x :
  0 <= i -> py_getitem l i = Ok x -> l !! Z.to_nat i = Some x.
Proof.
  intros Hi E. unfold py_getitem in E.
  destruct (py_index l i) as [k|] eqn:Hk; [|discriminate].
  apply py_index_nonneg in Hk as [-> _]; [|exact Hi].
  destruct (l !! Z.to_nat i); inversion E. reflexivity.
Qed.

Lemma lift_result_inv {A} (r : Result A) (w w' : World) a :
  lift_result r w = (Ok a, w') -> r = Ok a /\ w' = w.
Proof. unfold lift_result. intros E. inversion E. auto. Qed.

Lemma subscriptable_inv {A} key (value : option (NamelistValue A)) l :
  subscriptable key value = Ok l -> value = Some (Several l).
Proof. destruct value as [[x|l']|]; simpl; intros E; inversion E. reflexivity. Qed.

Lemma dict_getitem_inv {V} (d : list (string * V)) key v :
  dict_getitem d key = Ok v -> assoc_string key d = Some v.
Proof. unfold dict_getitem. destruct assoc_string; intros E; inversion E. reflexivity. Qed.

(** What a call of [load_state] that returns has done. *)
Lemma load_state_ok namelist g first_charge first_state num_atoms k (w w' : World) :
  load_state namelist g first_charge first_state num_atoms k w = (Ok tt, w') ->
  exists state,
    cpin_state namelist first_charge first_state num_atoms k state
    /\ addTitrationState g (pKref state) (relative_energy state) (charges state)
         (proton_count state) w = (Ok tt, w').
Proof.
  intros E. unfold load_state in E.
  apply bind_inv_ok in E as (chrgdat & w1 & E1 & E).
  apply lift_result_inv in E1 as [E1 ->]. apply subscriptable_inv in E1.
  apply bind_inv_ok in E as (statene & w1 & E2 & E).
  apply lift_result_inv in E2 as [E2 ->]. apply subscriptable_inv in E2.
  apply bind_inv_ok in E as (energy & w1 & E3 & E).
  apply lift_result_inv in E3 as [E3 ->].
  apply bind_inv_ok in E as (protcnt & w1 & E4 & E).
  apply lift_result_inv in E4 as [E4 ->]. apply subscriptable_inv in E4.
  apply bind_inv_ok in E as (count & w1 & E5 & E).
  apply lift_result_inv in E5 as [E5 ->].
  eexists {| pKref := _; relative_energy := _; charges := _; proton_count := _ |}.
  split; [|exact E].
  exists chrgdat, statene, protcnt, energy. simpl. repeat split; assumption.
Qed.

Lemma with_states_atoms (states : list (TitrationState num)) :
  forall group,
    atom_indices (fold_left with_state states group) = atom_indices group
    /\ titration_states (fold_left with_state states group)
       = titration_states group ++ states.
Proof.
  induction states as [|st states IH]; intros group; simpl.
  - now rewrite app_nil_r.
  - destruct (IH (with_state group st)) as [Ha Hs]. rewrite Ha, Hs. simpl.
    now rewrite <- app_assoc.
Qed.

(** The loop of lines 184-195 appends one state per index to the group and
    touches no other group. *)
Lemma load_states_ok namelist g first_charge first_state num_atoms ks :
  forall (w w' : World) group,
    forM_ ks (load_state namelist g first_charge first_state num_atoms) w = (Ok tt, w') ->
    0 <= g -> titrationGroups w !! Z.to_nat g = Some group ->
    length (titrationStates w) = length (titrationGroups w) ->
    exists states active,
      Forall2 (cpin_state namelist first_charge first_state num_atoms) ks states
      /\ titrationGroups w'
         = <[Z.to_nat g := fold_left with_state states group]> (titrationGroups w)
      /\ titrationStates w' = <[Z.to_nat g := active]> (titrationStates w)
      /\ (well_formed w = true -> well_formed w' = true)
      /\ system_forces w' = system_forces w
      /\ forces_to_update w' = forces_to_update w.
Proof.
  induction ks as [|k ks IH]; intros w w' group E Hg Hl Hlen.
  - inversion E; subst w'. pose proof (lookup_lt_Some _ _ _ Hl) as Hlt.
    rewrite <- Hlen in Hlt. destruct (lookup_lt_is_Some_2 _ _ Hlt) as (active & Ha).
    exists [], active. simpl. rewrite !list_insert_id by assumption.
    repeat split; auto.
  - simpl in E. apply bind_inv_ok in E as ([] & w1 & E1 & E).
    apply load_state_ok in E1 as (state & Hstate & E1).
    assert (Heta : state = {| pKref := pKref state; relative_energy := relative_energy state;
                              charges := charges state; proton_count := proton_count state |})
      by now destruct state.
    pose proof (well_formed_addTitrationState _ _ _ _ _ _ _ E1) as Hwf.
    apply addTitrationState_ok in E1 as (group' & _ & Hl' & _ & Hlt & ->).
    rewrite Hl in Hl'. inversion Hl'; subst group'. clear Hl'.
    pose proof (lookup_lt_Some _ _ _ Hl) as Hltg.
    rewrite <- Heta in *.
    destruct (IH _ _ (with_state group state) E Hg)
      as (states & active & HF & HG & HS & HW & Hforces & Hrefs).
    { simpl. now apply list_lookup_insert_eq. }
    { simpl. now rewrite !length_insert. }
    exists (state :: states), active. simpl in *.
    rewrite list_insert_insert_eq in HG. rewrite list_insert_insert_eq in HS.
    repeat split; auto.
Qed.

Lemma groups_disjoint_snoc (w w' : World) group :
  titrationGroups w' = titrationGroups w ++ [group] ->
  ~ overlaps (atom_indices group) w ->
  groups_disjoint w -> groups_disjoint w'.
Proof.
  intros Hg Hno Hd i j gi gj a Hij Hi Hj Ha Hb. rewrite Hg in Hi, Hj.
  assert (Hnew : forall k x, (length (titrationGroups w) <= k)%nat ->
            [group] !! (k - length (titrationGroups w))%nat = Some x ->
            k = length (titrationGroups w) /\ x = group).
  { intros k x Hk Hx. destruct (k - length (titrationGroups w))%nat as [|n] eqn:En;
      simpl in Hx; [|discriminate]. inversion Hx. split; [lia | reflexivity]. }
  apply lookup_app_Some in Hi as [Hi | [Hi1 Hi2]];
    apply lookup_app_Some in Hj as [Hj | [Hj1 Hj2]].
  - exact (Hd i j gi gj a Hij Hi Hj Ha Hb).
  - destruct (Hnew _ _ Hj1 Hj2) as [_ ->]. apply Hno. exists a, gi.
    repeat split; auto. apply list_elem_of_In. eapply list_elem_of_lookup_2; eauto.
  - destruct (Hnew _ _ Hi1 Hi2) as [_ ->]. apply Hno. exists a, gj.
    repeat split; auto. apply list_elem_of_In. eapply list_elem_of_lookup_2; eauto.
  - destruct (Hnew _ _ Hi1 Hi2) as [-> _]. destruct (Hnew _ _ Hj1 Hj2) as [-> _].
    congruence.
Qed.

(** What a pass of the loop of lines 171-198 that completes has done. *)
Lemma load_group_ok namelist resstate g (w w' : World) :
  load_group namelist resstate g w = (Ok tt, w') ->
  g = Z.of_nat (length (titrationGroups w)) ->
  length (titrationStates w) = length (titrationGroups w) ->
  exists group s,
    cpin_group namelist g group
    /\ ~ overlaps (atom_indices group) w
    /\ titrationGroups w' = titrationGroups w ++ [group]
    /\ resstate !! Z.to_nat g = Some s
    /\ titrationStates w' = titrationStates w ++ [Some s]
    /\ in_range s (Z.of_nat (length (titration_states group))) = true
    /\ run_as_script w = true
    /\ (well_formed w = true -> well_formed w' = true)
    /\ exists w2,
         setTitrationState g s false false w2 = (Ok tt, w')
         /\ titrationGroups w2 = titrationGroups w ++ [group]
         /\ map particles_of (system_forces w2) = map particles_of (system_forces w)
         /\ forces_to_update w2 = forces_to_update w.
Proof.
  intros E -> Hlen. unfold load_group in E.
  apply bind_inv_ok in E as (first_atom & w1 & E1 & E).
  apply lift_result_inv in E1 as [E1 ->]. apply dict_getitem_inv in E1.
  apply bind_inv_ok in E as (first_charge & w1 & E2 & E).
  apply lift_result_inv in E2 as [E2 ->]. apply dict_getitem_inv in E2.
  apply bind_inv_ok in E as (first_state & w1 & E3 & E).
  apply lift_result_inv in E3 as [E3 ->]. apply dict_getitem_inv in E3.
  apply bind_inv_ok in E as (num_atoms & w1 & E4 & E).
  apply lift_result_inv in E4 as [E4 ->]. apply dict_getitem_inv in E4.
  apply bind_inv_ok in E as (num_states & w1 & E5 & E).
  apply lift_result_inv in E5 as [E5 ->]. apply dict_getitem_inv in E5.
  apply bind_inv_ok in E as (r & w1 & E6 & E).
  pose proof (well_formed_addTitratableGroup _ _ _ _ E6) as Hwf1.
  apply addTitratableGroup_inv in E6 as (Hno & Hscript & exceptions & w3 & E6 & ->).
  assert (Hparticles : map particles_of (system_forces w3) = map particles_of (system_forces w)
                       /\ forces_to_update w3 = forces_to_update w).
  { destruct (get14exceptions_ok _ _ _ _ E6) as (force & ps & es & es' & _ & Hf & -> & _).
    simpl. split; [|reflexivity].
    apply list_eq. intros i. change (map ?f ?l) with (f <$> l). rewrite !list_lookup_fmap.
    destruct (decide (i = force)) as [->|Hne].
    - rewrite list_lookup_insert_eq by (apply lookup_lt_Some in Hf; exact Hf).
      now rewrite Hf.
    - now rewrite list_lookup_insert_ne by congruence. }
  destruct Hparticles as [Hparticles Hrefs3].
  apply (respects_run (kept ensemble)) in E6;
    [|apply kept_get14exceptions; typeclasses eauto].
  unfold kept, ensemble in E6. inversion E6 as [[HG3 HS3]]. clear E6.
  rewrite HG3, HS3 in *.
  set (atoms := py_range2 (first_atom - 1) (first_atom - 1 + num_atoms)) in *.
  set (new := {| atom_indices := atoms; titration_states := [];
                 index := Z.of_nat (length (titrationGroups w)) + 1;
                 nstates := 0; exception_indices := exceptions |}) in *.
  apply bind_inv_ok in E as ([] & w2 & E7 & E).
  destruct (load_states_ok _ _ _ _ _ _ _ _ new E7)
    as (states & active & HF & HG & HS & Hwf2 & Hforces2 & Hrefs2).
  { lia. }
  { simpl. rewrite Nat2Z.id. apply list_lookup_middle. reflexivity. }
  { simpl. rewrite !length_app, Hlen. reflexivity. }
  simpl in HG, HS. rewrite Nat2Z.id in HG, HS.
  assert (HG' : titrationGroups w2
                = titrationGroups w ++ [fold_left with_state states new]).
  { rewrite HG. rewrite insert_app_r_alt by lia. now rewrite Nat.sub_diag. }
  assert (HS' : titrationStates w2 = titrationStates w ++ [active]).
  { rewrite HS. rewrite insert_app_r_alt by lia. rewrite <- Hlen, Nat.sub_diag.
    reflexivity. }
  clear HG HS.
  apply bind_inv_ok in E as (s & w2' & E8 & E).
  apply lift_result_inv in E8 as [E8 ->].
  pose proof (well_formed_setTitrationState (Z.of_nat (length (titrationGroups w))) s
                false false w2) as Hwf3.
  rewrite E in Hwf3. simpl in Hwf3. pose proof E as Eset.
  pose proof E as EG. apply (respects_run (kept skeleton)) in EG;
    [|apply kept_setTitrationState; typeclasses eauto].
  assert (EG' : titrationGroups w' = titrationGroups w2)
    by (unfold kept, skeleton in EG; congruence).
  clear EG. rename EG' into EG.
  pose proof (setTitrationState_ok _ _ _ _ _ _ E) as (group' & state & _ & Hl' & Hs & Hst).
  apply setTitrationState_states in E as (_ & _ & HS'').
  rewrite Nat2Z.id in *.
  rewrite HG' in Hl'. rewrite list_lookup_middle in Hl' by reflexivity.
  inversion Hl'; subst group'. clear Hl'.
  destruct (with_states_atoms states new) as [Hatoms Hstates]. simpl in Hatoms, Hstates.
  exists (fold_left with_state states new), s. repeat split.
  - exists first_atom, first_charge, first_state, num_atoms, num_states.
    repeat split; try assumption. now rewrite Hstates.
  - now rewrite Hatoms.
  - now rewrite EG.
  - unfold py_getitem in E8.
    destruct (py_index resstate (Z.of_nat (length (titrationGroups w)))) as [k|] eqn:Hk;
      [|discriminate].
    apply py_index_nonneg in Hk as [-> _]; [|lia]. rewrite Nat2Z.id in E8.
    destruct (resstate !! length (titrationGroups w)); inversion E8. reflexivity.
  - rewrite HS'', HS'. rewrite insert_app_r_alt by lia. rewrite <- Hlen, Nat.sub_diag.
    reflexivity.
  - apply in_range_spec. apply lookup_lt_Some in Hst. lia.
  - exact Hscript.
  - auto.
  - exists w2. simpl in Hforces2, Hrefs2. rewrite Hforces2, Hrefs2.
    repeat split; assumption.
Qed.

Lemma force_pushed_particles pairs (charges : list num) scale indices (f f' : Force num) :
  force_pushed pairs charges scale indices f f' ->
  (exists ps ps', particles_of f = Some ps /\ particles_of f' = Some ps'
                  /\ charges_pushed pairs charges ps ps')
  \/ (pairs = [] /\ particles_of f = None).
Proof.
  destruct f as [ps es|ps|name flag], f' as [ps' es'|ps'|name' flag']; simpl;
    try contradiction.
  - intros [Hc _]. left. eauto.
  - intros Hc. left. eauto.
  - intros [-> _]. now right.
  - intros [-> _]. now right.
  - intros [-> _]. now right.
Qed.

Lemma NoDup_py_range2 a b : NoDup (py_range2 a b).
Proof.
  unfold py_range2. change (map ?f ?l) with (f <$> l).
  apply NoDup_fmap_2; [|apply NoDup_seq]. intros x y. lia.
Qed.

(** Setting the state of a new last group whose atoms no other group has
    leaves the charges of the other groups in the forces and puts in those
    of the new one. *)
Lemma push_keeps_charges (w w2 w' : World) group s state :
  length (titrationStates w) = length (titrationGroups w) ->
  titrationGroups w2 = titrationGroups w ++ [group] ->
  titrationStates w' = titrationStates w ++ [Some s] ->
  map particles_of (system_forces w2) = map particles_of (system_forces w) ->
  forces_to_update w2 = forces_to_update w ->
  ~ overlaps (atom_indices group) w ->
  NoDup (atom_indices group) ->
  0 <= s -> titration_states group !! Z.to_nat s = Some state ->
  setTitrationState (Z.of_nat (length (titrationGroups w))) s false false w2 = (Ok tt, w') ->
  charges_in_force w -> charges_in_force w'.
Proof.
  intros Hlen HG2 HS' Hparticles Hrefs Hno Hnd Hs Hst E Hinv.
  assert (Hl2 : titrationGroups w2 !! Z.to_nat (Z.of_nat (length (titrationGroups w)))
                = Some group).
  { rewrite Nat2Z.id, HG2. now apply list_lookup_middle. }
  pose proof (setTitrationState_forces_pushed _ _ _ _ _ _ _ _
                (Nat2Z.is_nonneg _) Hl2 Hs Hst Hnd E) as Hp.
  apply (respects_run (kept skeleton)) in E;
    [|apply kept_setTitrationState; typeclasses eauto].
  assert (HG' : titrationGroups w' = titrationGroups w ++ [group])
    by (unfold kept, skeleton in E; congruence).
  assert (Hrefs' : forces_to_update w' = forces_to_update w)
    by (unfold kept, skeleton in E; congruence).
  clear E.
  intros g0 group0 s0 state0 k atom force HG0 HS0 Hs0 Hst0 Hatom Hin.
  rewrite Hrefs' in Hin. rewrite HG' in HG0. rewrite HS' in HS0.
  destruct (Hp force) as [_ Hpushed].
  destruct Hpushed as (f & f' & Hf & Hf' & Hpushed); [now rewrite Hrefs|].
  apply force_pushed_particles in Hpushed.
  apply lookup_app_Some in HG0 as [HG0 | [Hge HG0]].
  - pose proof (lookup_lt_Some _ _ _ HG0) as Hlt.
    rewrite lookup_app_l in HS0 by lia.
    destruct (Hinv _ _ _ _ _ _ _ HG0 HS0 Hs0 Hst0 Hatom Hin)
      as (f0 & ps & c & sg & ep & Hf0 & Hps & Hpos & Hl & Hc).
    assert (Hps2 : particles_of f = Some ps).
    { apply (f_equal (fun l => l !! force)) in Hparticles.
      change (map ?f ?l) with (f <$> l) in Hparticles.
      rewrite !list_lookup_fmap, Hf, Hf0 in Hparticles. simpl in Hparticles. congruence. }
    destruct Hpushed as [(ps0 & ps' & Hps0 & Hps' & _ & Hother & _) | [_ Hnone]];
      [|congruence].
    rewrite Hps2 in Hps0. inversion Hps0; subst ps0.
    exists f', ps', c, sg, ep. repeat split; auto.
    rewrite Hother; [exact Hl|].
    rewrite map_snd_enumerate, Z2Nat.id by exact Hpos. intros Hin'.
    apply Hno. exists atom, group0. repeat split; auto.
    + apply list_elem_of_In. eapply list_elem_of_lookup_2; eauto.
    + apply list_elem_of_In. eapply list_elem_of_lookup_2; eauto.
  - destruct (g0 - length (titrationGroups w))%nat as [|m] eqn:Hm; simpl in HG0;
      [|discriminate].
    inversion HG0; subst group0. clear HG0.
    assert (g0 = length (titrationStates w)) by lia. subst g0.
    rewrite list_lookup_middle in HS0 by reflexivity. inversion HS0; subst s0.
    rewrite Hst in Hst0. inversion Hst0; subst state0.
    pose proof (In_enumerate _ _ _ Hatom) as Hpair.
    destruct Hpushed as [(ps0 & ps' & Hps0 & Hps' & _ & _ & Hset) | [Hnil _]].
    + destruct (Hset _ _ Hpair) as (c & q & sg & ep & Hc & Hpos & _ & Hl').
      exists f', ps', c, sg, ep. repeat split; auto.
      apply py_getitem_nonneg in Hc; [|lia]. now rewrite Nat2Z.id in Hc.
    + rewrite Hnil in Hpair. destruct Hpair.
Qed.

(** The loop of lines 171-198. *)
Lemma load_groups_ok namelist resstate n :
  forall (w w' : World),
    forM_ (map Z.of_nat (seq (length (titrationGroups w)) n))
      (load_group namelist resstate) w = (Ok tt, w') ->
    length (titrationStates w) = length (titrationGroups w) ->
    exists groups actives,
      titrationGroups w' = titrationGroups w ++ groups
      /\ titrationStates w' = titrationStates w ++ actives
      /\ length groups = n /\ length actives = n
      /\ (forall i group, groups !! i = Some group ->
            exists s,
              cpin_group namelist (Z.of_nat (length (titrationGroups w) + i)) group
              /\ resstate !! (length (titrationGroups w) + i)%nat = Some s
              /\ actives !! i = Some (Some s)
              /\ in_range s (Z.of_nat (length (titration_states group))) = true)
      /\ (groups_disjoint w -> groups_disjoint w')
      /\ (n <> 0%nat -> run_as_script w = true)
      /\ (well_formed w = true -> well_formed w' = true)
      /\ (charges_in_force w -> charges_in_force w').
Proof.
  induction n as [|n IH]; intros w w' E Hlen.
  - inversion E; subst w'. exists [], []. rewrite !app_nil_r.
    repeat split; auto; try discriminate; try congruence.
  - simpl in E. apply bind_inv_ok in E as ([] & w1 & E1 & E).
    destruct (load_group_ok _ _ _ _ _ E1 eq_refl Hlen)
      as (group & s & Hgroup & Hno & HG & Hs & HS & Hr & Hscript & Hwf
          & w2 & Eset & HG2 & Hparticles & Hrefs).
    assert (Hcharges : charges_in_force w -> charges_in_force w1).
    { apply in_range_spec in Hr.
      destruct (lookup_lt_is_Some_2 (titration_states group) (Z.to_nat s)) as (state & Hst);
        [lia|].
      apply (push_keeps_charges w w2 w1 group s state); auto; try lia.
      destruct Hgroup as (fa & fc & fs & na & ns & _ & _ & _ & _ & _ & -> & _).
      apply NoDup_py_range2. }
    rewrite Nat2Z.id in Hs.
    assert (HlenG : length (titrationGroups w1) = S (length (titrationGroups w))).
    { rewrite HG, length_app. simpl. lia. }
    rewrite <- HlenG in E.
    destruct (IH _ _ E)
      as (groups & actives & HG' & HS' & Hn & Hn' & Hall & Hd & _ & Hwf' & Hcharges').
    { rewrite HS, HG, !length_app. simpl. lia. }
    exists (group :: groups), (Some s :: actives).
    rewrite HG' , HS', HG, HS, <- !app_assoc. simpl.
    repeat split; auto.
    + intros [|i] group' Hl; simpl in Hl.
      * inversion Hl; subst group'. exists s. rewrite Nat.add_0_r. auto.
      * destruct (Hall _ _ Hl) as (s' & H1 & H2 & H3 & H4). exists s'.
        rewrite HlenG in H1, H2.
        replace (length (titrationGroups w) + S i)%nat
          with (S (length (titrationGroups w)) + i)%nat by lia. auto.
    + intros Hd0. apply Hd. eapply groups_disjoint_snoc; eauto.
Qed.

Lemma append_atomException_run a b table (w0 : World) :
  append_atomException a b (set_atomExceptions table w0)
  = match py_getitem table a with
    | Ok l =>
        match py_setitem table a (l ++ [b]) with
        | Ok table' => (Ok tt, set_atomExceptions table' w0)
        | Raise e => (Raise e, set_atomExceptions table w0)
        end
    | Raise e => (Raise e, set_atomExceptions table w0)
    end.
Proof.
  unfold append_atomException, bind, gets, lift_result, modify. simpl.
  destruct (py_getitem table a); [|reflexivity].
  destruct (py_setitem table a _); reflexivity.
Qed.

(** One pass of the loop of lines 146-148 on atoms that are not negative. *)
Lemma tabulate_pair a b table (w0 w' : World) :
  0 <= a -> 0 <= b ->
  (append_atomException a b ;; append_atomException b a) (set_atomExceptions table w0)
  = (Ok tt, w') ->
  exists table',
    w' = set_atomExceptions table' w0
    /\ length table' = length table
    /\ (Z.to_nat a < length table)%nat /\ (Z.to_nat b < length table)%nat
    /\ forall x l0, table !! x = Some l0 ->
         exists l, table' !! x = Some l
           /\ forall y, In y l <-> In y l0 \/ (x = Z.to_nat a /\ y = b)
                                   \/ (x = Z.to_nat b /\ y = a).
Proof.
  intros Ha Hb E. apply bind_inv_ok in E as ([] & w1 & E1 & E).
  rewrite append_atomException_run in E1.
  destruct (py_getitem table a) as [la|] eqn:Hla; [|discriminate].
  destruct (py_setitem table a (la ++ [b])) as [t1|] eqn:Ht1; [|discriminate].
  inversion E1; subst w1. clear E1.
  rewrite append_atomException_run in E.
  destruct (py_getitem t1 b) as [lb|] eqn:Hlb; [|discriminate].
  destruct (py_setitem t1 b (lb ++ [a])) as [t2|] eqn:Ht2; [|discriminate].
  inversion E; subst w'. clear E.
  apply py_getitem_nonneg in Hla; [|exact Ha].
  apply py_getitem_nonneg in Hlb; [|exact Hb].
  apply py_setitem_nonneg in Ht1 as [-> Hlta]; [|exact Ha].
  apply py_setitem_nonneg in Ht2 as [-> Hltb]; [|exact Hb].
  rewrite length_insert in Hltb.
  exists (<[Z.to_nat b := lb ++ [a]]> (<[Z.to_nat a := la ++ [b]]> table)).
  rewrite !length_insert. repeat split; auto.
  intros x l0 Hx.
  destruct (decide (x = Z.to_nat b)) as [->|Hxb].
  - rewrite list_lookup_insert_eq by now rewrite length_insert.
    eexists; split; [reflexivity|]. intros y. rewrite in_app_iff. simpl.
    destruct (decide (Z.to_nat b = Z.to_nat a)) as [Hab|Hab].
    + rewrite Hab in Hlb, Hx. rewrite list_lookup_insert_eq in Hlb by exact Hlta.
      inversion Hlb; subst lb. rewrite Hx in Hla. inversion Hla; subst la.
      rewrite in_app_iff. simpl. rewrite Hab. intuition congruence.
    + rewrite list_lookup_insert_ne in Hlb by congruence.
      rewrite Hx in Hlb. inversion Hlb; subst lb. intuition congruence.
  - rewrite list_lookup_insert_ne by congruence.
    destruct (decide (x = Z.to_nat a)) as [->|Hxa].
    + rewrite list_lookup_insert_eq by exact Hlta.
      rewrite Hx in Hla. inversion Hla; subst la.
      eexists; split; [reflexivity|]. intros y. rewrite in_app_iff. simpl.
      intuition congruence.
    + rewrite list_lookup_insert_ne by congruence.
      exists l0. split; [exact Hx|]. intuition congruence.
Qed.

(** The loop of lines 146-148, for atoms that are not negative: every
    atom is below the length of the table, and atom [x] gains the partners
    it has in the pairs, in either position. *)
Lemma tabulate_loop (pairs : list (Z * Z)) :
  forall table (w0 w' : World),
    forM_ pairs (fun '(atom1, atom2) =>
      append_atomException atom1 atom2 ;; append_atomException atom2 atom1)
      (set_atomExceptions table w0) = (Ok tt, w') ->
    (forall a b, In (a, b) pairs -> 0 <= a /\ 0 <= b) ->
    exists table',
      w' = set_atomExceptions table' w0
      /\ length table' = length table
      /\ (forall a b, In (a, b) pairs ->
            (Z.to_nat a < length table)%nat /\ (Z.to_nat b < length table)%nat)
      /\ forall a l0, 0 <= a -> table !! Z.to_nat a = Some l0 ->
           exists l, table' !! Z.to_nat a = Some l
             /\ forall b, In b l <-> In b l0 \/ In (a, b) pairs \/ In (b, a) pairs.
Proof.
  induction pairs as [|[a b] pairs IH]; intros table w0 w' E Hpos.
  - inversion E. exists table. split; [reflexivity|]. split; [reflexivity|]. split.
    + intros ? ? [].
    + intros x l0 _ Hl. exists l0. split; [exact Hl|]. simpl. tauto.
  - simpl in E. apply bind_inv_ok in E as ([] & w1 & E1 & E).
    destruct (Hpos a b (or_introl eq_refl)) as [Ha Hb].
    apply tabulate_pair in E1 as (t1 & -> & Hlen1 & Hlta & Hltb & Hstep); auto.
    apply IH in E as (t2 & -> & Hlen2 & Hlt & Hrest).
    2: { intros a' b' Hin. apply Hpos. now right. }
    exists t2. split; [reflexivity|]. split; [congruence|]. split.
    + intros a' b' [Heq|Hin].
      * inversion Heq; subst. auto.
      * rewrite <- Hlen1. now apply Hlt.
    + intros x l0 Hx Hl0.
      destruct (Hstep _ _ Hl0) as (l1 & Hl1 & Hin1).
      destruct (Hrest _ _ Hx Hl1) as (l & Hl & Hin).
      exists l. split; [exact Hl|]. intros y. rewrite Hin, Hin1. simpl.
      split.
      * intros [[H|[[Hxa ->]|[Hxb ->]]]|[H|H]]; auto.
        -- right. left. left. f_equal. lia.
        -- right. right. left. f_equal. lia.
      * intros [H|[[H|H]|[H|H]]]; auto.
        -- inversion H; subst. left. right. left. auto.
        -- inversion H; subst. left. right. right. auto.
Qed.

Lemma tabulate_pair_frame a b table (w0 : World) :
  exists table',
    snd ((append_atomException a b ;; append_atomException b a)
           (set_atomExceptions table w0))
    = set_atomExceptions table' w0.
Proof.
  unfold bind. rewrite append_atomException_run.
  destruct (py_getitem table a) as [la|]; [|now exists table].
  destruct (py_setitem table a (la ++ [b])) as [t1|]; [|now exists table].
  rewrite append_atomException_run.
  destruct (py_getitem t1 b) as [lb|]; [|now exists t1].
  destruct (py_setitem t1 b (lb ++ [a])) as [t2|]; [now exists t2 | now exists t1].
Qed.

(** The loop of lines 146-148 changes the table only. *)
Lemma tabulate_frame (pairs : list (Z * Z)) :
  forall table (w0 : World),
    exists table',
      snd (forM_ pairs (fun '(atom1, atom2) =>
             append_atomException atom1 atom2 ;; append_atomException atom2 atom1)
             (set_atomExceptions table w0))
      = set_atomExceptions table' w0.
Proof.
  induction pairs as [|[a b] pairs IH]; intros table w0.
  - exists table. reflexivity.
  - simpl. unfold bind at 1.
    destruct (tabulate_pair_frame a b table w0) as (t1 & Ht1).
    destruct ((append_atomException a b ;; append_atomException b a)
                (set_atomExceptions table w0)) as [[[]|e] w1]; simpl in Ht1; subst w1.
    + apply IH.
    + now exists t1.
Qed.

(** The steps a call of the constructor that returns has gone through. *)
Lemma init_inv T pH_value prmtop cpin n p dbg (w w' : World) :
  __init__ T pH_value prmtop cpin n p dbg w = (Ok tt, w') ->
  exists scale table w5,
    let w1 := store_parameters T pH_value p dbg w in
    let w2 := set_atomExceptions (replicate (Z.to_nat (getNumAtoms prmtop)) [])
                (set_coulomb14scale scale w1) in
    let w4 := set_forces_to_update (updatable_forces (system_forces w) 0)
                (set_atomExceptions table (set_coulomb14scale scale w1)) in
    get14scaling PySystem w1 = (Ok scale, w1)
    /\ forM_ (get14Interactions prmtop) (fun '(atom1, atom2) =>
         append_atomException atom1 atom2 ;; append_atomException atom2 atom1) w2
       = (Ok tt, set_atomExceptions table (set_coulomb14scale scale w1))
    /\ match cpin with
       | Some namelist => load_cpin namelist w4 = (Ok tt, w5)
       | None => w5 = w4
       end
    /\ w' = set_work_history []
              (set_naccepted 0
                 (set_nattempted 0
                    (set_nattempts_per_update
                       match n with
                       | Some k => k
                       | None => Z.of_nat (length (titrationGroups w5))
                       end w5))).
Proof.
  intros E. unfold __init__ in E.
  apply bind_inv_ok in E as ([] & w1 & E1 & E). inversion E1; subst w1. clear E1.
  apply bind_inv_ok in E as (scale & w1 & E1 & E).
  pose proof (get14scaling_reads_only PySystem (store_parameters T pH_value p dbg w)) as Hr.
  rewrite E1 in Hr. simpl in Hr. subst w1.
  apply bind_inv_ok in E as ([] & w2 & E2 & E). inversion E2; subst w2. clear E2.
  apply bind_inv_ok in E as ([] & w2 & E2 & E). inversion E2; subst w2. clear E2.
  apply bind_inv_ok in E as ([] & w3 & E3 & E).
  destruct (tabulate_frame (get14Interactions prmtop)
              (replicate (Z.to_nat (getNumAtoms prmtop)) [])
              (set_coulomb14scale scale (store_parameters T pH_value p dbg w)))
    as (table & Ht).
  simpl in E3. rewrite E3 in Ht. simpl in Ht. subst w3.
  apply bind_inv_ok in E as (forces & w4 & E4 & E). inversion E4; subst forces w4. clear E4.
  apply bind_inv_ok in E as ([] & w4 & E4 & E). inversion E4; subst w4. clear E4.
  apply bind_inv_ok in E as ([] & w5 & E5 & E).
  apply bind_inv_ok in E as ([] & w6 & E6 & E).
  exists scale, table, w5. simpl. split; [exact E1|]. split; [exact E3|]. split.
  - destruct cpin as [namelist|]; [exact E5 | now inversion E5].
  - unfold resetStatistics, bind, modify in E. inversion E; subst w'. clear E.
    destruct n as [k|]; simpl in E6.
    + inversion E6; subst w6. reflexivity.
    + unfold bind, getNumTitratableGroups, gets, modify in E6. inversion E6; subst w6.
      reflexivity.
Qed.

Lemma reads_forces_only_bind {A B} (c : M World A) (k : A -> M World B) :
  reads_forces_only c -> (forall a, reads_forces_only (k a)) -> reads_forces_only (bind c k).
Proof.
  intros Hc Hk w1 w2 H. unfold bind. destruct (Hc w1 w2 H) as [Hr Hf].
  destruct (c w1) as [r1 w1'], (c w2) as [r2 w2']. simpl in Hr, Hf. subst r2.
  destruct r1 as [a|e]; [now apply Hk | auto].
Qed.

Lemma reads_forces_only_pure {A} (r : Result A) :
  reads_forces_only (lift_result (S:=World) r).
Proof. intros w1 w2 H. auto. Qed.

Lemma reads_forces_only_lookup_force force : reads_forces_only (lookup_force force).
Proof.
  intros w1 w2 H. unfold lookup_force. rewrite H.
  destruct (system_forces w2 !! force); auto.
Qed.

Lemma reads_forces_only_first_returned {A B} (l : list A) (body : A -> M World (option B)) :
  (forall x, reads_forces_only (body x)) -> reads_forces_only (first_returned l body).
Proof.
  intros Hb. induction l as [|x l IH]; simpl.
  - exact (reads_forces_only_pure (Ok None)).
  - apply reads_forces_only_bind; [apply Hb|].
    intros [b|]; [exact (reads_forces_only_pure (Ok (Some b))) | exact IH].
Qed.

Ltac reads_forces_only_tac :=
  repeat first
    [ apply reads_forces_only_lookup_force
    | apply reads_forces_only_pure
    | exact (reads_forces_only_pure (Ok _))
    | exact (reads_forces_only_pure (Raise _))
    | apply reads_forces_only_bind; [|intros ?]
    | apply reads_forces_only_first_returned; intros ?
    | match goal with
      | |- reads_forces_only (match ?x with _ => _ end) => destruct x
      | |- reads_forces_only (if ?b then _ else _) => destruct b
      end ].

(** The result of [get14scaling] depends on the forces of the System only. *)
Lemma get14scaling_reads_forces_only system : reads_forces_only (get14scaling system).
Proof.
  unfold get14scaling, getNumExceptions, getExceptionParameters, getParticleParameters.
  destruct system; try exact (reads_forces_only_pure (Raise _)).
  apply reads_forces_only_bind.
  { intros w1 w2 H. unfold nonbonded_force_of_system. rewrite H.
    destruct last_nonbonded; auto. }
  intros force. reads_forces_only_tac.
Qed.

(** What a call of [load_cpin] on a driver without groups has done when it
    returns. *)
Lemma load_cpin_ok namelist (w w' : World) :
  load_cpin namelist w = (Ok tt, w') ->
  titrationGroups w = [] -> titrationStates w = [] ->
  exists resstate,
    resstate_of namelist = Some resstate
    /\ length (titrationGroups w') = length resstate
    /\ titrationStates w' = map Some resstate
    /\ (forall g group, titrationGroups w' !! g = Some group ->
          cpin_group namelist (Z.of_nat g) group
          /\ exists s, resstate !! g = Some s
               /\ in_range s (Z.of_nat (length (titration_states group))) = true)
    /\ groups_disjoint w'
    /\ (resstate <> [] -> run_as_script w = true)
    /\ well_formed w' = true
    /\ surroundings w' = surroundings w
    /\ charges_in_force w'.
Proof.
  intros E HG HS.
  pose proof E as Ekept. apply (respects_run (kept surroundings)) in Ekept;
    [|apply kept_load_cpin; typeclasses eauto].
  unfold load_cpin in E. apply bind_inv_ok in E as (resstate & w1 & E1 & E).
  apply lift_result_inv in E1 as [E1 ->].
  assert (Hres : resstate_of namelist = Some resstate).
  { unfold resstate_of. destruct (RESSTATE namelist) as [[state|states]|];
      inversion E1; reflexivity. }
  clear E1. unfold py_range in E. rewrite Nat2Z.id in E.
  change 0%nat with (@length (TitrationGroup num) []) in E. rewrite <- HG in E.
  destruct (load_groups_ok _ _ _ _ _ E)
    as (groups & actives & HG' & HS' & Hn & Hn' & Hall & Hd & Hscript & Hwf & Hcharges).
  { now rewrite HG, HS. }
  rewrite HG in *. rewrite HS in *. simpl in *.
  exists resstate. split; [exact Hres|]. split; [congruence|]. split; [|split; [|split]].
  - rewrite HS'. apply list_eq. intros i.
    change (map Some resstate) with (Some <$> resstate). rewrite list_lookup_fmap.
    destruct (groups !! i) as [group|] eqn:Hgi.
    + destruct (Hall _ _ Hgi) as (s & _ & Hs & Ha & _). now rewrite Hs, Ha.
    + apply lookup_ge_None in Hgi.
      assert (Ha : actives !! i = None) by (apply lookup_ge_None; lia).
      assert (Hr : resstate !! i = None) by (apply lookup_ge_None; lia).
      now rewrite Ha, Hr.
  - intros g group Hl. rewrite HG' in Hl.
    destruct (Hall _ _ Hl) as (s & Hc & Hs & _ & Hr). split; [exact Hc|]. eauto.
  - apply Hd. intros i j gi gj a _ Hi. rewrite HG in Hi. discriminate.
  - repeat split.
    + intros Hne. apply Hscript. intros Hz. apply Hne.
      destruct resstate; [reflexivity | discriminate].
    + apply Hwf. unfold well_formed. now rewrite HG, HS.
    + exact Ekept.
    + apply Hcharges. intros g group s state k atom force Hl. rewrite HG in Hl.
      discriminate.
Qed.

Lemma updatable_forces_spec (fs : list (Force num)) :
  forall position,
    NoDup (updatable_forces fs position)
    /\ forall r, In r (updatable_forces fs position)
         <-> (position <= r)%nat
             /\ exists f, fs !! (r - position)%nat = Some f /\ particles_of f <> None.
Proof.
  induction fs as [|f fs IH]; intros position.
  - split; [constructor|]. intros r. simpl. split; [tauto|].
    intros (_ & f & Hl & _). discriminate.
  - destruct (IH (S position)) as [Hnd Hin].
    assert (Hrest : forall r,
              (position <= r)%nat
              /\ (exists f0, (f :: fs) !! (r - position)%nat = Some f0
                             /\ particles_of f0 <> None)
              <-> (r = position /\ particles_of f <> None)
                  \/ In r (updatable_forces fs (S position))).
    { intros r. rewrite Hin. split.
      - intros (Hle & f0 & Hl & Hp).
        destruct (r - position)%nat as [|k] eqn:Hk; simpl in Hl.
        + inversion Hl; subst f0. left. split; [lia | exact Hp].
        + right. split; [lia|]. exists f0.
          replace (r - S position)%nat with k by lia. auto.
      - intros [[-> Hp] | (Hle & f0 & Hl & Hp)].
        + split; [lia|]. exists f. rewrite Nat.sub_diag. auto.
        + split; [lia|]. exists f0.
          replace (r - position)%nat with (S (r - S position)) by lia. auto. }
    assert (Hfresh : ~ In position (updatable_forces fs (S position))).
    { intros H. apply Hin in H as [H _]. lia. }
    destruct f as [ps es|ps|name flag]; simpl.
    + split.
      * apply NoDup_cons. split; [|exact Hnd]. now rewrite list_elem_of_In.
      * intros r. rewrite Hrest. simpl. split.
        -- intros [<-|H]; [left; split; [reflexivity | discriminate] | now right].
        -- intros [[-> _]|H]; auto.
    + split.
      * apply NoDup_cons. split; [|exact Hnd]. now rewrite list_elem_of_In.
      * intros r. rewrite Hrest. simpl. split.
        -- intros [<-|H]; [left; split; [reflexivity | discriminate] | now right].
        -- intros [[-> _]|H]; auto.
    + split; [exact Hnd|].
      intros r. rewrite Hrest. simpl. split; [now right|].
      intros [[_ H]|H]; [congruence | exact H].
Qed.

(** X17: when the constructor returns, the driver holds the temperature,
    pH, proposal probability and debug flag it was given;
    [coulomb14scale] is what [get14scaling] returns for the System;
    [forces_to_update] lists every NonbondedForce and GBSAOBCForce of the
    System once and nothing else; every force has its class, its numbers of
    particles and exceptions and the particles of each exception as before;
    the driver is well-formed and no two groups share an atom; without a
    cpin file there is no group; [nattempts_per_update] is the number
    given, or the number of groups for [None]; both counters are zero and
    the work history is empty. *)
Theorem constructor_postconditions T pH_value prmtop cpin n p dbg (w w' : World) :
  __init__ T pH_value prmtop cpin n p dbg w = (Ok tt, w') ->
  (temperature w' = T /\ pH w' = pH_value
   /\ simultaneous_proposal_probability w' = p /\ debug w' = dbg)
  /\ fst (get14scaling PySystem w) = Ok (coulomb14scale w')
  /\ (NoDup (forces_to_update w')
      /\ forall r, In r (forces_to_update w')
           <-> exists f, system_forces w !! r = Some f /\ particles_of f <> None)
  /\ map force_shape (system_forces w') = map force_shape (system_forces w)
  /\ well_formed w' = true
  /\ groups_disjoint w'
  /\ (cpin = None -> titrationGroups w' = [])
  /\ nattempts_per_update w'
     = match n with
       | Some k => k
       | None => Z.of_nat (length (titrationGroups w'))
       end
  /\ nattempted w' = 0 /\ naccepted w' = 0 /\ work_history w' = [].
Proof.
  intros E. apply init_inv in E as (scale & table & w5 & Hscale & _ & Hcpin & ->).
  assert (Hget : fst (get14scaling PySystem w) = Ok scale).
  { destruct (get14scaling_reads_forces_only PySystem
                (store_parameters T pH_value p dbg w) w eq_refl) as [Hr _].
    rewrite <- Hr, Hscale. reflexivity. }
  clear Hscale. simpl in Hcpin.
  set (w4 := set_forces_to_update (updatable_forces (system_forces w) 0)
               (set_atomExceptions table
                  (set_coulomb14scale scale (store_parameters T pH_value p dbg w)))) in *.
  assert (H5 : surroundings w5 = surroundings w4
               /\ well_formed w5 = true /\ groups_disjoint w5
               /\ (cpin = None -> titrationGroups w5 = [])).
  { destruct cpin as [namelist|].
    - apply load_cpin_ok in Hcpin as (resstate & _ & _ & _ & _ & Hd & _ & Hwf & Hs & _);
        try reflexivity.
      repeat split; auto. discriminate.
    - subst w5. repeat split; auto.
      intros i j gi gj a _ Hi. discriminate. }
  destruct H5 as (Hs & Hwf & Hd & Hnone).
  unfold surroundings in Hs. simpl in Hs.
  inversion Hs as [[HT HpH Hp Hdbg Hc He Hf Hshape Hscript]]. clear Hs.
  destruct (updatable_forces_spec (system_forces w) 0) as [Hnd Hin].
  split; [simpl; auto|]. split.
  { rewrite Hget. simpl. congruence. }
  simpl. split.
  { rewrite Hf. split; [exact Hnd|]. intros r. rewrite Hin. split.
    - intros (_ & f & Hl & Hp'). rewrite Nat.sub_0_r in Hl. eauto.
    - intros (f & Hl & Hp'). split; [lia|]. rewrite Nat.sub_0_r. eauto. }
  repeat split; auto.
Qed.

(** X18: when the constructor returns for a cpin file, there is one group
    per entry of [RESSTATE] (a single number counts as a list of one), the
    active state of group [g] is [RESSTATE[g]], a valid state index of the
    group, and group [g] has the atoms
    [FIRST_ATOM - 1 .. FIRST_ATOM - 1 + NUM_ATOMS) and [NUM_STATES] states,
    state [k] with reference pKa zero, the energy
    [STATENE[FIRST_STATE + k] * kilocalories_per_mole], the proton count
    [PROTCNT[FIRST_STATE + k]] and the charges
    [CHRGDAT[FIRST_CHARGE + NUM_ATOMS*k : FIRST_CHARGE + NUM_ATOMS*(k+1)]]. *)
Theorem constructor_loads_the_cpin_groups T pH_value prmtop namelist n p dbg (w w' : World) :
  __init__ T pH_value prmtop (Some namelist) n p dbg w = (Ok tt, w') ->
  exists resstate,
    resstate_of namelist = Some resstate
    /\ length (titrationGroups w') = length resstate
    /\ titrationStates w' = map Some resstate
    /\ forall g group, titrationGroups w' !! g = Some group ->
         cpin_group namelist (Z.of_nat g) group
         /\ exists s, resstate !! g = Some s
              /\ 0 <= s < Z.of_nat (length (titration_states group)).
Proof.
  intros E. apply init_inv in E as (scale & table & w5 & _ & _ & Hcpin & ->).
  simpl in *.
  apply load_cpin_ok in Hcpin as (resstate & Hres & Hlen & Hst & Hall & _);
    try reflexivity.
  exists resstate. repeat split; auto.
  - now apply Hall.
  - destruct (Hall _ _ H) as (_ & s & Hs & Hr). exists s. split; [exact Hs|].
    now apply in_range_spec.
Qed.

(** X19: when the constructor returns and no 1-4 interaction of the
    prmtop file names a negative atom, [atomExceptions] has one row per
    atom, every atom of a 1-4 interaction is below the number of atoms, and
    row [a] contains [b] exactly when [(a, b)] or [(b, a)] is a 1-4
    interaction of the prmtop file: the table is symmetric. *)
Theorem constructor_tabulates_the_14_interactions
    T pH_value prmtop cpin n p dbg (w w' : World) :
  __init__ T pH_value prmtop cpin n p dbg w = (Ok tt, w') ->
  (forall a b, In (a, b) (get14Interactions prmtop) -> 0 <= a /\ 0 <= b) ->
  length (atomExceptions w') = Z.to_nat (getNumAtoms prmtop)
  /\ (forall a b, In (a, b) (get14Interactions prmtop) ->
        a < getNumAtoms prmtop /\ b < getNumAtoms prmtop)
  /\ forall a l, 0 <= a -> atomExceptions w' !! Z.to_nat a = Some l ->
       forall b, In b l
         <-> In (a, b) (get14Interactions prmtop) \/ In (b, a) (get14Interactions prmtop).
Proof.
  intros E Hpos. apply init_inv in E as (scale & table & w5 & _ & Hloop & Hcpin & ->).
  simpl in *.
  apply tabulate_loop in Hloop as (table' & Heq & Hlen & Hlt & Hrows); [|exact Hpos].
  apply (f_equal atomExceptions) in Heq. simpl in Heq. subst table'.
  rewrite length_replicate in *.
  set (w4 := set_forces_to_update (updatable_forces (system_forces w) 0)
               (set_atomExceptions table
                  (set_coulomb14scale scale (store_parameters T pH_value p dbg w)))) in *.
  assert (Hsame : atomExceptions w5 = table).
  { destruct cpin as [namelist|]; [|now subst w5].
    apply (respects_run (kept surroundings)) in Hcpin;
      [|apply kept_load_cpin; typeclasses eauto].
    unfold kept, surroundings in Hcpin. simpl in Hcpin. congruence. }
  rewrite Hsame. split; [exact Hlen|]. split.
  - intros a b Hin. destruct (Hlt _ _ Hin) as [Ha Hb].
    destruct (Hpos _ _ Hin). lia.
  - intros a l Ha Hl b.
    assert (Hlta : (Z.to_nat a < Z.to_nat (getNumAtoms prmtop))%nat).
    { apply lookup_lt_Some in Hl. lia. }
    destruct (Hrows a [] Ha) as (l' & Hl' & Hin).
    { now apply lookup_replicate_2. }
    rewrite Hl in Hl'. inversion Hl'; subst l'. rewrite Hin. simpl. tauto.
Qed.

(** X20: in a module that was imported, not run as a script, the
    constructor raises whenever it is given a cpin file with at least one
    entry in [RESSTATE]: [addTitratableGroup] reads the module-level name
    [system] (line 411). *)
Theorem constructor_cannot_load_a_cpin_when_imported
    T pH_value prmtop namelist n p dbg (w : World) :
  run_as_script w = false ->
  resstate_of namelist <> Some [] ->
  exists e, fst (__init__ T pH_value prmtop (Some namelist) n p dbg w) = Raise e.
Proof.
  intros Hscript Hres.
  destruct (__init__ T pH_value prmtop (Some namelist) n p dbg w) as [[[]|e] w'] eqn:E;
    [|now exists e].
  exfalso. apply init_inv in E as (scale & table & w5 & _ & _ & Hcpin & _).
  simpl in Hcpin.
  apply load_cpin_ok in Hcpin as (resstate & Hr & _ & _ & _ & _ & Hs & _);
    try reflexivity.
  simpl in Hs. rewrite Hscript in Hs.
  assert (resstate <> []) by congruence. now specialize (Hs H).
Qed.

(** X21: when the constructor returns, every force of [forces_to_update]
    answers [getParticleParameters] for the k-th atom of every group with
    the k-th charge of the active state of the group. *)
Theorem constructor_pushes_the_initial_charges
    T pH_value prmtop cpin n p dbg (w w' : World) :
  __init__ T pH_value prmtop cpin n p dbg w = (Ok tt, w') ->
  forall g group s state k atom force,
    titrationGroups w' !! g = Some group ->
    titrationStates w' !! g = Some (Some s) ->
    0 <= s -> titration_states group !! Z.to_nat s = Some state ->
    atom_indices group !! k = Some atom ->
    In force (forces_to_update w') ->
    exists charge sigma epsilon,
      charges state !! k = Some charge
      /\ getParticleParameters force atom w' = (Ok (charge, sigma, epsilon), w').
Proof.
  intros E. apply init_inv in E as (scale & table & w5 & _ & _ & Hcpin & ->).
  simpl in Hcpin.
  assert (Hinv : charges_in_force w5).
  { destruct cpin as [namelist|].
    - now apply load_cpin_ok in Hcpin as (_ & _ & _ & _ & _ & _ & _ & _ & _ & H).
    - subst w5. intros g group s state k atom force Hl. discriminate. }
  intros g group s state k atom force HG HS Hs Hst Hatom Hin. simpl in *.
  destruct (Hinv _ _ _ _ _ _ _ HG HS Hs Hst Hatom Hin)
    as (f & ps & c & sg & ep & Hf & Hps & Hpos & Hl & Hc).
  exists c, sg, ep. split; [exact Hc|].
  unfold getParticleParameters, bind, lookup_force. simpl. rewrite Hf.
  assert (Hget : omm_get ps atom = Ok (c, sg, ep)).
  { unfold omm_get. pose proof (lookup_lt_Some _ _ _ Hl) as Hlt.
    rewrite (proj2 (in_range_spec atom (Z.of_nat (length ps)))) by lia.
    now rewrite Hl. }
  destruct f as [ps0 es|ps0|name flag]; simpl in Hps; inversion Hps; subst ps0;
    unfold lift_result; now rewrite Hget.
Qed.
End Constructor.

(** ** Examples

    The theorems at concrete worlds, over binary64 floats and over the real
    numbers. *)

Module Binary64Examples.
Import Binary64 Examples.
Local Abbreviation World := (World float float (Script float)).

(** The uphill proposal of [uphill_world] (C1): the protonated state
    costs about 417 in log probability, the draw 1/2 rejects it. *)
Lemma rejected_trial_example :
  exists w' : World,
    update uphill_world = (Ok tt, w')
    /\ titrationStates w' = titrationStates (uphill_world : World)
    /\ naccepted w' = 3 /\ nattempted w' = 6.
Proof.
  edestruct (rejected_trial_restores_states (uphill_world : World))
    as (w' & _ & Hstates & _ & Hacc & Hatt & Hupdate).
  - vm_compute. reflexivity.
  - vm_compute. reflexivity.
  - vm_compute. reflexivity.
  - vm_compute. reflexivity.
  - exists w'. split; [apply Hupdate; reflexivity|]. split; [exact Hstates|].
    split; [exact Hacc | exact Hatt].
Defined.

(** Failed setup calls on [uphill_world] (C3). *)
Lemma failed_setup_example :
  addTitratableGroup [0; 5] (uphill_world : World) = (Raise OverlapError, uphill_world)
  /\ addTitrationState 7 0%float 0%float [0%float] 0 (uphill_world : World)
     = (Raise InvalidGroupError, uphill_world)
  /\ addTitrationState 0 0%float 0%float [0%float; 0%float] 0 (uphill_world : World)
     = (Raise ChargeCountMismatchError, uphill_world).
Proof.
  destruct (failed_setup_leaves_world_unchanged (uphill_world : World)) as (H1 & H2 & H3).
  split; [|split].
  - apply H1. exists 0, site. simpl. auto.
  - apply H2. simpl. lia.
  - apply (H3 0 _ _ _ _ site); [lia | reflexivity | simpl; lia].
Defined.

(** A push that returns (C4). *)
Lemma setTitrationState_example :
  let w' := snd (setTitrationState 0 1 true false (uphill_world : World)) in
  setTitrationState 0 1 true false (uphill_world : World) = (Ok tt, w')
  /\ getTitrationState 0 w' = (Ok (Some 1), w').
Proof.
  pose proof (setTitrationState_stores_state_after_push (uphill_world : World)
                0 1 true false site protonated) as H.
  assert (E : fst (update_forces site protonated true false (uphill_world : World)) = Ok tt)
    by (vm_compute; reflexivity).
  destruct (update_forces site protonated true false (uphill_world : World))
    as [[[]|e] w1]; [|discriminate].
  destruct H as [H1 H2]; [lia | reflexivity | lia | reflexivity | reflexivity |].
  intros w'. subst w'. rewrite H1. split; [reflexivity | exact H2].
Defined.

(** C4 as stated fails: the state is not stored when the push raises.
    Setting state 1 of group 0 (both valid) raises, and the query afterwards
    still returns state 0, not 1, with a force of a class the driver does
    not know among [forces_to_update] (line 576), and with the debug flag
    and a GBSAOBCForce (line 572). *)
Lemma setTitrationState_raise_keeps_old_state :
  (fst (setTitrationState 0 1 false false (custom_force_world : World))
   = Raise (UnsupportedForceError "CustomGBForce")
   /\ fst (getTitrationState 0
             (snd (setTitrationState 0 1 false false (custom_force_world : World))))
      = Ok (Some 0)
   /\ fst (getTitrationState 0
             (snd (setTitrationState 0 1 false false (custom_force_world : World))))
      <> Ok (Some 1))
  /\ (fst (setTitrationState 0 1 false true (uphill_world : World)) = Raise UnboundLocalError
      /\ fst (getTitrationState 0
                (snd (setTitrationState 0 1 false true (uphill_world : World))))
         = Ok (Some 0)
      /\ fst (getTitrationState 0
                (snd (setTitrationState 0 1 false true (uphill_world : World))))
         <> Ok (Some 1)).
Proof. repeat split; try (vm_compute; reflexivity); vm_compute; discriminate. Qed.

(** A third state added to the site of [uphill_world], and three states
    added to a new group (C5): state 2 is active in both. *)
Lemma addTitrationState_example :
  fst (getTitrationState 0
         (snd (addTitrationState 0 0%float 0%float [0.5%float] 2 (uphill_world : World))))
  = Ok (Some 2)
  /\ (let w := snd (addTitratableGroup [1; 2] (uphill_world : World)) in
      fst (getTitrationState 1
             (snd (addTitrationStates 1
                     [ {| pKref := 0%float; relative_energy := 0%float;
                          charges := [0%float; 0%float]; proton_count := 0 |};
                       {| pKref := 0%float; relative_energy := 0%float;
                          charges := [0.5%float; 0.5%float]; proton_count := 1 |};
                       {| pKref := 0%float; relative_energy := 0%float;
                          charges := [1%float; 1%float]; proton_count := 2 |} ] w)))
      = Ok (Some 2)).
Proof.
  split.
  - destruct (addTitrationState_activates_new_state (uphill_world : World) 0 site)
      as [H _]; [reflexivity | reflexivity |].
    destruct (addTitrationState 0 0%float 0%float [0.5%float] 2 (uphill_world : World))
      as [r w'] eqn:E.
    assert (r = Ok tt) as -> by (apply (f_equal fst) in E; vm_compute in E; congruence).
    destruct (H _ _ _ _ _ E) as (group' & _ & Hstates & Hq & _).
    cbn [snd]. rewrite Hq, Hstates. reflexivity.
  - intros w.
    destruct (addTitrationState_activates_new_state w 1
                {| atom_indices := [1; 2]; titration_states := []; index := 2;
                   nstates := 0; exception_indices := [] |})
      as [_ H]; [vm_compute; reflexivity | reflexivity |].
    match goal with
    | |- context [addTitrationStates 1 ?l w] =>
        destruct (addTitrationStates 1 l w) as [r w'] eqn:E;
        assert (r = Ok tt) as -> by (apply (f_equal fst) in E; vm_compute in E; congruence);
        cbn [snd]; rewrite (H l w' eq_refl ltac:(discriminate) E)
    end.
    reflexivity.
Defined.

(** C6 fails on the code by one: the group index is computed as
    [len(self.titrationGroups) + 1] (line 408) before the group is
    appended.  [addTitratableGroup] on a driver without groups returns 1
    although the new group is at index 0: the returned value is rejected as
    a group index, and index 0 is accepted. *)
Lemma addTitratableGroup_returns_count_not_index :
  let w' := snd (addTitratableGroup [0; 1] (empty_world : World)) in
  fst (addTitratableGroup [0; 1] (empty_world : World)) = Ok 1
  /\ map atom_indices (titrationGroups w') = [[0; 1]]
  /\ fst (getNumTitrationStates 1 w') = Raise InvalidGroupError
  /\ fst (addTitrationState 1 0%float 0%float [0%float; 0%float] 0 w') = Raise InvalidGroupError
  /\ fst (getNumTitrationStates 0 w') = Ok 0
  /\ fst (addTitrationState 0 0%float 0%float [0%float; 0%float] 0 w') = Ok tt.
Proof. vm_compute. repeat split. Qed.

(** Three acceptances in five attempts, and no attempt yet (C8). *)
Lemma getAcceptanceProbability_example :
  getAcceptanceProbability (uphill_world : World)
  = (Ok (3 / 5)%float, uphill_world)
  /\ getAcceptanceProbability (empty_world : World)
     = (Raise ZeroDivisionError, empty_world).
Proof.
  split.
  - destruct (getAcceptanceProbability_spec (uphill_world : World)) as [H _];
      [vm_compute; reflexivity|].
    apply H. reflexivity.
  - destruct (getAcceptanceProbability_spec (empty_world : World)) as [_ H];
      [vm_compute; reflexivity|].
    apply H. reflexivity.
Defined.

(** The counters of [uphill_world] after [update] (C9). *)
Lemma counts_ok_example : counts_ok (snd (update (uphill_world : World))).
Proof.
  apply (counts_ok_invariant (uphill_world : World)).
  unfold counts_ok. simpl. lia.
Defined.
End Binary64Examples.

Module RealExamples.
Import RealNumbers Examples.
Local Abbreviation World := (World R R (Script R)).

Lemma Reqb_false (a b : R) : a <> b -> Reqb a b = false.
Proof. intros H. unfold Reqb. now destruct (Req_dec_T a b). Qed.

(** The formula over the real numbers at [two_site_world] (C2): two
    groups whose terms do not vanish. *)
Lemma log_probability_example :
  let beta := (1 / (831451 / 100000000 * 300))%R in
  fst (_compute_log_probability (Cases.two_site_world : World))
  = Ok (- beta * (3 + 0)
        + ((-1 * (7 - 4) * ln 10 + beta * 10)
           + (-2 * (7 - 9) * ln 10 + beta * -5)))%R.
Proof.
  intros beta.
  destruct (compute_log_probability_formula (Cases.two_site_world : World)
              [{| pKref := 4%R; relative_energy := 10%R;
                  charges := [1%R]; proton_count := 1 |};
               {| pKref := 9%R; relative_energy := (-5)%R;
                  charges := [1%R; 1%R]; proton_count := 2 |}])
    as [_ H].
  - apply Reqb_false. simpl. lra.
  - reflexivity.
  - rewrite H.
    + unfold log_probability_formula, specified_term, beta_of. simpl.
      change (- (1))%Z with (-1)%Z. change (- (2))%Z with (-2)%Z.
      f_equal. subst beta. field.
    + intros x y z. apply Rplus_assoc.
    + intros x. apply Rplus_0_r.
Defined.
End RealExamples.

(** ** More examples

    The properties beyond the claims at concrete worlds. *)

Module Binary64Cases.
Import Binary64 Examples Cases.
Local Abbreviation World := (World float float (Script float)).

Lemma update_runs_every_attempt_example :
  nattempted (snd (update (uphill_world : World))) = 6
  /\ length (work_history (snd (update (uphill_world : World)))) = 1%nat.
Proof.
  destruct (update (uphill_world : World)) as [r w'] eqn:E.
  assert (r = Ok tt) as -> by (apply (f_equal fst) in E; vm_compute in E; congruence).
  destruct (update_runs_every_attempt _ _ E) as (Ha & _ & entries & Hh & Hn & _).
  cbn [snd]. split.
  - rewrite Ha. reflexivity.
  - rewrite Hh, length_app. simpl in *. lia.
Defined.

Lemma accepted_trial_example :
  exists w' : World,
    update downhill_world = (Ok tt, w')
    /\ titrationStates w' = [Some 0]
    /\ naccepted w' = 4 /\ nattempted w' = 6.
Proof.
  edestruct (accepted_trial_keeps_proposal (downhill_world : World))
    as (w' & _ & Hs & _ & _ & Hacc & Hatt & Hupdate).
  - vm_compute. reflexivity.
  - left. vm_compute. reflexivity.
  - exists w'. split; [apply Hupdate; reflexivity|].
    rewrite Hs, Hacc, Hatt. repeat split.
Defined.

Lemma update_without_groups_example :
  update (set_nattempts_per_update 1 (empty_world : World))
  = (Raise ValueError, set_nattempts_per_update 1 empty_world)
  /\ update (empty_world : World) = (Ok tt, empty_world).
Proof.
  destruct (update_without_groups (set_nattempts_per_update 1 (empty_world : World)) eq_refl)
    as (H1 & _ & _).
  destruct (update_without_groups (empty_world : World) eq_refl) as (_ & H2 & _).
  split.
  - apply H1. simpl. lia.
  - apply H2. simpl. lia.
Defined.

Lemma update_stateless_example :
  fst (update (stateless_world : World)) = Raise TypeError.
Proof.
  apply (update_needs_a_state_in_every_group (stateless_world : World)).
  - vm_compute. reflexivity.
  - vm_compute. reflexivity.
  - eexists. split; [right; left; reflexivity | reflexivity].
  - vm_compute. reflexivity.
Defined.

Lemma addTitratableGroup_imported_example :
  addTitratableGroup [0; 1] (imported_world : World)
  = (Raise (NameError "system"), imported_world).
Proof.
  apply (addTitratableGroup_needs_the_script_system (imported_world : World)).
  - intros (a & group & [] & _).
  - reflexivity.
Defined.

Lemma invalid_indices_example :
  getTitrationState (-1) (uphill_world : World) = (Raise InvalidGroupError, uphill_world)
  /\ setTitrationState 0 2 true false (uphill_world : World)
     = (Raise InvalidStateError, uphill_world).
Proof.
  destruct (invalid_indices_are_rejected (uphill_world : World) (-1)) as [H _].
  destruct (invalid_indices_are_rejected (uphill_world : World) 0) as [_ H'].
  split.
  - apply H. simpl. lia.
  - apply (H' site); [lia | reflexivity | simpl; lia].
Defined.

Lemma pushed_charges_example :
  let w' := snd (setTitrationState 0 1 true false (uphill_world : World)) in
  fst (getParticleParameters 0 0 w') = Ok (1, 1, 1)%float
  /\ fst (getParticleParameters 1 0 w') = Ok (1, 1, 1)%float.
Proof.
  destruct (setTitrationState 0 1 true false (uphill_world : World)) as [r w'] eqn:E.
  assert (r = Ok tt) as -> by (apply (f_equal fst) in E; vm_compute in E; congruence).
  destruct (setTitrationState_pushes_charges (uphill_world : World) w' 0 1 true false
              site protonated) as [H _]; try reflexivity; try lia.
  { repeat constructor. intros Hin. inversion Hin. }
  { exact E. }
  cbn [snd]. split.
  - destruct (H 0%nat (or_introl eq_refl)) as [H0 _].
    destruct (H0 0%nat 0 eq_refl) as (c & q & sg & ep & Hc & Hq & ->).
    inversion Hc; subst c. vm_compute in Hq. inversion Hq; subst. reflexivity.
  - destruct (H 1%nat (or_intror (or_introl eq_refl))) as [H0 _].
    destruct (H0 0%nat 0 eq_refl) as (c & q & sg & ep & Hc & Hq & ->).
    inversion Hc; subst c. vm_compute in Hq. inversion Hq; subst. reflexivity.
Defined.

Lemma rescaled_exception_example :
  fst (getExceptionParameters 0 0
         (snd (setTitrationState 0 1 true false (paired_world : World))))
  = Ok (0, 1, (5 / 6 * 1 * 1)%float, 1%float, 0x1p-52%float).
Proof.
  destruct (setTitrationState 0 1 true false (paired_world : World)) as [r w'] eqn:E.
  assert (r = Ok tt) as -> by (apply (f_equal fst) in E; vm_compute in E; congruence).
  destruct (setTitrationState_rescales_exceptions (paired_world : World) w' 0 1 true false
              paired_site protonated ltac:(lia) eq_refl ltac:(lia) eq_refl
              ltac:(repeat constructor; intros Hin; inversion Hin) E
              0%nat _ _ (or_introl eq_refl) eq_refl) as [H _].
  cbn [snd].
  destruct (H 0 (or_introl eq_refl))
    as (c & p1 & p2 & cp & sg & ep & q1 & s1 & e1 & q2 & s2 & e2 & Hc & Hq & Hq1 & Hq2 & ->).
  cbn [fst].
  vm_compute in Hc. inversion Hc; subst c.
  vm_compute in Hq. inversion Hq; subst.
  apply (f_equal fst) in Hq1, Hq2. cbn [fst] in Hq1, Hq2.
  pose proof (f_equal snd E) as Ew. cbn [snd] in Ew. subst w'.
  vm_compute in Hq1, Hq2. inversion Hq1; inversion Hq2; subst.
  vm_compute. reflexivity.
Defined.

Lemma well_formed_example :
  well_formed (snd (update (uphill_world : World))) = true
  /\ well_formed (snd (addTitratableGroup [1; 2] (uphill_world : World))) = true.
Proof.
  destruct (well_formedness_is_invariant (uphill_world : World)) as (H1 & _ & _ & H4).
  - vm_compute. reflexivity.
  - split; [exact H4 | apply H1].
Defined.

Lemma uploaded_parameters_example :
  context (snd (setTitrationState 0 1 true false (uphill_world : World))) = 1000%float
  /\ context (snd (setTitrationState 0 1 false false (uphill_world : World))) = 0%float.
Proof.
  assert (Hnd : NoDup [0]) by (apply NoDup_singleton).
  assert (Hrefs : NoDup [0%nat; 1%nat]).
  { apply NoDup_cons. split; [|apply NoDup_singleton].
    intros Hin. apply list_elem_of_singleton in Hin. discriminate. }
  split.
  - destruct (setTitrationState 0 1 true false (uphill_world : World)) as [r w'] eqn:E.
    assert (r = Ok tt) as -> by (apply (f_equal fst) in E; vm_compute in E; congruence).
    destruct (setTitrationState_uploads_parameters (uphill_world : World) w' 0 1 true false
                site protonated ltac:(lia) eq_refl ltac:(lia) eq_refl
                Hnd Hrefs E) as [Hc _].
    cbn [snd]. rewrite Hc.
    pose proof (f_equal snd E) as Ew. cbn [snd] in Ew. subst w'. vm_compute. reflexivity.
  - destruct (setTitrationState 0 1 false false (uphill_world : World)) as [r w'] eqn:E.
    assert (r = Ok tt) as -> by (apply (f_equal fst) in E; vm_compute in E; congruence).
    destruct (setTitrationState_uploads_parameters (uphill_world : World) w' 0 1 false false
                site protonated ltac:(lia) eq_refl ltac:(lia) eq_refl
                Hnd Hrefs E) as [_ Hc].
    cbn [snd]. now rewrite Hc.
Defined.


Lemma added_group_example :
  titrationStates (snd (addTitratableGroup [0] (listed_world : World))) = [None]
  /\ map atom_indices (titrationGroups (snd (addTitratableGroup [0] (listed_world : World))))
     = [[0]].
Proof.
  destruct (addTitratableGroup [0] (listed_world : World)) as [r w'] eqn:E.
  assert (exists n, r = Ok n) as (n & ->).
  { apply (f_equal fst) in E. vm_compute in E. subst r. eauto. }
  destruct (addTitratableGroup_appends_a_disjoint_group _ _ _ _ E)
    as ((exceptions & Hg & _) & Hs & _).
  cbn [snd]. rewrite Hs, Hg. split; reflexivity.
Defined.


Lemma constructed_world_returned :
  __init__ 300%float 7%float cpin_prmtop (Some cpin_namelist) None (1 / 2)%float false
    (listed_world : World)
  = (Ok tt, constructed_world).
Proof. vm_compute. reflexivity. Qed.

Lemma constructor_example :
  well_formed (constructed_world : World) = true
  /\ temperature (constructed_world : World) = 300%float
  /\ nattempted (constructed_world : World) = 0
  /\ coulomb14scale (constructed_world : World) = Some (5 / 6 / (1 * 1))%float.
Proof.
  destruct (constructor_postconditions _ _ _ _ _ _ _ _ _ constructed_world_returned)
    as ((HT & _) & Hscale & _ & _ & Hwf & _ & _ & _ & Hn & _).
  split; [exact Hwf|]. split; [exact HT|]. split; [exact Hn|].
  vm_compute in Hscale. now inversion Hscale.
Defined.

Lemma loaded_cpin_example :
  titrationStates (constructed_world : World) = [Some 1]
  /\ length (titrationGroups (constructed_world : World)) = 1%nat.
Proof.
  destruct (constructor_loads_the_cpin_groups _ _ _ _ _ _ _ _ _ constructed_world_returned)
    as (resstate & Hres & Hlen & Hst & _).
  vm_compute in Hres. inversion Hres; subst resstate. split; assumption.
Defined.

Lemma tabulated_interactions_example :
  length (atomExceptions (constructed_world : World)) = 3%nat
  /\ forall l, atomExceptions (constructed_world : World) !! 1%nat = Some l -> In 0 l.
Proof.
  destruct (constructor_tabulates_the_14_interactions _ _ _ _ _ _ _ _ _
              constructed_world_returned) as (Hlen & _ & Hrows).
  - intros a b [Heq|[]]. inversion Heq. lia.
  - split; [exact Hlen|]. intros l Hl.
    apply (Hrows 1 l); [lia | exact Hl |]. right. now left.
Defined.

Lemma imported_constructor_example :
  exists e,
    fst (__init__ 300%float 7%float cpin_prmtop (Some cpin_namelist) None (1 / 2)%float
           false (imported_world : World)) = Raise e.
Proof.
  apply constructor_cannot_load_a_cpin_when_imported.
  - reflexivity.
  - vm_compute. discriminate.
Defined.

Lemma initial_charges_example :
  exists sigma epsilon,
    getParticleParameters 0%nat 1 (constructed_world : World)
    = (Ok (1%float, sigma, epsilon), constructed_world).
Proof.
  assert (HG : exists group,
            titrationGroups (constructed_world : World) !! 0%nat = Some group
            /\ exists state,
                 titration_states group !! Z.to_nat 1 = Some state
                 /\ atom_indices group !! 1%nat = Some 1
                 /\ charges state !! 1%nat = Some 1%float)
    by (vm_compute; eauto 10).
  destruct HG as (group & HG & state & Hst & Hatom & Hcharge).
  destruct (constructor_pushes_the_initial_charges _ _ _ _ _ _ _ _ _
              constructed_world_returned 0%nat group 1 state 1%nat 1 0%nat HG)
    as (c & sg & ep & Hc & Hget);
    [vm_compute; reflexivity | lia | exact Hst | exact Hatom | vm_compute; now left |].
  rewrite Hcharge in Hc. inversion Hc; subst c. eauto.
Defined.
End Binary64Cases.

Module RealCases.
Import RealNumbers Examples Cases.
Local Abbreviation World := (World R R (Script R)).

Lemma Rltb_abs (q : R) : Rltb 0 (Rabs q) = true -> q <> 0%R.
Proof.
  unfold Rltb. destruct (Rlt_dec 0 (Rabs q)) as [Hlt|]; [|discriminate].
  intros _ ->. rewrite Rabs_R0 in Hlt. lra.
Qed.

Lemma exact_quotient_real (scale : R) : exact_quotient scale.
Proof.
  intros q1 q2 H1 H2. apply Rltb_abs in H1, H2. simpl in H1, H2.
  unfold py_truediv. simpl.
  rewrite RealExamples.Reqb_false by (apply Rmult_integral_contrapositive; auto).
  f_equal. field. auto.
Qed.

Lemma get14scaling_real_example :
  get14scaling PySystem (listed_world : World) = (Ok (Some (5 / 6)%R), listed_world).
Proof.
  assert (Hcharged : Rltb 0 (Rabs 1) = true).
  { unfold Rltb. destruct (Rlt_dec 0 (Rabs 1)) as [|Hn]; [reflexivity|].
    exfalso. apply Hn. rewrite Rabs_R1. lra. }
  rewrite (get14scaling_recovers_scale (listed_world : World) 0%nat _ _ (5 / 6)%R
             (exact_quotient_real _) eq_refl eq_refl).
  - simpl. unfold omm_get. simpl. unfold fabs, real_abs. now rewrite Hcharged.
  - intros [|[|i]] p1 p2 cp sg ep Hl; simpl in Hl; inversion Hl; subst.
    + eexists _, _, _, _, _, _. split; [reflexivity|]. split; [reflexivity|].
      intros _. simpl. lra.
    + eexists _, _, _, _, _, _. split; [reflexivity|]. split; [reflexivity|].
      simpl. unfold omm_get. simpl. unfold fabs, real_abs.
      unfold Rltb at 2. destruct (Rlt_dec 0 (Rabs 0)) as [Hlt|]; [|rewrite andb_false_r; discriminate].
      rewrite Rabs_R0 in Hlt. lra.
Defined.
End RealCases.
